(** * Latvia fuel bot: the price pipeline, embedded and verified

    The development follows the three source files:
    - [parser_utils.py]: [parse_eur], [format_price], [chunk_text];
    - [fuel_sources.py]: [normalize_fuel_type], the five source adapters of
      [FuelFetcher] and the merge of [fetch_all];
    - [main.py]: [top_cmd], up to the rows it ranks.

    Modelling decisions, once and for all:
    - a Python [str] is a [string] that holds its UTF-8 form, and [chars] cuts
      it into its characters. [str.strip], [str.lower], [str.isdigit] and the
      digits [int] and [float] accept are given on all of Unicode, from the
      character tables of the interpreter (CPython 3.11, Unicode 14): white
      space, decimal digits, digits, the lower-case mappings with the two
      special cases of [str.lower] (the dotted capital I and the final
      sigma), Cased and Case_Ignorable. Bytes that are no well-formed UTF-8
      stand for no Python string; they are kept as they are;
    - a price is the decimal number the Python float denotes, kept as its
      number of thousandths (the unit [round(_, 3)] produces). What a double
      adds to this is left out: the spellings inf, infinity and nan that
      [float] accepts, overflow, and binary rounding ([round3] rounds the
      decimal number itself, [round] the nearest double, which can differ on
      a literal with more than three fractional digits);
    - [int] refuses more than 4300 digits, the default limit of the
      interpreter;
    - a [prices] dict is an object of a store ([heap]); a station record holds
      the location of its dict, so that aliasing and in-place updates are
      visible;
    - the regular-expression engine, the HTTP transport and the HTML reduction
      are libraries: an adapter is modelled from the outcome of its transport
      call and the matches its patterns yield on the page text. *)

From Stdlib Require Import ZArith Ascii String List Sorting.Sorted Permutation Lia.
From Stdlib Require DecimalN.
From stdpp Require Import base option list strings gmap fin_maps.

Local Open Scope string_scope.
Local Open Scope Z_scope.

(** ** Python string primitives *)

Module PyStr.

(** The bytes of a string. *)
Definition is_digit (c : ascii) : bool :=
  let n := N_of_ascii c in (48 <=? n)%N && (n <=? 57)%N.

Definition digit_val (c : ascii) : Z := Z.of_N (N_of_ascii c) - 48.

Definition is_ascii (c : ascii) : bool := (N_of_ascii c <? 128)%N.

(** The one-byte white space of [str.isspace]: TAB, LF, VT, FF, CR, FS, GS,
    RS, US and the space. *)
Definition is_space (c : ascii) : bool :=
  let n := N_of_ascii c in
  ((9 <=? n)%N && (n <=? 13)%N) || ((28 <=? n)%N && (n <=? 32)%N).

(** A continuation byte of UTF-8: 10xxxxxx. *)
Definition is_cont (c : ascii) : bool :=
  let n := N_of_ascii c in (128 <=? n)%N && (n <? 192)%N.

Fixpoint forall_chars (p : ascii -> bool) (s : string) : bool :=
  match s with
  | EmptyString => true
  | String c s' => p c && forall_chars p s'
  end.

Fixpoint map_chars (f : ascii -> ascii) (s : string) : string :=
  match s with
  | EmptyString => EmptyString
  | String c s' => String (f c) (map_chars f s')
  end.

(** The join of the parts with nothing between them. *)
Fixpoint concat_strings (parts : list string) : string :=
  match parts with
  | [] => EmptyString
  | p :: ps => p ++ concat_strings ps
  end.

(** *** The characters of a string *)

Definition starts_cont (s : string) : bool :=
  match s with
  | String c _ => is_cont c
  | EmptyString => false
  end.

(** The characters of a string, each with its bytes: a byte that is no
    continuation byte opens a character and the continuation bytes that
    follow belong to it. *)
Fixpoint chars (s : string) : list string :=
  match s with
  | EmptyString => []
  | String c r =>
      match chars r with
      | g :: gs =>
          if starts_cont g then String c g :: gs else String c EmptyString :: g :: gs
      | [] => [String c EmptyString]
      end
  end.

Definition cont_bits (c : ascii) : N := (N_of_ascii c - 128)%N.

(** The code point a character stands for; [None] for bytes that are no
    well-formed UTF-8 sequence (too short or too long, overlong, a surrogate,
    above U+10FFFF). *)
Definition code_point (g : string) : option N :=
  match g with
  | String a EmptyString =>
      if is_ascii a then Some (N_of_ascii a) else None
  | String a (String b EmptyString) =>
      let a := N_of_ascii a in
      if (194 <=? a)%N && (a <=? 223)%N && is_cont b
      then Some ((a - 192) * 64 + cont_bits b)%N else None
  | String a (String b (String c EmptyString)) =>
      let a := N_of_ascii a in
      if (224 <=? a)%N && (a <=? 239)%N && is_cont b && is_cont c then
        let n := ((a - 224) * 4096 + cont_bits b * 64 + cont_bits c)%N in
        if (2048 <=? n)%N && negb ((55296 <=? n)%N && (n <=? 57343)%N)
        then Some n else None
      else None
  | String a (String b (String c (String d EmptyString))) =>
      let a := N_of_ascii a in
      if (240 <=? a)%N && (a <=? 244)%N && is_cont b && is_cont c && is_cont d then
        let n := ((a - 240) * 262144 + cont_bits b * 4096 + cont_bits c * 64
                  + cont_bits d)%N in
        if (65536 <=? n)%N && (n <=? 1114111)%N then Some n else None
      else None
  | _ => None
  end.

(** The UTF-8 form of a code point. *)
Definition utf8 (n : N) : string :=
  let byte (k : N) := ascii_of_N k in
  let tail (k : N) := byte (128 + k mod 64)%N in
  if (n <? 128)%N then String (byte n) EmptyString
  else if (n <? 2048)%N then String (byte (192 + n / 64)%N) (String (tail n) EmptyString)
  else if (n <? 65536)%N then
    String (byte (224 + n / 4096)%N)
      (String (tail (n / 64)%N) (String (tail n) EmptyString))
  else
    String (byte (240 + n / 262144)%N)
      (String (tail (n / 4096)%N) (String (tail (n / 64)%N) (String (tail n) EmptyString))).

(** *** The character tables of the interpreter (Unicode 14) *)

Definition in_ranges (n : N) (table : list (N * N)) : bool :=
  existsb (fun '(lo, hi) => (lo <=? n)%N && (n <=? hi)%N) table.

(** The white space of [str.isspace] and [str.strip]: TAB to CR, FS to the
    space, NEL, the no-break space and the spaces of the general
    punctuation and CJK blocks. *)
Definition space_table : list (N * N) :=
  [ (9, 13); (28, 32); (133, 133); (160, 160); (5760, 5760); (8192, 8202);
    (8232, 8233); (8239, 8239); (8287, 8287); (12288, 12288) ]%N.

(** The decimal digits ([str.isdecimal], what [int] and [float] read and
    the pattern class [\d] matches): runs of ten, each from its zero. *)
Definition decimal_table : list (N * N) :=
  [
    (48, 57); (1632, 1641); (1776, 1785); (1984, 1993); (2406, 2415); (2534, 2543); (2662, 2671);
    (2790, 2799); (2918, 2927); (3046, 3055); (3174, 3183); (3302, 3311); (3430, 3439); (3558, 3567);
    (3664, 3673); (3792, 3801); (3872, 3881); (4160, 4169); (4240, 4249); (6112, 6121); (6160, 6169);
    (6470, 6479); (6608, 6617); (6784, 6793); (6800, 6809); (6992, 7001); (7088, 7097); (7232, 7241);
    (7248, 7257); (42528, 42537); (43216, 43225); (43264, 43273); (43472, 43481); (43504, 43513); (43600, 43609);
    (44016, 44025); (65296, 65305); (66720, 66729); (68912, 68921); (69734, 69743); (69872, 69881); (69942, 69951);
    (70096, 70105); (70384, 70393); (70736, 70745); (70864, 70873); (71248, 71257); (71360, 71369); (71472, 71481);
    (71904, 71913); (72016, 72025); (72784, 72793); (73040, 73049); (73120, 73129); (92768, 92777); (92864, 92873);
    (93008, 93017); (120782, 120831); (123200, 123209); (123632, 123641); (125264, 125273); (130032, 130041) ]%N.


(** The simple lower-case mappings: every [step]-th code point from [lo] to
    [hi] goes to [to + (c - lo)]; entries [(lo, hi, step, to)]. *)
Definition lower_table : list (N * N * N * N) :=
  [
    (65, 90, 1, 97); (192, 214, 1, 224); (216, 222, 1, 248); (256, 302, 2, 257); (306, 310, 2, 307);
    (313, 327, 2, 314); (330, 374, 2, 331); (376, 376, 1, 255); (377, 381, 2, 378); (385, 385, 1, 595);
    (386, 388, 2, 387); (390, 390, 1, 596); (391, 391, 1, 392); (393, 394, 1, 598); (395, 395, 1, 396);
    (398, 398, 1, 477); (399, 399, 1, 601); (400, 400, 1, 603); (401, 401, 1, 402); (403, 403, 1, 608);
    (404, 404, 1, 611); (406, 406, 1, 617); (407, 407, 1, 616); (408, 408, 1, 409); (412, 412, 1, 623);
    (413, 413, 1, 626); (415, 415, 1, 629); (416, 420, 2, 417); (422, 422, 1, 640); (423, 423, 1, 424);
    (425, 425, 1, 643); (428, 428, 1, 429); (430, 430, 1, 648); (431, 431, 1, 432); (433, 434, 1, 650);
    (435, 437, 2, 436); (439, 439, 1, 658); (440, 440, 1, 441); (444, 444, 1, 445); (452, 452, 1, 454);
    (453, 453, 1, 454); (455, 455, 1, 457); (456, 456, 1, 457); (458, 458, 1, 460); (459, 475, 2, 460);
    (478, 494, 2, 479); (497, 497, 1, 499); (498, 500, 2, 499); (502, 502, 1, 405); (503, 503, 1, 447);
    (504, 542, 2, 505); (544, 544, 1, 414); (546, 562, 2, 547); (570, 570, 1, 11365); (571, 571, 1, 572);
    (573, 573, 1, 410); (574, 574, 1, 11366); (577, 577, 1, 578); (579, 579, 1, 384); (580, 580, 1, 649);
    (581, 581, 1, 652); (582, 590, 2, 583); (880, 882, 2, 881); (886, 886, 1, 887); (895, 895, 1, 1011);
    (902, 902, 1, 940); (904, 906, 1, 941); (908, 908, 1, 972); (910, 911, 1, 973); (913, 929, 1, 945);
    (932, 939, 1, 964); (975, 975, 1, 983); (984, 1006, 2, 985); (1012, 1012, 1, 952); (1015, 1015, 1, 1016);
    (1017, 1017, 1, 1010); (1018, 1018, 1, 1019); (1021, 1023, 1, 891); (1024, 1039, 1, 1104); (1040, 1071, 1, 1072);
    (1120, 1152, 2, 1121); (1162, 1214, 2, 1163); (1216, 1216, 1, 1231); (1217, 1229, 2, 1218); (1232, 1326, 2, 1233);
    (1329, 1366, 1, 1377); (4256, 4293, 1, 11520); (4295, 4295, 1, 11559); (4301, 4301, 1, 11565); (5024, 5103, 1, 43888);
    (5104, 5109, 1, 5112); (7312, 7354, 1, 4304); (7357, 7359, 1, 4349); (7680, 7828, 2, 7681); (7838, 7838, 1, 223);
    (7840, 7934, 2, 7841); (7944, 7951, 1, 7936); (7960, 7965, 1, 7952); (7976, 7983, 1, 7968); (7992, 7999, 1, 7984);
    (8008, 8013, 1, 8000); (8025, 8031, 2, 8017); (8040, 8047, 1, 8032); (8072, 8079, 1, 8064); (8088, 8095, 1, 8080);
    (8104, 8111, 1, 8096); (8120, 8121, 1, 8112); (8122, 8123, 1, 8048); (8124, 8124, 1, 8115); (8136, 8139, 1, 8050);
    (8140, 8140, 1, 8131); (8152, 8153, 1, 8144); (8154, 8155, 1, 8054); (8168, 8169, 1, 8160); (8170, 8171, 1, 8058);
    (8172, 8172, 1, 8165); (8184, 8185, 1, 8056); (8186, 8187, 1, 8060); (8188, 8188, 1, 8179); (8486, 8486, 1, 969);
    (8490, 8490, 1, 107); (8491, 8491, 1, 229); (8498, 8498, 1, 8526); (8544, 8559, 1, 8560); (8579, 8579, 1, 8580);
    (9398, 9423, 1, 9424); (11264, 11311, 1, 11312); (11360, 11360, 1, 11361); (11362, 11362, 1, 619); (11363, 11363, 1, 7549);
    (11364, 11364, 1, 637); (11367, 11371, 2, 11368); (11373, 11373, 1, 593); (11374, 11374, 1, 625); (11375, 11375, 1, 592);
    (11376, 11376, 1, 594); (11378, 11378, 1, 11379); (11381, 11381, 1, 11382); (11390, 11391, 1, 575); (11392, 11490, 2, 11393);
    (11499, 11501, 2, 11500); (11506, 11506, 1, 11507); (42560, 42604, 2, 42561); (42624, 42650, 2, 42625); (42786, 42798, 2, 42787);
    (42802, 42862, 2, 42803); (42873, 42875, 2, 42874); (42877, 42877, 1, 7545); (42878, 42886, 2, 42879); (42891, 42891, 1, 42892);
    (42893, 42893, 1, 613); (42896, 42898, 2, 42897); (42902, 42920, 2, 42903); (42922, 42922, 1, 614); (42923, 42923, 1, 604);
    (42924, 42924, 1, 609); (42925, 42925, 1, 620); (42926, 42926, 1, 618); (42928, 42928, 1, 670); (42929, 42929, 1, 647);
    (42930, 42930, 1, 669); (42931, 42931, 1, 43859); (42932, 42946, 2, 42933); (42948, 42948, 1, 42900); (42949, 42949, 1, 642);
    (42950, 42950, 1, 7566); (42951, 42953, 2, 42952); (42960, 42960, 1, 42961); (42966, 42968, 2, 42967); (42997, 42997, 1, 42998);
    (65313, 65338, 1, 65345); (66560, 66599, 1, 66600); (66736, 66771, 1, 66776); (66928, 66938, 1, 66967); (66940, 66954, 1, 66979);
    (66956, 66962, 1, 66995); (66964, 66965, 1, 67003); (68736, 68786, 1, 68800); (71840, 71871, 1, 71872); (93760, 93791, 1, 93792);
    (125184, 125217, 1, 125218) ]%N.

(** The property Cased. *)
Definition cased_table : list (N * N) :=
  [
    (65, 90); (97, 122); (170, 170); (181, 181); (186, 186); (192, 214); (216, 246);
    (248, 442); (444, 447); (452, 659); (661, 696); (704, 705); (736, 740); (837, 837);
    (880, 883); (886, 887); (890, 893); (895, 895); (902, 902); (904, 906); (908, 908);
    (910, 929); (931, 1013); (1015, 1153); (1162, 1327); (1329, 1366); (1376, 1416); (4256, 4293);
    (4295, 4295); (4301, 4301); (4304, 4346); (4349, 4351); (5024, 5109); (5112, 5117); (7296, 7304);
    (7312, 7354); (7357, 7359); (7424, 7615); (7680, 7957); (7960, 7965); (7968, 8005); (8008, 8013);
    (8016, 8023); (8025, 8025); (8027, 8027); (8029, 8029); (8031, 8061); (8064, 8116); (8118, 8124);
    (8126, 8126); (8130, 8132); (8134, 8140); (8144, 8147); (8150, 8155); (8160, 8172); (8178, 8180);
    (8182, 8188); (8305, 8305); (8319, 8319); (8336, 8348); (8450, 8450); (8455, 8455); (8458, 8467);
    (8469, 8469); (8473, 8477); (8484, 8484); (8486, 8486); (8488, 8488); (8490, 8493); (8495, 8500);
    (8505, 8505); (8508, 8511); (8517, 8521); (8526, 8526); (8544, 8575); (8579, 8580); (9398, 9449);
    (11264, 11492); (11499, 11502); (11506, 11507); (11520, 11557); (11559, 11559); (11565, 11565); (42560, 42605);
    (42624, 42653); (42786, 42887); (42891, 42894); (42896, 42954); (42960, 42961); (42963, 42963); (42965, 42969);
    (42997, 42998); (43000, 43002); (43824, 43866); (43868, 43880); (43888, 43967); (64256, 64262); (64275, 64279);
    (65313, 65338); (65345, 65370); (66560, 66639); (66736, 66771); (66776, 66811); (66928, 66938); (66940, 66954);
    (66956, 66962); (66964, 66965); (66967, 66977); (66979, 66993); (66995, 67001); (67003, 67004); (67456, 67456);
    (67459, 67461); (67463, 67504); (67506, 67514); (68736, 68786); (68800, 68850); (71840, 71903); (93760, 93823);
    (119808, 119892); (119894, 119964); (119966, 119967); (119970, 119970); (119973, 119974); (119977, 119980); (119982, 119993);
    (119995, 119995); (119997, 120003); (120005, 120069); (120071, 120074); (120077, 120084); (120086, 120092); (120094, 120121);
    (120123, 120126); (120128, 120132); (120134, 120134); (120138, 120144); (120146, 120485); (120488, 120512); (120514, 120538);
    (120540, 120570); (120572, 120596); (120598, 120628); (120630, 120654); (120656, 120686); (120688, 120712); (120714, 120744);
    (120746, 120770); (120772, 120779); (122624, 122633); (122635, 122654); (125184, 125251); (127280, 127305); (127312, 127337);
    (127344, 127369) ]%N.

(** The property Case_Ignorable. *)
Definition case_ignorable_table : list (N * N) :=
  [
    (39, 39); (46, 46); (58, 58); (94, 94); (96, 96); (168, 168); (173, 173);
    (175, 175); (180, 180); (183, 184); (688, 879); (884, 885); (890, 890); (900, 901);
    (903, 903); (1155, 1161); (1369, 1369); (1375, 1375); (1425, 1469); (1471, 1471); (1473, 1474);
    (1476, 1477); (1479, 1479); (1524, 1524); (1536, 1541); (1552, 1562); (1564, 1564); (1600, 1600);
    (1611, 1631); (1648, 1648); (1750, 1757); (1759, 1768); (1770, 1773); (1807, 1807); (1809, 1809);
    (1840, 1866); (1958, 1968); (2027, 2037); (2042, 2042); (2045, 2045); (2070, 2093); (2137, 2139);
    (2184, 2184); (2192, 2193); (2200, 2207); (2249, 2306); (2362, 2362); (2364, 2364); (2369, 2376);
    (2381, 2381); (2385, 2391); (2402, 2403); (2417, 2417); (2433, 2433); (2492, 2492); (2497, 2500);
    (2509, 2509); (2530, 2531); (2558, 2558); (2561, 2562); (2620, 2620); (2625, 2626); (2631, 2632);
    (2635, 2637); (2641, 2641); (2672, 2673); (2677, 2677); (2689, 2690); (2748, 2748); (2753, 2757);
    (2759, 2760); (2765, 2765); (2786, 2787); (2810, 2815); (2817, 2817); (2876, 2876); (2879, 2879);
    (2881, 2884); (2893, 2893); (2901, 2902); (2914, 2915); (2946, 2946); (3008, 3008); (3021, 3021);
    (3072, 3072); (3076, 3076); (3132, 3132); (3134, 3136); (3142, 3144); (3146, 3149); (3157, 3158);
    (3170, 3171); (3201, 3201); (3260, 3260); (3263, 3263); (3270, 3270); (3276, 3277); (3298, 3299);
    (3328, 3329); (3387, 3388); (3393, 3396); (3405, 3405); (3426, 3427); (3457, 3457); (3530, 3530);
    (3538, 3540); (3542, 3542); (3633, 3633); (3636, 3642); (3654, 3662); (3761, 3761); (3764, 3772);
    (3782, 3782); (3784, 3789); (3864, 3865); (3893, 3893); (3895, 3895); (3897, 3897); (3953, 3966);
    (3968, 3972); (3974, 3975); (3981, 3991); (3993, 4028); (4038, 4038); (4141, 4144); (4146, 4151);
    (4153, 4154); (4157, 4158); (4184, 4185); (4190, 4192); (4209, 4212); (4226, 4226); (4229, 4230);
    (4237, 4237); (4253, 4253); (4348, 4348); (4957, 4959); (5906, 5908); (5938, 5939); (5970, 5971);
    (6002, 6003); (6068, 6069); (6071, 6077); (6086, 6086); (6089, 6099); (6103, 6103); (6109, 6109);
    (6155, 6159); (6211, 6211); (6277, 6278); (6313, 6313); (6432, 6434); (6439, 6440); (6450, 6450);
    (6457, 6459); (6679, 6680); (6683, 6683); (6742, 6742); (6744, 6750); (6752, 6752); (6754, 6754);
    (6757, 6764); (6771, 6780); (6783, 6783); (6823, 6823); (6832, 6862); (6912, 6915); (6964, 6964);
    (6966, 6970); (6972, 6972); (6978, 6978); (7019, 7027); (7040, 7041); (7074, 7077); (7080, 7081);
    (7083, 7085); (7142, 7142); (7144, 7145); (7149, 7149); (7151, 7153); (7212, 7219); (7222, 7223);
    (7288, 7293); (7376, 7378); (7380, 7392); (7394, 7400); (7405, 7405); (7412, 7412); (7416, 7417);
    (7468, 7530); (7544, 7544); (7579, 7679); (8125, 8125); (8127, 8129); (8141, 8143); (8157, 8159);
    (8173, 8175); (8189, 8190); (8203, 8207); (8216, 8217); (8228, 8228); (8231, 8231); (8234, 8238);
    (8288, 8292); (8294, 8303); (8305, 8305); (8319, 8319); (8336, 8348); (8400, 8432); (11388, 11389);
    (11503, 11505); (11631, 11631); (11647, 11647); (11744, 11775); (11823, 11823); (12293, 12293); (12330, 12333);
    (12337, 12341); (12347, 12347); (12441, 12446); (12540, 12542); (40981, 40981); (42232, 42237); (42508, 42508);
    (42607, 42610); (42612, 42621); (42623, 42623); (42652, 42655); (42736, 42737); (42752, 42785); (42864, 42864);
    (42888, 42890); (42994, 42996); (43000, 43001); (43010, 43010); (43014, 43014); (43019, 43019); (43045, 43046);
    (43052, 43052); (43204, 43205); (43232, 43249); (43263, 43263); (43302, 43309); (43335, 43345); (43392, 43394);
    (43443, 43443); (43446, 43449); (43452, 43453); (43471, 43471); (43493, 43494); (43561, 43566); (43569, 43570);
    (43573, 43574); (43587, 43587); (43596, 43596); (43632, 43632); (43644, 43644); (43696, 43696); (43698, 43700);
    (43703, 43704); (43710, 43711); (43713, 43713); (43741, 43741); (43756, 43757); (43763, 43764); (43766, 43766);
    (43867, 43871); (43881, 43883); (44005, 44005); (44008, 44008); (44013, 44013); (64286, 64286); (64434, 64450);
    (65024, 65039); (65043, 65043); (65056, 65071); (65106, 65106); (65109, 65109); (65279, 65279); (65287, 65287);
    (65294, 65294); (65306, 65306); (65342, 65342); (65344, 65344); (65392, 65392); (65438, 65439); (65507, 65507);
    (65529, 65531); (66045, 66045); (66272, 66272); (66422, 66426); (67456, 67461); (67463, 67504); (67506, 67514);
    (68097, 68099); (68101, 68102); (68108, 68111); (68152, 68154); (68159, 68159); (68325, 68326); (68900, 68903);
    (69291, 69292); (69446, 69456); (69506, 69509); (69633, 69633); (69688, 69702); (69744, 69744); (69747, 69748);
    (69759, 69761); (69811, 69814); (69817, 69818); (69821, 69821); (69826, 69826); (69837, 69837); (69888, 69890);
    (69927, 69931); (69933, 69940); (70003, 70003); (70016, 70017); (70070, 70078); (70089, 70092); (70095, 70095);
    (70191, 70193); (70196, 70196); (70198, 70199); (70206, 70206); (70367, 70367); (70371, 70378); (70400, 70401);
    (70459, 70460); (70464, 70464); (70502, 70508); (70512, 70516); (70712, 70719); (70722, 70724); (70726, 70726);
    (70750, 70750); (70835, 70840); (70842, 70842); (70847, 70848); (70850, 70851); (71090, 71093); (71100, 71101);
    (71103, 71104); (71132, 71133); (71219, 71226); (71229, 71229); (71231, 71232); (71339, 71339); (71341, 71341);
    (71344, 71349); (71351, 71351); (71453, 71455); (71458, 71461); (71463, 71467); (71727, 71735); (71737, 71738);
    (71995, 71996); (71998, 71998); (72003, 72003); (72148, 72151); (72154, 72155); (72160, 72160); (72193, 72202);
    (72243, 72248); (72251, 72254); (72263, 72263); (72273, 72278); (72281, 72283); (72330, 72342); (72344, 72345);
    (72752, 72758); (72760, 72765); (72767, 72767); (72850, 72871); (72874, 72880); (72882, 72883); (72885, 72886);
    (73009, 73014); (73018, 73018); (73020, 73021); (73023, 73029); (73031, 73031); (73104, 73105); (73109, 73109);
    (73111, 73111); (73459, 73460); (78896, 78904); (92912, 92916); (92976, 92982); (92992, 92995); (94031, 94031);
    (94095, 94111); (94176, 94177); (94179, 94180); (110576, 110579); (110581, 110587); (110589, 110590); (113821, 113822);
    (113824, 113827); (118528, 118573); (118576, 118598); (119143, 119145); (119155, 119170); (119173, 119179); (119210, 119213);
    (119362, 119364); (121344, 121398); (121403, 121452); (121461, 121461); (121476, 121476); (121499, 121503); (121505, 121519);
    (122880, 122886); (122888, 122904); (122907, 122913); (122915, 122916); (122918, 122922); (123184, 123197); (123566, 123566);
    (123628, 123631); (125136, 125142); (125252, 125259); (127995, 127999); (917505, 917505); (917536, 917631); (917760, 917999) ]%N.

Definition has (table : list (N * N)) (g : string) : bool :=
  match code_point g with
  | Some n => in_ranges n table
  | None => false
  end.

Definition is_space_char : string -> bool := has space_table.
Definition cased : string -> bool := has cased_table.
Definition case_ignorable : string -> bool := has case_ignorable_table.

(** The value of a decimal digit. *)
Definition decimal_value (g : string) : option N :=
  match code_point g with
  | Some n =>
      match find (fun '(lo, hi) => (lo <=? n)%N && (n <=? hi)%N) decimal_table with
      | Some (lo, _) => Some ((n - lo) mod 10)%N
      | None => None
      end
  | None => None
  end.

Definition is_decimal_char (g : string) : bool :=
  match decimal_value g with
  | Some _ => true
  | None => false
  end.

(** *** str.strip *)

Fixpoint lstrip_chars (l : list string) : list string :=
  match l with
  | [] => []
  | g :: l' => if is_space_char g then lstrip_chars l' else l
  end.

Fixpoint rstrip_chars (l : list string) : list string :=
  match l with
  | [] => []
  | g :: l' =>
      match rstrip_chars l' with
      | [] => if is_space_char g then [] else [g]
      | r => g :: r
      end
  end.

(** [s.strip()] *)
Definition strip (s : string) : string :=
  concat_strings (rstrip_chars (lstrip_chars (chars s))).

(** *** str.lower *)

(** The lower-case mapping of a code point that has one: one code point
    from the table, two for the dotted capital I (U+0130). *)
Definition lower_map (n : N) : option (list N) :=
  if (n =? 304)%N then Some [105; 775]%N
  else
    match find (fun '(lo, hi, step, _) =>
                  (lo <=? n)%N && (n <=? hi)%N && ((n - lo) mod step =? 0)%N) lower_table with
    | Some (lo, _, _, to) => Some [to + (n - lo)]%N
    | None => None
    end.

Definition lower_char (g : string) : list string :=
  match code_point g with
  | Some n =>
      match lower_map n with
      | Some l => map utf8 l
      | None => [g]
      end
  | None => [g]
  end.

(** Is a cased letter next, the case-ignorable characters skipped? *)
Fixpoint cased_ahead (l : list string) : bool :=
  match l with
  | [] => false
  | g :: l' => if case_ignorable g then cased_ahead l' else cased g
  end.

Definition is_capital_sigma (g : string) : bool :=
  match code_point g with
  | Some n => (n =? 931)%N
  | None => false
  end.

(** What one character becomes. The capital sigma (U+03A3) becomes the final
    sigma (U+03C2) when a cased letter comes [before] it and none [ahead],
    case-ignorable characters skipped on both sides, and the small sigma
    (U+03C3) otherwise. *)
Definition lower_one (before ahead : bool) (g : string) : list string :=
  if is_capital_sigma g then [utf8 (if before && negb ahead then 962 else 963)%N]
  else lower_char g.

(** The loop of [str.lower]. *)
Fixpoint lower_chars (before : bool) (l : list string) : list string :=
  match l with
  | [] => []
  | g :: l' =>
      (lower_one before (cased_ahead l') g
         ++ lower_chars (if case_ignorable g then before else cased g) l')%list
  end.

(** [s.lower()] *)
Definition lower (s : string) : string :=
  concat_strings (lower_chars false (chars s)).


(** *** The text a number is read from *)

(** What [float] and [int] make of a string before they read it: the ASCII
    characters stay, a white-space character becomes a space and a decimal
    digit its ASCII digit; at anything else the text is cut and ends with a
    question mark. *)
Fixpoint ascii_number (l : list string) : string :=
  match l with
  | [] => EmptyString
  | g :: l' =>
      match g with
      | String c EmptyString =>
          if is_ascii c then String c (ascii_number l') else "?"
      | _ =>
          if is_space_char g then String " " (ascii_number l')
          else match decimal_value g with
               | Some d => String (ascii_of_N (48 + d)) (ascii_number l')
               | None => "?"
               end
      end
  end.

(** The white space of the C locale, which [float] and [int] skip around
    the number: TAB to CR and the space. *)
Definition is_c_space (c : ascii) : bool :=
  let n := N_of_ascii c in ((9 <=? n)%N && (n <=? 13)%N) || (n =? 32)%N.

Fixpoint c_lstrip (s : string) : string :=
  match s with
  | EmptyString => EmptyString
  | String c s' => if is_c_space c then c_lstrip s' else s
  end.

Fixpoint c_rstrip (s : string) : string :=
  match s with
  | EmptyString => EmptyString
  | String c s' =>
      match c_rstrip s' with
      | EmptyString => if is_c_space c then EmptyString else String c EmptyString
      | r => String c r
      end
  end.

Definition number_text (s : string) : string :=
  c_rstrip (c_lstrip (ascii_number (chars s))).

(** *** The other string methods the code calls *)

(** [s.replace(",", ".")] *)
Definition replace_comma (s : string) : string :=
  map_chars (fun c => if Ascii.eqb c "," then "."%char else c) s.

(** Splitting at every separator character: the pieces between them, never
    the empty list. *)
Fixpoint split_on (sep : ascii -> bool) (s : string) : list string :=
  match s with
  | EmptyString => [EmptyString]
  | String c s' =>
      if sep c then EmptyString :: split_on sep s'
      else match split_on sep s' with
           | p :: ps => String c p :: ps
           | [] => [String c EmptyString]
           end
  end.

(** [s.split(",")] *)
Definition split_comma (s : string) : list string :=
  split_on (fun c => Ascii.eqb c ",") s.

(** [re.split(r"[\,;]", s)] *)
Definition split_comma_semicolon (s : string) : list string :=
  split_on (fun c => Ascii.eqb c "," || Ascii.eqb c ";") s.

(** [len(s)]: the number of code points of a UTF-8 string, that is of its
    bytes that are not continuation bytes. *)
Fixpoint len (s : string) : nat :=
  match s with
  | EmptyString => O
  | String c s' =>
      let n := N_of_ascii c in
      if (128 <=? n)%N && (n <? 192)%N then len s' else S (len s')
  end.

(** [sep.join(parts)] *)
Fixpoint join (sep : string) (parts : list string) : string :=
  match parts with
  | [] => EmptyString
  | [p] => p
  | p :: ps => p ++ sep ++ join sep ps
  end.

(** The one-byte line boundaries of [str.splitlines]: LF, VT, FF, CR, FS, GS
    and RS. *)
Definition is_linebreak (c : ascii) : bool :=
  let n := N_of_ascii c in
  ((10 <=? n)%N && (n <=? 13)%N) || ((28 <=? n)%N && (n <=? 30)%N).

(** [s.splitlines()]: the lines without their boundaries; CR LF is one
    boundary, and so are NEL (C2 85) and the line and paragraph separators
    (E2 80 A8, E2 80 A9) in their UTF-8 form; no empty last line. *)
Fixpoint splitlines (s : string) : list string :=
  match s with
  | EmptyString => []
  | String c r1 =>
      let keep :=
        match splitlines r1 with
        | [] => [String c EmptyString]
        | l :: ls => String c l :: ls
        end in
      if is_linebreak c then
        match r1 with
        | String d r2 =>
            if (N_of_ascii c =? 13)%N && (N_of_ascii d =? 10)%N
            then EmptyString :: splitlines r2
            else EmptyString :: splitlines r1
        | EmptyString => [EmptyString]
        end
      else if (N_of_ascii c =? 194)%N then
        match r1 with
        | String d r2 =>
            if (N_of_ascii d =? 133)%N then EmptyString :: splitlines r2 else keep
        | EmptyString => keep
        end
      else if (N_of_ascii c =? 226)%N then
        match r1 with
        | String d (String e r3) =>
            if (N_of_ascii d =? 128)%N && ((N_of_ascii e =? 168)%N || (N_of_ascii e =? 169)%N)
            then EmptyString :: splitlines r3 else keep
        | _ => keep
        end
      else keep
  end.

End PyStr.

(** ** parser_utils.py *)

Module ParserUtils.
Import PyStr.

(** Prices in thousandths of a euro: [1523] stands for the float 1.523. *)
Definition price := Z.

(** A decimal literal read by [float]: the number [mant * 10 ^ expo]. *)
Record decimal := Decimal { mant : Z; expo : Z }.

(** digitpart ::= digit (["_"] digit)*  -- the longest one at the head of
    [s]; returns its digits (separators dropped) and the rest. *)
Fixpoint digitpart (s : string) : string * string :=
  match s with
  | EmptyString => (EmptyString, EmptyString)
  | String c s' =>
      if is_digit c then
        match s' with
        | String u (String d _ as s2) =>
            if Ascii.eqb u "_" && is_digit d
            then let '(ds, r) := digitpart s2 in (String c ds, r)
            else let '(ds, r) := digitpart s' in (String c ds, r)
        | _ => let '(ds, r) := digitpart s' in (String c ds, r)
        end
      else (EmptyString, s)
  end.

Fixpoint digits_value (acc : Z) (ds : string) : Z :=
  match ds with
  | EmptyString => acc
  | String c ds' => digits_value (10 * acc + digit_val c) ds'
  end.

(** sign ::= "+" | "-" *)
Definition take_sign (s : string) : bool * string :=
  match s with
  | String "+" r => (false, r)
  | String "-" r => (true, r)
  | _ => (false, s)
  end.

(** exponent ::= ("e" | "E") [sign] digitpart; [None] when an exponent
    is started and not well formed. *)
Definition take_exponent (s : string) : option (Z * string) :=
  match s with
  | String c r =>
      if Ascii.eqb c "e" || Ascii.eqb c "E" then
        let '(neg, r1) := take_sign r in
        let '(ed, r2) := digitpart r1 in
        match ed with
        | EmptyString => None
        | _ => Some (if neg : bool then - digits_value 0 ed else digits_value 0 ed, r2)
        end
      else Some (0, s)
  | EmptyString => Some (0, s)
  end.

(** The number a number text spells: [None] stands for ValueError.
    floatvalue ::= [sign] ([digitpart] "." digitpart | digitpart ["."]) [exponent] *)
Definition float_of_text (t : string) : option decimal :=
  let '(neg, r0) := take_sign t in
  let '(ip, r1) := digitpart r0 in
  let '(fp, r2) :=
    match r1 with
    | String "." r => digitpart r
    | _ => (EmptyString, r1)
    end in
  match ip, fp with
  | EmptyString, EmptyString => None
  | _, _ =>
      match take_exponent r2 with
      | Some (e, EmptyString) =>
          let m := digits_value 0 (ip ++ fp) in
          Some (Decimal (if neg : bool then - m else m)
                        (e - Z.of_nat (String.length fp)))
      | _ => None
      end
  end.

(** [float(s)] for a string. *)
Definition float_of_string (s : string) : option decimal :=
  float_of_text (number_text s).



(** Nearest integer to [m / d], ties to even ([0 < d]). *)
Definition round_half_even (m d : Z) : Z :=
  let q := m / d in
  let r := m mod d in
  if 2 * r <? d then q
  else if d <? 2 * r then q + 1
  else if Z.even q then q else q + 1.

(** [round(x, 3)], the result in thousandths. *)
Definition round3 (x : decimal) : price :=
  let k := expo x + 3 in
  if 0 <=? k then mant x * 10 ^ k else round_half_even (mant x) (10 ^ (- k)).

(** [parse_eur]: the body of the [try] raises exactly when [float] does, and
    the handler returns [None]. *)
Definition parse_eur (s : string) : option price :=
  match float_of_string (strip (replace_comma s)) with
  | Some x => Some (round3 x)
  | None => None
  end.

(** The shape of the tokens the adapters' price patterns capture: decimal
    digits, followed or not by a dot and decimal digits. The patterns written
    with [[0-9]] capture ASCII digits, the ones written with [[\d]] the
    decimal digits of any script; checked here, guaranteed there by the
    pattern. *)
Fixpoint span_decimals (l : list string) : list string * list string :=
  match l with
  | [] => ([], [])
  | g :: l' =>
      if is_decimal_char g then let '(ds, r) := span_decimals l' in (g :: ds, r)
      else ([], l)
  end.

Definition decimal_token (t : string) : bool :=
  match span_decimals (chars t) with
  | (_ :: _, []) => true
  | (_ :: _, dot :: (_ :: _) as fp) => String.eqb dot "." && forallb is_decimal_char fp
  | _ => false
  end.

Definition nonempty (s : string) : bool :=
  match s with
  | EmptyString => false
  | _ => true
  end.

(** The decimal digits of a number, most significant first. *)
Fixpoint string_of_uint (d : Decimal.uint) : string :=
  match d with
  | Decimal.Nil => EmptyString
  | Decimal.D0 d => String "0" (string_of_uint d)
  | Decimal.D1 d => String "1" (string_of_uint d)
  | Decimal.D2 d => String "2" (string_of_uint d)
  | Decimal.D3 d => String "3" (string_of_uint d)
  | Decimal.D4 d => String "4" (string_of_uint d)
  | Decimal.D5 d => String "5" (string_of_uint d)
  | Decimal.D6 d => String "6" (string_of_uint d)
  | Decimal.D7 d => String "7" (string_of_uint d)
  | Decimal.D8 d => String "8" (string_of_uint d)
  | Decimal.D9 d => String "9" (string_of_uint d)
  end.

Definition digit_char (n : Z) : ascii := ascii_of_N (Z.to_N (48 + n)).

(** The format [.3f] of a price: sign, integer part, a dot and the three
    digits of the thousandths. *)
Definition format_3f (x : price) : string :=
  let a := Z.abs x in
  let f := a mod 1000 in
  (if x <? 0 then "-" else EmptyString) ++
  string_of_uint (N.to_uint (Z.to_N (a / 1000))) ++ "." ++
  String (digit_char (f / 100))
    (String (digit_char (f / 10 mod 10)) (String (digit_char (f mod 10)) EmptyString)).

Definition format_price (x : option price) : string :=
  match x with
  | None => "-"
  | Some x => format_3f x ++ " € / l"
  end.

(** One round of the loop of [chunk_text] on [(buf, acc)]. *)
Definition chunk_step (limit : Z) (st : list string * string) (line : string)
  : list string * string :=
  let '(buf, acc) := st in
  let '(buf, acc) :=
    if limit <? Z.of_nat (len acc) + Z.of_nat (len line) + 1
    then ((buf ++ [acc])%list, EmptyString)
    else (buf, acc) in
  (buf, acc ++ line ++ String "010" EmptyString).

(** The loop and the final [if acc: buf.append(acc)], from the lines. *)
Definition chunk_lines (lines : list string) (limit : Z) : list string :=
  let '(buf, acc) := fold_left (chunk_step limit) lines ([], EmptyString) in
  if nonempty acc then (buf ++ [acc])%list else buf.

Definition chunk_text (text : string) (limit : Z) : list string :=
  chunk_lines (splitlines text) limit.

End ParserUtils.


(** ** The object store and the small monad of the pipeline *)

Module Store.
Import ParserUtils.

Definition loc := nat.

(** A [prices] dict: fuel key to value; the value [None] is Python's None
    (what [parse_eur] hands back for a token it cannot read). *)
Abbreviation dict := (gmap string (option price)).

(** The dict objects alive during one request; [next] is the first location
    never handed out. *)
Record heap := Heap { objs : gmap loc dict; next : loc }.

Definition empty_heap : heap := Heap ∅ O.

Definition deref (h : heap) (l : loc) : dict := default ∅ (objs h !! l).

(** [d.get(k)]: None for a missing key and for a key bound to None. *)
Definition dict_get (d : dict) (k : string) : option price :=
  match d !! k with
  | Some v => v
  | None => None
  end.

Inductive exn := TypeError | ValueError | ClientError | TimeoutError.

Inductive outcome (A : Type) :=
| Returned (a : A)
| Raised (e : exn).
Arguments Returned {A} a.
Arguments Raised {A} e.

(** Computations that read and update the store and may raise. *)
Definition M (A : Type) : Type := heap -> outcome A * heap.

Definition ret {A} (a : A) : M A := fun h => (Returned a, h).

Definition bind {A B} (m : M A) (f : A -> M B) : M B :=
  fun h =>
    match m h with
    | (Returned a, h') => f a h'
    | (Raised e, h') => (Raised e, h')
    end.

Definition raise {A} (e : exn) : M A := fun h => (Raised e, h).

(** Running a computation the way [asyncio.gather(..., return_exceptions=True)]
    runs a task: an exception becomes a value. *)
Definition attempt {A} (m : M A) : M (outcome A) :=
  fun h => let '(r, h') := m h in (Returned r, h').

Definition lift {A} (r : outcome A) : M A := fun h => (r, h).

(** A new dict object with the given content ([{...}] and [d.copy()]). *)
Definition new_dict (d : dict) : M loc :=
  fun h => (Returned (next h), Heap (<[next h := d]> (objs h)) (S (next h))).

Definition read (l : loc) : M dict := fun h => (Returned (deref h l), h).

Definition write (l : loc) (d : dict) : M unit :=
  fun h => (Returned tt, Heap (<[l := d]> (objs h)) (next h)).

Fixpoint fold_m {A B} (f : A -> B -> M A) (a : A) (l : list B) : M A :=
  match l with
  | [] => ret a
  | b :: l' => bind (f a b) (fun a' => fold_m f a' l')
  end.

Fixpoint map_m {A B} (f : A -> M B) (l : list A) : M (list B) :=
  match l with
  | [] => ret []
  | a :: l' => bind (f a) (fun b => bind (map_m f l') (fun bs => ret (b :: bs)))
  end.

End Store.

Notation "x <-- m ;; k" := (Store.bind m (fun x => k))
  (at level 100, m at next level, right associativity, only parsing).
Notation "m ;;; k" := (Store.bind m (fun _ => k))
  (at level 100, right associativity, only parsing).

(** ** fuel_sources.py *)

Module FuelSources.
Import PyStr ParserUtils Store.

Definition SUPPORTED_FUELS : list string := ["a95"; "a98"; "diesel"; "lpg"].

(** The table in its source order, which is the order [.items()] yields. *)
Definition FUEL_ALIASES : list (string * list string) :=
  [ ("a95", ["a95"; "95"; "95e"; "95miles"; "futura 95"; "a-95"; "eurosuper 95"]);
    ("a98", ["a98"; "98"; "98e"; "98miles"; "futura 98"; "a-98"; "eurosuper 98"]);
    ("diesel", ["diesel"; "d"; "dīzelis"; "d-miles"; "dmiles"; "futura d";
                "miles diesel"; "dīzeļdegviela"]);
    ("lpg", ["lpg"; "autogāze"; "auto gāze"; "autogas"; "propāns-butāns"]) ].

(** [s in aliases] *)
Definition mem (s : string) (l : list string) : bool := existsb (String.eqb s) l.

(** [for key, aliases in table: if s in aliases: return key] *)
Fixpoint first_alias (s : string) (table : list (string * list string)) : option string :=
  match table with
  | [] => None
  | (key, aliases) :: rest => if mem s aliases then Some key else first_alias s rest
  end.

Definition normalize_fuel_type (s : option string) : option string :=
  let s := lower (strip (default EmptyString s)) in
  match first_alias s FUEL_ALIASES with
  | Some key => Some key
  | None =>
      if mem s ["95e"; "95m"; "a95e"] then Some "a95"
      else if mem s ["98e"; "98m"; "a98e"] then Some "a98"
      else if mem s SUPPORTED_FUELS then Some s else None
  end.

(** The station dict of the class docstring; [prices] is a reference. *)
Record station := Station {
  name : string;
  address : string;
  prices : loc;
  source : string;
  timestamp : string
}.

(** What [await self._get(url)] gave, seen through the scans the adapter runs
    on the page text. *)
Inductive fetched (A : Type) :=
| GetFailed (e : exn)
| Page (scan : A).
Arguments GetFailed {A} e.
Arguments Page {A} scan.

(** *** gas.didnt.work *)

(** One match of the listing pattern: groups 1 and 2, and group 3 when the
    date took part in the match. *)
Record waze_match := WazeMatch {
  m_full : string;
  m_price : string;
  m_date : option string
}.

Definition waze_station (m : waze_match) : M station :=
  let full := strip (m_full m) in
  let price := parse_eur (m_price m) in
  let date := default EmptyString (m_date m) in
  let parts := map strip (split_comma full) in
  let name := hd EmptyString parts in
  let address := if (1 <? length parts)%nat then join ", " (tl parts) else EmptyString in
  l <-- new_dict (<["diesel" := price]> (<["a95" := price]> ∅)) ;;
  ret (Station name address l "gas.didnt.work" date).

Definition fetch_gas_didnt_work (page : fetched (list waze_match)) : M (list station) :=
  match page with
  | GetFailed _ => ret []
  | Page matches => map_m waze_station matches
  end.

(** *** The loop the four chain adapters end with:
    [for addr in addrs: stations.append({..., "prices": prices.copy(), ...})] *)
Definition chain_stations (nm src : string) (prices : dict) (addrs : list string)
  : M (list station) :=
  map_m (fun addr => l <-- new_dict prices ;; ret (Station nm addr l src EmptyString)) addrs.

(** [prices[key] = parse_eur(m.group(1))] under [if m:] *)
Definition grab (found : option string) (key : string) (prices : dict) : dict :=
  match found with
  | Some tok => <[key := parse_eur tok]> prices
  | None => prices
  end.

(** [[a.strip() for a in pieces if len(a.strip()) > 3]] *)
Definition long_pieces (pieces : list string) : list string :=
  map strip (filter (fun a => (3 < len (strip a))%nat) pieces).

(** *** Circle K *)

(** The tokens [grab] finds after each label (None: label or token missing)
    and group 1 of the address match. *)
Record circlek_scan := CirclekScan {
  ck_95 : option string;
  ck_98 : option string;
  ck_d : option string;
  ck_lpg : option string;
  ck_addrs : option string
}.

Definition fetch_circlek (page : fetched circlek_scan) : M (list station) :=
  match page with
  | GetFailed _ => ret []
  | Page sc =>
      let prices := grab (ck_lpg sc) "lpg" (grab (ck_d sc) "diesel"
                      (grab (ck_98 sc) "a98" (grab (ck_95 sc) "a95" ∅))) in
      let addresses :=
        match ck_addrs sc with
        | Some addrs => long_pieces (split_comma addrs)
        | None => []
        end in
      chain_stations "Circle K" "circlek" prices (firstn 20 addresses)
  end.

(** *** Neste *)

Record neste_scan := NesteScan {
  n_95 : option string;
  n_98 : option string;
  n_d : option string;
  n_addrs : option string
}.

Definition fetch_neste (page : fetched neste_scan) : M (list station) :=
  match page with
  | GetFailed _ => ret []
  | Page sc =>
      let prices := grab (n_d sc) "diesel" (grab (n_98 sc) "a98" (grab (n_95 sc) "a95" ∅)) in
      let addr_block :=
        match n_addrs sc with
        | Some addr_text => long_pieces (split_comma_semicolon addr_text)
        | None => []
        end in
      chain_stations "Neste" "neste" prices (firstn 20 addr_block)
  end.

(** *** Virši *)

Record virsi_scan := VirsiScan {
  v_95 : option string;
  v_98 : option string;
  v_d : option string;
  v_lpg : option string;
  v_addrs : list string
}.

Definition fetch_virsi (page : fetched virsi_scan) : M (list station) :=
  match page with
  | GetFailed _ => ret []
  | Page sc =>
      let prices := grab (v_lpg sc) "lpg" (grab (v_d sc) "diesel"
                      (grab (v_98 sc) "a98" (grab (v_95 sc) "a95" ∅))) in
      chain_stations "Virši" "virsi" prices (firstn 10 (v_addrs sc))
  end.

(** *** Viada *)

(** Group 1 of every price match and group 0 of every address match. *)
Record viada_scan := ViadaScan {
  eur_tokens : list string;
  addr_matches : list string
}.

(** [key not in prices or val < prices[key]]; comparing with None raises. *)
Definition absent_or_lower (key : string) (val : price) (prices : dict) : outcome bool :=
  match prices !! key with
  | None => Returned true
  | Some (Some old) => Returned (val <? old)
  | Some None => Raised TypeError
  end.

(** The body of [for m in re.finditer(...)] *)
Definition viada_token (prices : dict) (tok : string) : outcome dict :=
  match parse_eur tok with
  | None => Raised TypeError
  | Some val =>
      if val <? 1000 then
        match absent_or_lower "lpg" val prices with
        | Raised e => Raised e
        | Returned true => Returned (<["lpg" := Some val]> prices)
        | Returned false => Returned (<["lpg" := default None (prices !! "lpg")]> prices)
        end
      else
        match absent_or_lower "a95" val prices with
        | Raised e => Raised e
        | Returned b95 =>
            let prices := if b95 then <["a95" := Some val]> prices else prices in
            match absent_or_lower "diesel" val prices with
            | Raised e => Raised e
            | Returned bd =>
                Returned (if bd then <["diesel" := Some val]> prices else prices)
            end
        end
  end.

Fixpoint viada_prices (prices : dict) (toks : list string) : outcome dict :=
  match toks with
  | [] => Returned prices
  | tok :: rest =>
      match viada_token prices tok with
      | Returned prices' => viada_prices prices' rest
      | Raised e => Raised e
      end
  end.

Definition fetch_viada (page : fetched viada_scan) : M (list station) :=
  match page with
  | GetFailed _ => ret []
  | Page sc =>
      prices <-- lift (viada_prices ∅ (eur_tokens sc)) ;;
      chain_stations "Viada" "viada" prices (firstn 20 (addr_matches sc))
  end.

(** *** fetch_all *)

Definition canonical_key (st : station) : string * string :=
  (lower (strip (name st)), lower (strip (address st))).

(** [uniq]: a dict keeps its keys in insertion order. *)
Abbreviation uniq_map := (list ((string * string) * station)).

Fixpoint uniq_get (key : string * string) (uniq : uniq_map) : option station :=
  match uniq with
  | [] => None
  | (k, st) :: rest => if bool_decide (k = key) then Some st else uniq_get key rest
  end.

(** One round of [for k, v in st["prices"].items()], on the content of the
    dict being updated. *)
Definition merge_item (k : string) (v : option price) (merged : dict) : dict :=
  match v with
  | None => merged
  | Some v =>
      match dict_get merged k with
      | None => <[k := Some v]> merged
      | Some old => if v <? old then <[k := Some v]> merged else merged
      end
  end.

Definition merge_prices (existing incoming : dict) : dict :=
  map_fold merge_item existing incoming.

(** The body of [for st in stations] *)
Definition dedup_step (uniq : uniq_map) (st : station) : M uniq_map :=
  let key := canonical_key st in
  match uniq_get key uniq with
  | Some first =>
      incoming <-- read (prices st) ;;
      existing <-- read (prices first) ;;
      write (prices first) (merge_prices existing incoming) ;;;
      ret uniq
  | None => ret (uniq ++ [(key, st)])%list
  end.

Definition dedup (stations : list station) : M (list station) :=
  uniq <-- fold_m dedup_step [] stations ;;
  ret (map snd uniq).

(** [stations.extend(res)] for every result that is not an exception. *)
Definition collect (results : list (outcome (list station))) : list station :=
  flat_map (fun res => match res with Returned l => l | Raised _ => [] end) results.

Definition merge_results (results : list (outcome (list station))) : M (list station) :=
  dedup (collect results).

Record pages := Pages {
  p_gas : fetched (list waze_match);
  p_circlek : fetched circlek_scan;
  p_neste : fetched neste_scan;
  p_virsi : fetched virsi_scan;
  p_viada : fetched viada_scan
}.

Definition gather (pg : pages) : M (list (outcome (list station))) :=
  r1 <-- attempt (fetch_gas_didnt_work (p_gas pg)) ;;
  r2 <-- attempt (fetch_circlek (p_circlek pg)) ;;
  r3 <-- attempt (fetch_neste (p_neste pg)) ;;
  r4 <-- attempt (fetch_virsi (p_virsi pg)) ;;
  r5 <-- attempt (fetch_viada (p_viada pg)) ;;
  ret [r1; r2; r3; r4; r5].

Definition fetch_all (pg : pages) : M (list station) :=
  results <-- gather pg ;;
  merge_results results.

End FuelSources.

(** ** main.py *)

Module Main.
Import PyStr ParserUtils Store FuelSources.

Abbreviation row := (price * station)%type.

(** The loop that fills [rows]: a station without a price for [fuel] is
    skipped. *)
Definition rows_of (h : heap) (stations : list station) (fuel : string) : list row :=
  omap (fun st =>
          match dict_get (deref h (prices st)) fuel with
          | Some price => Some (price, st)
          | None => None
          end) stations.

(** [rows.sort(key=lambda x: x[0])]: the sort of the language is stable and
    compares keys with [<] only; so does this insertion sort. *)
Fixpoint insert_row (r : row) (l : list row) : list row :=
  match l with
  | [] => [r]
  | r' :: l' => if fst r' <? fst r then r' :: insert_row r l' else r :: l
  end.

Fixpoint sort_rows (l : list row) : list row :=
  match l with
  | [] => []
  | r :: l' => insert_row r (sort_rows l')
  end.

(** [rows[:n]] after the sort. *)
Definition top_rows (h : heap) (stations : list station) (fuel : string) (n : nat)
  : list row :=
  firstn n (sort_rows (rows_of h stations fuel)).




End Main.

Import PyStr ParserUtils Store FuelSources Main.

Definition ex_pages : pages :=
  Pages (Page [WazeMatch "Viada Valgales Valgales iela, 1, Riga, Latvia" "1.37" (Some "2025-11-08");
               WazeMatch " viada valgales valgales iela , 1,riga, latvia" "1.30" None])
        (Page (CirclekScan (Some "1.514") None (Some "1.499") None (Some "Krasta iela 1, ab, Brivibas 10")))
        (GetFailed ClientError)
        (Page (VirsiScan None None None (Some "0.735") ["Krasta 5"]))
        (Page (ViadaScan ["1.522"; "0.735"; "1.499"; "0.000"] ["Rīga Krasta iela 1"; "Jelgava"])).

(** Two observations of one station, from two sources, and a store that
    holds their dicts: [{a95: 1.50, lpg: None}] and [{a95: 1.45, diesel: 1.40}]. *)
Definition ex_first : station :=
  Station "Viada" "Riga, Krasta 1" 0%nat "viada" EmptyString.

Definition ex_second : station :=
  Station " viada " "riga, krasta 1 " 1%nat "gas.didnt.work" "2025-11-08".

(** A record of another station. *)
Definition ex_third : station :=
  Station "Neste" "Brīvības iela 10" 2%nat "neste" EmptyString.

(** A record of the chain of [ex_first] at another address. *)
Definition ex_first_other_street : station :=
  Station "Viada" "Rīga Maskavas iela 5" 3%nat "viada" EmptyString.

Definition ex_heap : heap :=
  Heap (<[1%nat := <["a95" := Some 1450]> (<["diesel" := Some 1400]> ∅)]>
          (<[0%nat := <["a95" := Some 1500]> (<["lpg" := None]> ∅)]> ∅)) 2%nat.

(** ** Vocabulary of the statements *)

(** What the merge leaves under one key of the first-seen dict, from what it
    [held] and what the [incoming] dict binds the key to. *)
Definition merged_value (held incoming : option (option price)) : option (option price) :=
  match incoming with
  | Some (Some v) =>
      match held with
      | Some (Some old) => if v <? old then Some (Some v) else held
      | _ => Some (Some v)
      end
  | _ => held
  end.

(** The same on [dict.get]: the incoming price when the held record has none,
    the lower of the two when both have one. *)
Definition merged_price (held incoming : option price) : option price :=
  match incoming with
  | None => held
  | Some v =>
      match held with
      | None => Some v
      | Some old => Some (Z.min old v)
      end
  end.

(** A price mapping as the pipeline builds them: canonical keys only, every
    value a number that is not negative. *)
Definition dict_ok (d : dict) : Prop :=
  forall k v, d !! k = Some v -> In k SUPPORTED_FUELS /\ exists p, v = Some p /\ 0 <= p.

(** The stricter reading: every value strictly positive. *)
Definition dict_positive (d : dict) : Prop :=
  forall k v, d !! k = Some v -> In k SUPPORTED_FUELS /\ exists p, v = Some p /\ 0 < p.

Definition heap_ok (h : heap) : Prop :=
  forall l d, objs h !! l = Some d -> dict_ok d.

(** The records of one call of a chain adapter: one name, one source, no
    timestamp, and for each record a dict object of its own, created by the
    call, each with the content [d] of the chain-wide mapping. *)
Definition chain_copies (nm src : string) (d : dict) (h : heap) (sts : list station)
    (h' : heap) : Prop :=
  NoDup (map prices sts) /\
  forall st, st ∈ sts ->
    name st = nm /\ source st = src /\ timestamp st = EmptyString /\
    (next h <= prices st < next h')%nat /\ objs h' !! prices st = Some d.

(** The chain-wide mapping built from the tokens found after the labels:
    a fuel is bound, to what [parse_eur] makes of its token, exactly when a
    token was found for it. *)
Definition prices_found (found : list (string * option string)) (d : dict) : Prop :=
  (forall key tok, In (key, tok) found -> d !! key = parse_eur <$> tok) /\
  (forall key, ~ In key (map fst found) -> d !! key = None).

(** The records [chain_stations] builds, the first dict at location [l0]. *)
Fixpoint stations_from (nm src : string) (l0 : loc) (addrs : list string) : list station :=
  match addrs with
  | [] => []
  | a :: rest => Station nm a l0 src EmptyString :: stations_from nm src (S l0) rest
  end.

(** What the price patterns guarantee of the tokens a page yields. *)
Definition opt_token_ok (o : option string) : bool :=
  match o with
  | Some t => decimal_token t
  | None => true
  end.

Definition viada_tokens_ok (page : fetched viada_scan) : bool :=
  match page with
  | Page sc => forallb decimal_token (eur_tokens sc)
  | GetFailed _ => true
  end.

Definition pages_tokens_ok (pg : pages) : bool :=
  match p_gas pg with
  | Page ms => forallb (fun m => decimal_token (m_price m)) ms
  | GetFailed _ => true
  end &&
  match p_circlek pg with
  | Page sc => opt_token_ok (ck_95 sc) && opt_token_ok (ck_98 sc) &&
               opt_token_ok (ck_d sc) && opt_token_ok (ck_lpg sc)
  | GetFailed _ => true
  end &&
  match p_neste pg with
  | Page sc => opt_token_ok (n_95 sc) && opt_token_ok (n_98 sc) && opt_token_ok (n_d sc)
  | GetFailed _ => true
  end &&
  match p_virsi pg with
  | Page sc => opt_token_ok (v_95 sc) && opt_token_ok (v_98 sc) &&
               opt_token_ok (v_d sc) && opt_token_ok (v_lpg sc)
  | GetFailed _ => true
  end &&
  viada_tokens_ok (p_viada pg).

(** A Viada page that lists a price of 0.000 EUR; the other sources are down. *)
Definition ex_zero_pages : pages :=
  Pages (GetFailed ClientError) (GetFailed ClientError) (GetFailed TimeoutError)
        (GetFailed ClientError) (Page (ViadaScan ["0.000"] ["Rīga Krasta 1"])).

(** The records that open a canonical key, in the order of the list:
    [seen] holds the keys met before. *)
Fixpoint first_seen (seen : list (string * string)) (stations : list station)
  : list station :=
  match stations with
  | [] => []
  | st :: rest =>
      if bool_decide (canonical_key st ∈ seen) then first_seen seen rest
      else st :: first_seen (seen ++ [canonical_key st]) rest
  end.

(** The prices the records of one canonical key give for a fuel, in the
    store [h]. *)
Definition priced (h : heap) (fuel : string) (key : string * string)
    (stations : list station) : list price :=
  omap (fun st => if bool_decide (canonical_key st = key)
                  then dict_get (deref h (prices st)) fuel else None) stations.

(** [o] is the least element of [l], or nothing when [l] is empty. *)
Definition is_min (l : list Z) (o : option Z) : Prop :=
  match o with
  | None => l = []
  | Some m => m ∈ l /\ forall v, v ∈ l -> m <= v
  end.

(** The price a key ends with after the records of a list were merged one
    after the other, starting from [acc]. *)
Definition merge_over (h : heap) (fuel : string) (key : string * string)
    (stations : list station) (acc : option price) : option price :=
  fold_left (fun acc st =>
               if bool_decide (canonical_key st = key)
               then merged_price acc (dict_get (deref h (prices st)) fuel)
               else acc) stations acc.

(** How an adapter uses the store: it leaves the objects that were there
    alone, and the records it returns hold, in order, the dicts it made. *)
Definition allocates (h : heap) (r : outcome (list station)) (h' : heap) : Prop :=
  (next h <= next h')%nat /\
  (forall l, (l < next h)%nat -> objs h' !! l = objs h !! l) /\
  match r with
  | Returned sts => map prices sts = seq (next h) (next h' - next h)
  | Raised _ => next h' = next h
  end.

(** The shape of the characters [chars] cuts a string into: a byte and
    continuation bytes; every character but the first opens with a byte that
    is no continuation byte. *)
Definition group (g : string) : bool :=
  match g with
  | String _ t => forall_chars is_cont t
  | EmptyString => false
  end.

Definition opens (g : string) : bool := group g && negb (starts_cont g).

Definition chunked (l : list string) : bool :=
  match l with
  | [] => true
  | g :: l' => group g && forallb opens l'
  end.

(** An ASCII byte that is no white space. *)
Definition plain (c : ascii) : bool := is_ascii c && negb (is_space c).

(** The ASCII digit [float] and [int] put for a decimal digit. *)
Definition to_digit (g : string) : ascii :=
  match g with
  | String c EmptyString => c
  | _ =>
      match decimal_value g with
      | Some d => ascii_of_N (48 + d)
      | None => "?"%char
      end
  end.

Definition digits_of (l : list string) : string :=
  fold_right (fun g s => String (to_digit g) s) EmptyString l.

(** The code points from [lo] to [hi]. *)
Definition range_list (lo hi : N) : list N :=
  map (fun k => lo + N.of_nat k)%N (seq 0 (S (N.to_nat (hi - lo)))).

Definition listed (table : list (N * N)) : list N :=
  flat_map (fun '(lo, hi) => range_list lo hi) table.

(** The code points [lower_map] changes. *)
Definition lower_domain : list N :=
  304%N :: flat_map (fun '(lo, hi, step, _) =>
                        map (fun k => lo + N.of_nat k * step)%N
                            (seq 0 (S (N.to_nat ((hi - lo) / step)))))
                    lower_table.

(** A character [str.lower] leaves as it is, whatever is around it. *)
Definition lowered (g : string) : bool :=
  match code_point g with
  | Some n =>
      match lower_map n with
      | Some _ => false
      | None => negb (n =? 931)%N
      end
  | None => true
  end.

(** What the lower-case form of a character is made of: characters in lower
    case that open with a lead byte and are no white space. *)
Definition lower_form (g : string) : bool :=
  opens g && lowered g && negb (is_space_char g).

Definition lower_forms (l : list N) : bool :=
  match l with
  | [] => false
  | _ => forallb (fun m => lower_form (utf8 m)) l
  end.

(** * Properties *)

(** ** Strings *)

Section StringFacts.

Lemma is_digit_is_plain c : is_digit c = true -> plain c = true /\ is_c_space c = false.
Proof.
  destruct c as [[] [] [] [] [] [] [] []]; vm_compute; intuition congruence.
Qed.

Lemma is_digit_val c : is_digit c = true -> 0 <= digit_val c <= 9.
Proof.
  destruct c as [[] [] [] [] [] [] [] []]; vm_compute; intuition congruence.
Qed.

Lemma take_sign_digit c r :
  is_digit c = true -> take_sign (String c r) = (false, String c r).
Proof.
  destruct c as [[] [] [] [] [] [] [] []]; vm_compute; congruence.
Qed.

Lemma forall_chars_app p a b :
  forall_chars p (a ++ b) = forall_chars p a && forall_chars p b.
Proof.
  induction a as [|c a IH]; simpl; [reflexivity|].
  rewrite IH. now rewrite andb_assoc.
Qed.

Lemma forall_chars_impl (p q : ascii -> bool) s :
  (forall c, p c = true -> q c = true) ->
  forall_chars p s = true -> forall_chars q s = true.
Proof.
  intros Hpq. induction s as [|c s IH]; simpl; [reflexivity|].
  intros [Hc Hs]%andb_prop. rewrite (Hpq _ Hc), (IH Hs). reflexivity.
Qed.

Lemma map_chars_id (f : ascii -> ascii) (p : ascii -> bool) s :
  (forall c, p c = true -> f c = c) ->
  forall_chars p s = true -> map_chars f s = s.
Proof.
  intros Hf. induction s as [|c s IH]; simpl; [reflexivity|].
  intros [Hc Hs]%andb_prop. now rewrite (Hf _ Hc), (IH Hs).
Qed.

Lemma map_chars_app f a b : map_chars f (a ++ b) = map_chars f a ++ map_chars f b.
Proof.
  induction a as [|c a IH]; [reflexivity|].
  change (String (f c) (map_chars f (a ++ b)) = String (f c) (map_chars f a ++ map_chars f b)).
  now rewrite IH.
Qed.

Lemma string_app_nil_r (s : string) : s ++ EmptyString = s.
Proof.
  induction s as [|c s IH]; [reflexivity|].
  change (String c (s ++ EmptyString) = String c s). now rewrite IH.
Qed.

(** *** The characters of a string *)

Lemma in_range_list n lo hi : (lo <= n)%N -> (n <= hi)%N -> In n (range_list lo hi).
Proof.
  intros H1 H2. unfold range_list. apply in_map_iff.
  exists (N.to_nat (n - lo)). split; [lia|]. apply in_seq. lia.
Qed.

Lemma in_ranges_listed n t : in_ranges n t = true -> In n (listed t).
Proof.
  unfold in_ranges, listed. rewrite existsb_exists. intros ([lo hi] & Hin & H).
  apply andb_prop in H as [H1%N.leb_le H2%N.leb_le].
  apply in_flat_map. exists (lo, hi). split; [exact Hin | now apply in_range_list].
Qed.

Lemma concat_strings_map_chars f l :
  concat_strings (map (map_chars f) l) = map_chars f (concat_strings l).
Proof.
  induction l as [|g l IH]; [reflexivity|].
  change (map_chars f g ++ concat_strings (map (map_chars f) l) =
          map_chars f (g ++ concat_strings l)).
  now rewrite IH, map_chars_app.
Qed.

Lemma chars_starts s :
  match chars s with
  | g :: _ => starts_cont g = starts_cont s
  | [] => s = EmptyString
  end.
Proof.
  destruct s as [|c r]; simpl; [reflexivity|].
  destruct (chars r) as [|g gs]; [reflexivity|]. now destruct (starts_cont g).
Qed.

Lemma chars_cons c r :
  chars (String c r) =
  if starts_cont r then
    match chars r with
    | g :: gs => String c g :: gs
    | [] => [String c EmptyString]
    end
  else String c EmptyString :: chars r.
Proof.
  simpl. pose proof (chars_starts r) as H.
  destruct (chars r) as [|g gs]; [subst r; reflexivity|]. now rewrite H.
Qed.

Lemma concat_chars s : concat_strings (chars s) = s.
Proof.
  induction s as [|c r IH]; [reflexivity|]. simpl chars.
  destruct (chars r) as [|g gs]; [now rewrite <- IH|].
  destruct (starts_cont g); rewrite <- IH; reflexivity.
Qed.

Lemma chars_conts_app t s' :
  forall_chars is_cont t = true -> starts_cont s' = false ->
  forall c, chars (String c (t ++ s')) = String c t :: chars s'.
Proof.
  intros Ht Hs. induction t as [|d t IH]; intros c.
  - change (EmptyString ++ s') with s'. rewrite chars_cons. now rewrite Hs.
  - simpl in Ht. apply andb_prop in Ht as [Hd Ht].
    change (String d t ++ s') with (String d (t ++ s')).
    rewrite chars_cons. rewrite (IH Ht d). simpl starts_cont. now rewrite Hd.
Qed.

Lemma chunked_tail g l : chunked (g :: l) = true -> chunked l = true.
Proof.
  simpl. intros [_ Hl]%andb_prop. destruct l as [|g' l]; [reflexivity|].
  simpl in *. apply andb_prop in Hl as [[Hg _]%andb_prop Hl]. now rewrite Hg, Hl.
Qed.

Lemma chunked_chars s : chunked (chars s) = true.
Proof.
  induction s as [|c r IH]; [reflexivity|]. simpl chars.
  destruct (chars r) as [|g gs]; [reflexivity|].
  simpl in IH. apply andb_prop in IH as [Hg Hgs].
  destruct (starts_cont g) eqn:Hst; simpl.
  - rewrite Hgs, andb_true_r. destruct g as [|d t]; [discriminate|].
    simpl in *. now rewrite Hst, Hg.
  - rewrite Hgs, andb_true_r. unfold opens. now rewrite Hg, Hst.
Qed.

Lemma groups_of_chunked l : chunked l = true -> forallb group l = true.
Proof.
  destruct l as [|g l]; [reflexivity|]. simpl. intros [-> Hl]%andb_prop. simpl.
  induction l as [|g' l IH]; [reflexivity|]. simpl in *.
  apply andb_prop in Hl as [[-> _]%andb_prop Hl]. simpl. now apply IH.
Qed.

Lemma starts_cont_concat g l :
  opens g = true -> starts_cont (concat_strings (g :: l)) = false.
Proof.
  unfold opens. intros [Hg Hs]%andb_prop. destruct g as [|c t]; [discriminate|].
  simpl in *. now apply negb_true_iff in Hs.
Qed.

(** Cutting the join of well-shaped characters gives them back. *)
Lemma chars_concat l : chunked l = true -> chars (concat_strings l) = l.
Proof.
  induction l as [|g l IH]; [reflexivity|]. intros Hl.
  pose proof (IH (chunked_tail _ _ Hl)) as Hrec.
  simpl in Hl. apply andb_prop in Hl as [Hg Hl].
  destruct g as [|c t]; [discriminate|]. simpl in Hg.
  change (concat_strings (String c t :: l)) with (String c (t ++ concat_strings l)).
  rewrite (chars_conts_app _ _ Hg); [now rewrite Hrec|].
  destruct l as [|g' l]; [reflexivity|].
  simpl in Hl. apply andb_prop in Hl as [Hg' _]. now apply starts_cont_concat.
Qed.

Lemma forall_chars_concat p l :
  forall_chars p (concat_strings l) = forallb (forall_chars p) l.
Proof.
  induction l as [|g l IH]; [reflexivity|].
  change (concat_strings (g :: l)) with (g ++ concat_strings l).
  rewrite forall_chars_app, IH. reflexivity.
Qed.

(** The characters of an ASCII string are its bytes. *)
Lemma chars_ascii_cons c r :
  forall_chars is_ascii r = true -> chars (String c r) = String c EmptyString :: chars r.
Proof.
  intros Hr. rewrite chars_cons.
  assert (starts_cont r = false) as ->; [|reflexivity].
  destruct r as [|d r]; [reflexivity|]. simpl in *. apply andb_prop in Hr as [Hd _].
  revert Hd. destruct d as [[] [] [] [] [] [] [] []]; vm_compute; congruence.
Qed.

Lemma is_space_char_ascii c :
  is_ascii c = true -> is_space_char (String c EmptyString) = is_space c.
Proof.
  destruct c as [[] [] [] [] [] [] [] []]; vm_compute; congruence.
Qed.

(** *** str.strip *)

Lemma forallb_lstrip_chars (p : string -> bool) l :
  forallb p l = true -> forallb p (lstrip_chars l) = true.
Proof.
  induction l as [|g l IH]; [reflexivity|]. intros H. simpl.
  destruct (is_space_char g); [|exact H].
  simpl in H. apply andb_prop in H as [_ H]. now apply IH.
Qed.

Lemma forallb_rstrip_chars (p : string -> bool) l :
  forallb p l = true -> forallb p (rstrip_chars l) = true.
Proof.
  induction l as [|g l IH]; [reflexivity|]. simpl. intros [Hg Hl]%andb_prop.
  specialize (IH Hl). destruct (rstrip_chars l) as [|r rs].
  - destruct (is_space_char g); simpl; now rewrite ?Hg.
  - simpl in *. now rewrite Hg, IH.
Qed.

Lemma chunked_lstrip_chars l : chunked l = true -> chunked (lstrip_chars l) = true.
Proof.
  induction l as [|g l IH]; [reflexivity|]. intros H. simpl.
  destruct (is_space_char g); [|exact H]. apply IH. now apply chunked_tail in H.
Qed.

Lemma chunked_rstrip_chars l : chunked l = true -> chunked (rstrip_chars l) = true.
Proof.
  destruct l as [|g l]; [reflexivity|]. simpl. intros [Hg Hl]%andb_prop.
  pose proof (forallb_rstrip_chars _ _ Hl) as Hr.
  destruct (rstrip_chars l) as [|r rs].
  - destruct (is_space_char g); simpl; now rewrite ?Hg.
  - simpl in *. now rewrite Hg, Hr.
Qed.

Lemma lstrip_chars_head l :
  match lstrip_chars l with
  | g :: _ => is_space_char g = false
  | [] => True
  end.
Proof.
  induction l as [|g l IH]; simpl; [exact I|].
  destruct (is_space_char g) eqn:E; [exact IH | exact E].
Qed.

Lemma rstrip_chars_keeps_head l :
  match l with g :: _ => is_space_char g = false | [] => True end ->
  lstrip_chars (rstrip_chars l) = rstrip_chars l.
Proof.
  destruct l as [|g l]; [reflexivity|]. intros Hg. simpl.
  destruct (rstrip_chars l); rewrite ?Hg; simpl; now rewrite Hg.
Qed.

Lemma rstrip_chars_idem l : rstrip_chars (rstrip_chars l) = rstrip_chars l.
Proof.
  induction l as [|g l IH]; simpl; [reflexivity|].
  destruct (rstrip_chars l) as [|d r] eqn:E.
  - destruct (is_space_char g) eqn:Eg; simpl; [reflexivity | now rewrite Eg].
  - change (rstrip_chars (g :: d :: r)) with
      (match rstrip_chars (d :: r) with
       | [] => if is_space_char g then [] else [g]
       | r0 => g :: r0
       end).
    now rewrite IH.
Qed.

Lemma strip_chars s :
  chars (strip s) = rstrip_chars (lstrip_chars (chars s)).
Proof.
  unfold strip. apply chars_concat.
  apply chunked_rstrip_chars, chunked_lstrip_chars, chunked_chars.
Qed.

Lemma strip_idem s : strip (strip s) = strip s.
Proof.
  unfold strip at 1. rewrite strip_chars.
  rewrite (rstrip_chars_keeps_head _ (lstrip_chars_head (chars s))).
  now rewrite rstrip_chars_idem.
Qed.

Lemma forall_chars_strip p s : forall_chars p s = true -> forall_chars p (strip s) = true.
Proof.
  intros H. unfold strip. rewrite forall_chars_concat.
  apply forallb_rstrip_chars, forallb_lstrip_chars.
  rewrite <- forall_chars_concat. now rewrite concat_chars.
Qed.

Lemma no_space_chars l :
  forallb (fun g => negb (is_space_char g)) l = true ->
  rstrip_chars (lstrip_chars l) = l.
Proof.
  intros H. assert (lstrip_chars l = l) as ->.
  { destruct l as [|g l]; [reflexivity|]. simpl in *.
    apply andb_prop in H as [Hg _]. apply negb_true_iff in Hg. now rewrite Hg. }
  induction l as [|g l IH]; [reflexivity|]. simpl in *.
  apply andb_prop in H as [Hg Hl]. rewrite (IH Hl).
  apply negb_true_iff in Hg. rewrite Hg. now destruct l.
Qed.

Lemma plain_chars s :
  forall_chars plain s = true ->
  forallb (fun g => negb (is_space_char g)) (chars s) = true.
Proof.
  induction s as [|c r IH]; [reflexivity|]. simpl forall_chars.
  intros [Hc Hr]%andb_prop. rewrite chars_ascii_cons.
  - simpl. rewrite (IH Hr), andb_true_r.
    unfold plain in Hc. apply andb_prop in Hc as [Ha Hs].
    now rewrite (is_space_char_ascii _ Ha).
  - eapply forall_chars_impl; [|exact Hr]. unfold plain. now intros d [? _]%andb_prop.
Qed.

(** A string of ASCII bytes without white space is its own trimmed form. *)
Lemma strip_no_space s : forall_chars plain s = true -> strip s = s.
Proof.
  intros H. unfold strip. rewrite (no_space_chars _ (plain_chars _ H)).
  apply concat_chars.
Qed.

(** *** The number text *)

Lemma ascii_number_ascii s :
  forall_chars is_ascii s = true -> ascii_number (chars s) = s.
Proof.
  induction s as [|c r IH]; [reflexivity|]. simpl forall_chars.
  intros [Hc Hr]%andb_prop. rewrite (chars_ascii_cons _ _ Hr).
  simpl. now rewrite Hc, (IH Hr).
Qed.

Lemma c_rstrip_no_space s :
  forall_chars (fun c => negb (is_c_space c)) s = true -> c_rstrip s = s.
Proof.
  induction s as [|c s IH]; simpl; [reflexivity|].
  intros [Hc Hs]%andb_prop. rewrite (IH Hs).
  apply negb_true_iff in Hc. rewrite Hc. now destruct s.
Qed.

(** The number text of an ASCII string without white space is the string. *)
Lemma number_text_plain s :
  forall_chars (fun c => is_ascii c && negb (is_c_space c)) s = true -> number_text s = s.
Proof.
  intros H. unfold number_text.
  assert (forall_chars is_ascii s = true) as Ha.
  { eapply forall_chars_impl; [|exact H]. now intros c [? _]%andb_prop. }
  assert (forall_chars (fun c => negb (is_c_space c)) s = true) as Hs.
  { eapply forall_chars_impl; [|exact H]. now intros c [_ ?]%andb_prop. }
  rewrite (ascii_number_ascii _ Ha).
  assert (c_lstrip s = s) as ->.
  { destruct s as [|c s]; simpl in *; [reflexivity|].
    apply andb_prop in Hs as [Hc _]. apply negb_true_iff in Hc. now rewrite Hc. }
  now apply c_rstrip_no_space.
Qed.

End StringFacts.

(** ** parse_eur *)

Section ParseEur.

Lemma is_digit_plain c :
  is_digit c = true ->
  Ascii.eqb c "_" = false /\ Ascii.eqb c "," = false /\ Ascii.eqb c "." = false.
Proof.
  destruct c as [[] [] [] [] [] [] [] []]; vm_compute; intuition congruence.
Qed.

Lemma digits_value_nonneg ds :
  forall acc, 0 <= acc -> forall_chars is_digit ds = true -> 0 <= digits_value acc ds.
Proof.
  induction ds as [|c ds IH]; simpl; intros acc Hacc H; [lia|].
  apply andb_prop in H as [Hc Hs]. apply IH; [|assumption].
  pose proof (is_digit_val _ Hc). lia.
Qed.

Lemma digitpart_cons c s :
  is_digit c = true ->
  match s with String u _ => Ascii.eqb u "_" = false | EmptyString => True end ->
  digitpart (String c s) = let '(ds, r) := digitpart s in (String c ds, r).
Proof.
  intros Hc Hu. destruct s as [|u [|d s3]].
  - simpl. now rewrite Hc.
  - simpl. now rewrite Hc.
  - change (digitpart (String c (String u (String d s3)))) with
      (if is_digit c then
         if Ascii.eqb u "_" && is_digit d
         then let '(ds, r) := digitpart (String d s3) in (String c ds, r)
         else let '(ds, r) := digitpart (String u (String d s3)) in (String c ds, r)
       else (EmptyString, String c (String u (String d s3)))).
    now rewrite Hc, Hu.
Qed.

Lemma digitpart_digits ip r :
  forall_chars is_digit ip = true ->
  match r with
  | String c _ => is_digit c = false /\ Ascii.eqb c "_" = false
  | EmptyString => True
  end ->
  digitpart (ip ++ r) = (ip, r).
Proof.
  induction ip as [|c ip IH]; intros Hd Hr.
  - destruct r as [|c r]; [reflexivity|]. destruct Hr as [Hc _].
    simpl. now rewrite Hc.
  - simpl in Hd. apply andb_prop in Hd as [Hc Hd].
    change (String c ip ++ r) with (String c (ip ++ r)).
    rewrite digitpart_cons; [now rewrite IH | assumption |].
    destruct ip as [|u ip]; simpl.
    + destruct r; [trivial | apply Hr].
    + simpl in Hd. apply andb_prop in Hd as [Hu _].
      now apply is_digit_plain in Hu.
Qed.

(** ASCII digits, with or without a dot and digits after them, spell a
    number that is not negative. *)
Lemma float_of_text_digits ip r :
  ip <> EmptyString -> forall_chars is_digit ip = true ->
  (r = EmptyString \/ exists fp, r = String "." fp /\ forall_chars is_digit fp = true) ->
  exists m e, float_of_text (ip ++ r) = Some (Decimal m e) /\ 0 <= m.
Proof.
  intros Hne Hip Hr.
  assert (exists fp, forall_chars is_digit fp = true /\
            (r = EmptyString /\ fp = EmptyString \/ r = String "." fp)) as (fp & Hfp & Hshape).
  { destruct Hr as [-> | (fp & -> & Hfp)]; [exists EmptyString; auto | exists fp; auto]. }
  clear Hr. unfold float_of_text.
  destruct ip as [|c ip]; [now destruct Hne|]. clear Hne.
  pose proof Hip as Hip'. simpl in Hip'. apply andb_prop in Hip' as [Hc _].
  change (String c ip ++ r) with (String c (ip ++ r)).
  rewrite (take_sign_digit _ _ Hc).
  change (String c (ip ++ r)) with (String c ip ++ r).
  rewrite (digitpart_digits _ _ Hip).
  2:{ destruct Hshape as [[-> _] | ->]; [trivial | split; reflexivity]. }
  assert (0 <= digits_value 0 (String c ip ++ fp)) as Hval.
  { apply digits_value_nonneg; [lia|]. rewrite forall_chars_app.
    now apply andb_true_intro. }
  destruct Hshape as [[-> ->] | ->].
  - simpl take_exponent. cbv iota beta. eauto.
  - pose proof (digitpart_digits fp EmptyString Hfp I) as Hd.
    rewrite string_app_nil_r in Hd. cbv iota beta. rewrite Hd.
    simpl take_exponent. cbv iota beta. eauto.
Qed.

Lemma span_decimals_spec l :
  forall ip r, span_decimals l = (ip, r) ->
  l = (ip ++ r)%list /\ forallb is_decimal_char ip = true.
Proof.
  induction l as [|g l IH]; simpl; intros ip r H.
  - injection H as <- <-. auto.
  - destruct (is_decimal_char g) eqn:Hg.
    + destruct (span_decimals l) as [ds r'] eqn:Hs. injection H as <- <-.
      destruct (IH _ _ eq_refl) as (-> & Hd). simpl. now rewrite Hg, Hd.
    + injection H as <- <-. auto.
Qed.

(** A decimal digit is no white space. *)
Lemma decimal_not_space g : is_decimal_char g = true -> is_space_char g = false.
Proof.
  unfold is_decimal_char, decimal_value, is_space_char, has.
  destruct (code_point g) as [n|]; [|reflexivity].
  destruct (in_ranges n space_table) eqn:E; [|reflexivity].
  apply in_ranges_listed in E. vm_compute in E.
  repeat (destruct E as [<- | E]; [vm_compute; congruence|]). contradiction.
Qed.

Lemma small_digit d : (d < 10)%N -> is_digit (ascii_of_N (48 + d)) = true.
Proof.
  intros H. rewrite <- (N2Nat.id d). assert (N.to_nat d < 10)%nat as Hk by lia.
  revert Hk. generalize (N.to_nat d). intros k Hk.
  do 10 (destruct k as [|k]; [reflexivity|]). lia.
Qed.

Lemma ascii_decimal_char c :
  is_decimal_char (String c EmptyString) = true -> is_ascii c = true /\ is_digit c = true.
Proof.
  destruct c as [[] [] [] [] [] [] [] []]; vm_compute; intuition congruence.
Qed.

(** What [float] and [int] put for a decimal digit is an ASCII digit. *)
Lemma ascii_number_decimal g rest :
  is_decimal_char g = true ->
  is_digit (to_digit g) = true /\
  ascii_number (g :: rest) = String (to_digit g) (ascii_number rest).
Proof.
  intros Hg. destruct g as [|a [|b t]].
  - discriminate.
  - apply ascii_decimal_char in Hg as [Ha Hd]. simpl. now rewrite Ha.
  - pose proof (decimal_not_space _ Hg) as Hs.
    cbn [ascii_number to_digit]. rewrite Hs.
    unfold is_decimal_char in Hg. unfold decimal_value in *.
    destruct (code_point (String a (String b t))) as [n|]; [|discriminate].
    destruct (find _ decimal_table) as [[lo hi]|]; [|discriminate].
    split; [|reflexivity]. apply small_digit. now apply N.mod_lt.
Qed.

Lemma ascii_number_decimals l rest :
  forallb is_decimal_char l = true ->
  forall_chars is_digit (digits_of l) = true /\
  ascii_number (l ++ rest) = digits_of l ++ ascii_number rest.
Proof.
  induction l as [|g l IH]; [now split|]. simpl forallb.
  intros [Hg Hl]%andb_prop. destruct (IH Hl) as [Hd Hn].
  destruct (ascii_number_decimal g (l ++ rest) Hg) as [Hdg Hstep].
  split; [simpl; now rewrite Hdg, Hd|].
  change ((g :: l) ++ rest)%list with (g :: (l ++ rest))%list.
  rewrite Hstep, Hn. reflexivity.
Qed.

(** A comma is no decimal digit, alone or followed by continuation bytes. *)
Lemma replace_comma_decimal g :
  group g = true -> is_decimal_char g = true -> replace_comma g = g.
Proof.
  destruct g as [|a t]; [reflexivity|]. simpl. intros Ht Hg.
  assert (replace_comma t = t) as Htail.
  { apply (map_chars_id _ is_cont); [|exact Ht].
    intros c. destruct c as [[] [] [] [] [] [] [] []]; vm_compute; congruence. }
  unfold replace_comma in *. simpl. rewrite Htail.
  destruct (Ascii.eqb a ",") eqn:Ea; [|reflexivity].
  apply Ascii.eqb_eq in Ea as ->.
  destruct t as [|b [|c [|d [|e t]]]]; discriminate.
Qed.

(** A token of decimal digits, with or without a fraction, reads as a number
    that is not negative. *)
Lemma decimal_token_float t :
  decimal_token t = true ->
  strip (replace_comma t) = t /\
  exists m e, float_of_string t = Some (Decimal m e) /\ 0 <= m.
Proof.
  unfold decimal_token. destruct (span_decimals (chars t)) as [ip r] eqn:Hsp.
  destruct (span_decimals_spec _ _ _ Hsp) as (Hl & Hip). clear Hsp. intros Htok.
  assert (ip <> [] /\
          (r = [] \/ exists fp, r = "." :: fp /\ fp <> [] /\ forallb is_decimal_char fp = true))
    as [Hne Hr].
  { destruct ip as [|g ip]; [discriminate|]. split; [discriminate|].
    destruct r as [|dot [|f fp]]; [now left | discriminate |]. right.
    apply andb_prop in Htok as [->%String.eqb_eq Hfp]. exists (f :: fp). now split. }
  clear Htok.
  pose proof (groups_of_chunked _ (chunked_chars t)) as Hgroups. rewrite Hl in Hgroups.
  assert (forall g, In g (ip ++ r)%list ->
                    is_space_char g = false /\ replace_comma g = g) as Hchunks.
  { rewrite forallb_forall in Hgroups, Hip. intros g Hg.
    assert (is_decimal_char g = true \/ g = ".") as [Hd | ->].
    { apply in_app_iff in Hg as [Hg | Hg]; [left; now apply Hip|].
      destruct Hr as [-> | (fp & -> & _ & Hfp)]; [contradiction|].
      rewrite forallb_forall in Hfp. destruct Hg as [<- | Hg]; [now right | left; auto]. }
    - split; [now apply decimal_not_space | apply replace_comma_decimal; auto].
    - now split. }
  assert (replace_comma t = t) as Hrc.
  { rewrite <- (concat_chars t) at 1. unfold replace_comma at 1.
    rewrite <- concat_strings_map_chars. fold replace_comma.
    rewrite Hl, (map_ext_in _ id), map_id, <- Hl; [apply concat_chars|].
    intros g Hg. now apply Hchunks. }
  assert (strip t = t) as Hstrip.
  { unfold strip. rewrite no_space_chars; [apply concat_chars|].
    rewrite Hl. apply forallb_forall. intros g Hg.
    apply negb_true_iff. now apply Hchunks. }
  split; [now rewrite Hrc|].
  set (rtext := match r with
                | [] => EmptyString
                | _ :: fp => String "." (digits_of fp)
                end).
  assert (ascii_number (chars t) = digits_of ip ++ rtext) as Hnum.
  { rewrite Hl. destruct (ascii_number_decimals ip r Hip) as [_ ->]. f_equal.
    destruct Hr as [-> | (fp & -> & _ & Hfp)]; [reflexivity|].
    cbn [ascii_number rtext]. change (is_ascii ".") with true. cbv iota.
    destruct (ascii_number_decimals fp [] Hfp) as [_ H]. rewrite app_nil_r in H.
    rewrite H. simpl. now rewrite string_app_nil_r. }
  assert (forall_chars is_digit (digits_of ip) = true) as Hdip
      by apply (ascii_number_decimals ip [] Hip).
  assert (rtext = EmptyString \/
          exists fp, rtext = String "." fp /\ forall_chars is_digit fp = true) as Hrtext.
  { unfold rtext. destruct Hr as [-> | (fp & -> & _ & Hfp)]; [now left|]. right.
    exists (digits_of fp). split; [reflexivity | apply (ascii_number_decimals fp [] Hfp)]. }
  assert (digits_of ip <> EmptyString) as Hdne
      by (destruct ip; [now destruct Hne | discriminate]).
  unfold float_of_string. unfold number_text. rewrite Hnum.
  assert (c_rstrip (c_lstrip (digits_of ip ++ rtext)) = digits_of ip ++ rtext) as ->.
  { assert (forall_chars (fun c => negb (is_c_space c)) (digits_of ip ++ rtext) = true) as Hp.
    { rewrite forall_chars_app. apply andb_true_intro. split.
      - eapply forall_chars_impl; [|exact Hdip].
        intros c Hc. apply is_digit_is_plain in Hc as [_ ->]. reflexivity.
      - destruct Hrtext as [-> | (fp & -> & Hfp)]; [reflexivity|]. simpl.
        eapply forall_chars_impl; [|exact Hfp].
        intros c Hc. apply is_digit_is_plain in Hc as [_ ->]. reflexivity. }
    assert (c_lstrip (digits_of ip ++ rtext) = digits_of ip ++ rtext) as ->.
    { destruct (digits_of ip ++ rtext) as [|c s]; simpl in *; [reflexivity|].
      apply andb_prop in Hp as [Hc _]. apply negb_true_iff in Hc. now rewrite Hc. }
    now apply c_rstrip_no_space. }
  now apply float_of_text_digits.
Qed.

Lemma round_half_even_nonneg m d : 0 <= m -> 0 < d -> 0 <= round_half_even m d.
Proof.
  intros Hm Hd. unfold round_half_even.
  assert (0 <= m / d) by (apply Z.div_pos; lia).
  destruct (2 * (m mod d) <? d); [assumption|].
  destruct (d <? 2 * (m mod d)); [lia|].
  destruct (Z.even (m / d)); lia.
Qed.

Lemma round3_nonneg m e : 0 <= m -> 0 <= round3 (Decimal m e).
Proof.
  intros Hm. unfold round3. simpl.
  destruct (0 <=? e + 3) eqn:Hk.
  - apply Z.leb_le in Hk. apply Z.mul_nonneg_nonneg; [assumption|].
    apply Z.pow_nonneg. lia.
  - apply Z.leb_gt in Hk. apply round_half_even_nonneg; [assumption|].
    apply Z.pow_pos_nonneg; lia.
Qed.

Lemma parse_eur_token t :
  decimal_token t = true -> exists p, parse_eur t = Some p /\ 0 <= p.
Proof.
  intros Ht. destruct (decimal_token_float _ Ht) as (Hs & m & e & Hf & Hm).
  unfold parse_eur. rewrite Hs, Hf. eexists; split; [reflexivity|].
  now apply round3_nonneg.
Qed.

End ParseEur.

(** C8: [parse_eur] reads "1,523" as 1.523 (the comma is the decimal
    separator and the result has three fractional digits, here 1523
    thousandths), gives None for "abc", and in general gives None, neither
    zero nor an exception, exactly when [float] rejects the cleaned string. *)
Theorem parse_eur_comma_and_garbage :
  parse_eur "1,523" = Some 1523 /\
  parse_eur "1,523" = parse_eur "1.523" /\
  parse_eur "1,5238" = Some 1524 /\
  parse_eur "abc" = None /\
  parse_eur "abc" <> Some 0 /\
  forall s, parse_eur s = None <-> float_of_string (strip (replace_comma s)) = None.
Proof.
  repeat split; try reflexivity; try discriminate.
  - unfold parse_eur. now destruct (float_of_string _).
  - unfold parse_eur. now intros ->.
Qed.

(** ** normalize_fuel_type *)

Section Normalizer.

Lemma mem_In s l : mem s l = true <-> In s l.
Proof.
  unfold mem. rewrite existsb_exists. split.
  - intros (x & Hx & ->%String.eqb_eq). assumption.
  - intros H. exists s. split; [assumption | apply String.eqb_refl].
Qed.

Lemma mem_not_In s l : ~ In s l -> mem s l = false.
Proof.
  intros H. destruct (mem s l) eqn:E; [|reflexivity].
  now apply mem_In in E.
Qed.

Lemma first_alias_none t table :
  (forall key aliases, In (key, aliases) table -> ~ In t aliases) ->
  first_alias t table = None.
Proof.
  induction table as [|[key aliases] rest IH]; intros H; simpl; [reflexivity|].
  rewrite mem_not_In by (apply (H key aliases); now left).
  apply IH. intros k a Hin. apply (H k a). now right.
Qed.

(** The alias sets are pairwise disjoint, so the first hit is the only one. *)
Lemma first_alias_hit t key aliases :
  In (key, aliases) FUEL_ALIASES -> In t aliases ->
  first_alias t FUEL_ALIASES = Some key.
Proof.
  unfold FUEL_ALIASES. intros Hk Ht. simpl in Hk.
  repeat (destruct Hk as [Hk | Hk]; [injection Hk as <- <-|]); try contradiction;
    simpl in Ht;
    repeat (destruct Ht as [<- | Ht]; [reflexivity|]); contradiction.
Qed.

(** C3: a label whose trimmed, lower-cased form is in the alias set of a fuel
    normalizes to that fuel; a label whose form is in no alias set, in
    neither loose set and is no canonical id normalizes to None. The form is
    the one the code computes: [s.strip().lower()], on all of Unicode. *)
Theorem normalize_fuel_type_aliases (s : string) :
  (forall key aliases,
      In (key, aliases) FUEL_ALIASES -> In (lower (strip s)) aliases ->
      normalize_fuel_type (Some s) = Some key) /\
  ((forall key aliases, In (key, aliases) FUEL_ALIASES -> ~ In (lower (strip s)) aliases) ->
   ~ In (lower (strip s)) ["95e"; "95m"; "a95e"] ->
   ~ In (lower (strip s)) ["98e"; "98m"; "a98e"] ->
   ~ In (lower (strip s)) SUPPORTED_FUELS ->
   normalize_fuel_type (Some s) = None).
Proof.
  unfold normalize_fuel_type. simpl default. split.
  - intros key aliases Hk Ht. now rewrite (first_alias_hit _ _ _ Hk Ht).
  - intros Hnone H95 H98 Hsup.
    rewrite (first_alias_none _ _ Hnone).
    now rewrite (mem_not_In _ _ H95), (mem_not_In _ _ H98), (mem_not_In _ _ Hsup).
Qed.

(** Three labels: an alias in mixed case between spaces, an alias in capitals
    with a macron between no-break spaces (bytes 194 160), and a word that is
    no fuel. *)
Lemma normalize_fuel_type_aliases_witness :
  normalize_fuel_type (Some "  Futura 95 ") = Some "a95" /\
  normalize_fuel_type (Some (String "194" (String "160" "DĪZELIS" ++ String "194" (String "160" EmptyString))))
  = Some "diesel" /\
  normalize_fuel_type (Some "Kerosene") = None.
Proof.
  split; [|split].
  - apply (proj1 (normalize_fuel_type_aliases "  Futura 95 ") "a95"
             ["a95"; "95"; "95e"; "95miles"; "futura 95"; "a-95"; "eurosuper 95"]).
    + left. reflexivity.
    + vm_compute. tauto.
  - apply (proj1 (normalize_fuel_type_aliases _) "diesel"
             ["diesel"; "d"; "dīzelis"; "d-miles"; "dmiles"; "futura d";
              "miles diesel"; "dīzeļdegviela"]).
    + right. right. left. reflexivity.
    + vm_compute. tauto.
  - apply (proj2 (normalize_fuel_type_aliases "Kerosene")).
    + intros key aliases Hk. vm_compute in Hk. vm_compute.
      intuition (try discriminate); match goal with H : (_, _) = (_, _) |- _ => injection H as <- <- end;
        intuition discriminate.
    + vm_compute. intuition discriminate.
    + vm_compute. intuition discriminate.
    + vm_compute. intuition discriminate.
Defined.

End Normalizer.

(** ** The merge of fetch_all *)

Section Merge.

Lemma lookup_merge_prices (existing incoming : dict) k :
  merge_prices existing incoming !! k = merged_value (existing !! k) (incoming !! k).
Proof.
  revert k. unfold merge_prices.
  apply (map_fold_weak_ind
           (fun acc (m : dict) => forall k, acc !! k = merged_value (existing !! k) (m !! k))).
  - intros k. now rewrite lookup_empty.
  - intros j x m r Hj IH k. destruct (decide (j = k)) as [<- | Hne].
    + rewrite lookup_insert_eq. pose proof (IH j) as IHj. rewrite Hj in IHj.
      simpl in IHj. unfold merge_item, dict_get. destruct x as [v|]; simpl.
      * rewrite IHj. destruct (existing !! j) as [[old|]|]; simpl.
        -- destruct (v <? old); [now rewrite lookup_insert_eq | now rewrite IHj].
        -- now rewrite lookup_insert_eq.
        -- now rewrite lookup_insert_eq.
      * exact IHj.
    + rewrite lookup_insert_ne by done. rewrite <- IH. unfold merge_item.
      destruct x as [v|]; [|reflexivity].
      destruct (dict_get r j) as [old|]; [destruct (v <? old)|];
        rewrite ?lookup_insert_ne by done; reflexivity.
Qed.

Lemma dict_get_merge_prices (existing incoming : dict) k :
  dict_get (merge_prices existing incoming) k =
  merged_price (dict_get existing k) (dict_get incoming k).
Proof.
  unfold dict_get. rewrite lookup_merge_prices. unfold merged_value, merged_price.
  destruct (incoming !! k) as [[v|]|]; try reflexivity.
  destruct (existing !! k) as [[old|]|]; try reflexivity.
  destruct (Z.ltb_spec v old).
  - now rewrite Z.min_r by lia.
  - now rewrite Z.min_l by lia.
Qed.

Lemma merge_prices_twice (existing incoming : dict) :
  merge_prices (merge_prices existing incoming) incoming = merge_prices existing incoming.
Proof.
  apply map_eq. intros k. rewrite !lookup_merge_prices. unfold merged_value.
  destruct (incoming !! k) as [[v|]|]; try reflexivity.
  destruct (existing !! k) as [[old|]|]; rewrite ?Z.ltb_irrefl; try reflexivity.
  destruct (v <? old) eqn:E; [now rewrite Z.ltb_irrefl | now rewrite E].
Qed.

Lemma merge_prices_self (d : dict) : merge_prices d d = d.
Proof.
  apply map_eq. intros k. rewrite lookup_merge_prices. unfold merged_value.
  destruct (d !! k) as [[v|]|]; rewrite ?Z.ltb_irrefl; reflexivity.
Qed.

Lemma deref_write h l d l' :
  deref (Heap (<[l := d]> (objs h)) (next h)) l' = if decide (l = l') then d else deref h l'.
Proof.
  unfold deref. simpl. destruct (decide (l = l')) as [<- | Hne].
  - now rewrite lookup_insert_eq.
  - now rewrite lookup_insert_ne.
Qed.

Lemma dedup_step_existing uniq st first h :
  uniq_get (canonical_key st) uniq = Some first ->
  dedup_step uniq st h =
  (Returned uniq,
   Heap (<[prices first := merge_prices (deref h (prices first)) (deref h (prices st))]> (objs h))
        (next h)).
Proof. intros H. unfold dedup_step. now rewrite H. Qed.

Lemma dedup_step_new uniq st h :
  uniq_get (canonical_key st) uniq = None ->
  dedup_step uniq st h = (Returned (uniq ++ [(canonical_key st, st)])%list, h).
Proof. intros H. unfold dedup_step. now rewrite H. Qed.

Lemma uniq_get_app_new key st (uniq : uniq_map) :
  uniq_get key uniq = None -> uniq_get key (uniq ++ [(key, st)])%list = Some st.
Proof.
  induction uniq as [|[k s0] rest IH]; simpl; intros H.
  - now rewrite bool_decide_eq_true_2.
  - destruct (bool_decide (k = key)); [discriminate | now apply IH].
Qed.

(** C1: two records with the same canonical key are collapsed into one, the
    first-seen record (its name, address, source and timestamp), whose price
    for a fuel is the incoming price when it had none and the lower of the
    two when both had one; this holds for the pair alone and for the step of
    the merge loop in any dataset that holds the first under that key. *)
Theorem fetch_all_merges_same_key (a b : station) (h : heap) :
  canonical_key a = canonical_key b ->
  (exists h',
      dedup [a; b] h = (Returned [a], h') /\
      forall fuel,
        dict_get (deref h' (prices a)) fuel =
        merged_price (dict_get (deref h (prices a)) fuel) (dict_get (deref h (prices b)) fuel)) /\
  (forall uniq,
      uniq_get (canonical_key b) uniq = Some a ->
      exists h',
        dedup_step uniq b h = (Returned uniq, h') /\
        forall fuel,
          dict_get (deref h' (prices a)) fuel =
          merged_price (dict_get (deref h (prices a)) fuel) (dict_get (deref h (prices b)) fuel)).
Proof.
  intros Hkey.
  assert (forall uniq, uniq_get (canonical_key b) uniq = Some a ->
            exists h', dedup_step uniq b h = (Returned uniq, h') /\
              forall fuel, dict_get (deref h' (prices a)) fuel =
                merged_price (dict_get (deref h (prices a)) fuel)
                             (dict_get (deref h (prices b)) fuel)) as Hstep.
  { intros uniq Hget. eexists. split; [exact (dedup_step_existing _ _ _ _ Hget)|].
    intros fuel. rewrite deref_write, decide_True by reflexivity.
    apply dict_get_merge_prices. }
  split; [|exact Hstep].
  destruct (Hstep [(canonical_key a, a)]) as (h' & Hrun & Hprices).
  { simpl. now rewrite bool_decide_eq_true_2. }
  exists h'. split; [|exact Hprices].
  unfold dedup, bind. simpl fold_m. unfold bind.
  rewrite (dedup_step_new [] a h eq_refl). simpl app. now rewrite Hrun.
Qed.

Lemma fetch_all_merges_same_key_witness :
  canonical_key ex_first = canonical_key ex_second /\
  exists h',
    dedup [ex_first; ex_second] ex_heap = (Returned [ex_first], h') /\
    map (dict_get (deref h' 0%nat)) ["a95"; "diesel"; "lpg"; "a98"] =
    [Some 1450; Some 1400; None; None].
Proof.
  split; [reflexivity|].
  destruct (fetch_all_merges_same_key ex_first ex_second ex_heap eq_refl)
    as [(h' & Hrun & Hprices) _].
  exists h'. split; [exact Hrun|].
  simpl map. change (prices ex_first) with 0%nat in Hprices.
  now rewrite !Hprices.
Defined.

(** C6: merging a record and then a record of identical content (the same
    object or a copy of it) leaves every prices mapping as the first merge
    left it, from any dataset state. *)
Theorem merge_twice_same_prices (uniq : uniq_map) (st st' : station) (h : heap) :
  canonical_key st' = canonical_key st ->
  deref h (prices st') = deref h (prices st) ->
  exists uniq1 h1 h2,
    dedup_step uniq st h = (Returned uniq1, h1) /\
    dedup_step uniq1 st' h1 = (Returned uniq1, h2) /\
    forall l, deref h2 l = deref h1 l.
Proof.
  intros Hkey Hsame.
  destruct (uniq_get (canonical_key st) uniq) as [first|] eqn:Hget.
  - pose proof Hget as Hget'. rewrite <- Hkey in Hget'.
    do 3 eexists. split; [exact (dedup_step_existing _ _ _ _ Hget)|].
    split; [exact (dedup_step_existing _ _ _ _ Hget')|].
    intros l. rewrite deref_write. destruct (decide (prices first = l)) as [<- | _]; [|reflexivity].
    rewrite !deref_write, decide_True by reflexivity.
    destruct (decide (prices first = prices st')) as [Heq | _].
    + rewrite <- Hsame, <- Heq. now rewrite !merge_prices_self.
    + rewrite Hsame. apply merge_prices_twice.
  - pose proof (uniq_get_app_new _ st _ Hget) as Hget'. rewrite <- Hkey in Hget' at 1.
    do 3 eexists. split; [exact (dedup_step_new _ _ _ Hget)|].
    split; [exact (dedup_step_existing _ _ _ _ Hget')|].
    intros l. rewrite deref_write. destruct (decide (prices st = l)) as [<- | _]; [|reflexivity].
    rewrite Hsame. apply merge_prices_self.
Qed.

Lemma merge_twice_same_prices_witness :
  exists uniq1 h1 h2,
    dedup_step [(canonical_key ex_first, ex_first)] ex_second ex_heap = (Returned uniq1, h1) /\
    dedup_step uniq1 ex_second h1 = (Returned uniq1, h2) /\
    forall l, deref h2 l = deref h1 l.
Proof.
  exact (merge_twice_same_prices [(canonical_key ex_first, ex_first)]
           ex_second ex_second ex_heap eq_refl eq_refl).
Defined.

(** C9 as stated fails: after the merge of two records with one key the
    prices mapping of the first, an adapter's own object, has changed. *)
Lemma merge_mutates_first_seen :
  ~ (forall (a b : station) (h h' : heap) (out : list station),
        canonical_key a = canonical_key b ->
        dedup [a; b] h = (Returned out, h') ->
        deref h' (prices a) = deref h (prices a) /\
        deref h' (prices b) = deref h (prices b)).
Proof.
  intros H.
  destruct (H ex_first ex_second ex_heap
              (snd (dedup [ex_first; ex_second] ex_heap)) [ex_first] eq_refl)
    as [Hfirst _]; [vm_compute; reflexivity|].
  apply (f_equal (fun d => dict_get d "a95")) in Hfirst.
  vm_compute in Hfirst. discriminate.
Qed.

(** C9, amended: a step of the merge never changes the incoming record's
    mapping; for a key already there it rewrites one object only, the prices
    mapping of the first-seen record, in place, and keeps the dataset as it
    is; for a new key it stores the record itself and writes nothing. *)
Theorem merge_writes_first_seen_only (uniq : uniq_map) (st : station) (h : heap) :
  exists uniq' h',
    dedup_step uniq st h = (Returned uniq', h') /\
    deref h' (prices st) = deref h (prices st) /\
    next h' = next h /\
    match uniq_get (canonical_key st) uniq with
    | Some first =>
        uniq' = uniq /\
        (forall l, l <> prices first -> deref h' l = deref h l) /\
        deref h' (prices first) = merge_prices (deref h (prices first)) (deref h (prices st))
    | None => uniq' = (uniq ++ [(canonical_key st, st)])%list /\ h' = h
    end.
Proof.
  destruct (uniq_get (canonical_key st) uniq) as [first|] eqn:Hget.
  - do 2 eexists. split; [exact (dedup_step_existing _ _ _ _ Hget)|].
    repeat split.
    + rewrite deref_write. destruct (decide (prices first = prices st)) as [Heq | _]; [|reflexivity].
      rewrite Heq. apply merge_prices_self.
    + intros l Hl. rewrite deref_write. now rewrite decide_False.
    + rewrite deref_write. now rewrite decide_True.
  - do 2 eexists. split; [exact (dedup_step_new _ _ _ Hget)|]. repeat split.
Qed.

End Merge.

(** ** The ranking of top_cmd *)

Section Ranking.

Abbreviation by_price := (fun r1 r2 : row => fst r1 <= fst r2).

Lemma insert_row_perm r l : insert_row r l ≡ₚ r :: l.
Proof.
  induction l as [|r' l IH]; simpl; [reflexivity|].
  destruct (fst r' <? fst r); [|reflexivity].
  rewrite IH. apply Permutation_swap.
Qed.

Lemma sort_rows_perm l : sort_rows l ≡ₚ l.
Proof.
  induction l as [|r l IH]; simpl; [reflexivity|].
  now rewrite insert_row_perm, IH.
Qed.

Lemma insert_row_sorted r l :
  StronglySorted by_price l -> StronglySorted by_price (insert_row r l).
Proof.
  induction 1 as [|r' l Hl IH Hall]; simpl.
  - repeat constructor.
  - destruct (Z.ltb_spec (fst r') (fst r)).
    + constructor; [exact IH|].
      rewrite insert_row_perm. constructor; [lia | exact Hall].
    + constructor; [now constructor|].
      constructor; [assumption|].
      eapply Forall_impl; [exact Hall|]. simpl. intros; lia.
Qed.

Lemma sort_rows_sorted l : StronglySorted by_price (sort_rows l).
Proof.
  induction l as [|r l IH]; simpl; [constructor | now apply insert_row_sorted].
Qed.

(** Stability: the rows of one price come out in the order they went in. *)
Lemma insert_row_stable p r l :
  filter (fun x : row => fst x = p) (insert_row r l) =
  filter (fun x : row => fst x = p) (r :: l).
Proof.
  induction l as [|r' l IH]; simpl; [reflexivity|].
  destruct (Z.ltb_spec (fst r') (fst r)); [|reflexivity].
  rewrite filter_cons, IH, !filter_cons.
  destruct (decide (fst r' = p)), (decide (fst r = p)); try reflexivity. lia.
Qed.

Lemma sort_rows_stable p l :
  filter (fun x : row => fst x = p) (sort_rows l) = filter (fun x : row => fst x = p) l.
Proof.
  induction l as [|r l IH]; simpl; [reflexivity|].
  now rewrite insert_row_stable, !filter_cons, IH.
Qed.

Lemma firstn_sorted n (l : list row) :
  StronglySorted by_price l -> StronglySorted by_price (firstn n l).
Proof.
  intros H. revert n. induction H as [|r l Hl IH Hall]; intros [|n]; simpl; try constructor.
  - apply IH.
  - apply Forall_forall. intros x Hx.
    rewrite Forall_forall in Hall. apply Hall. now apply (subseteq_take n l).
Qed.

Lemma filter_firstn_prefix {A} (P : A -> Prop) `{forall x, Decision (P x)} n (l : list A) :
  filter P (firstn n l) `prefix_of` filter P l.
Proof.
  revert n. induction l as [|x l IH]; intros [|n]; simpl;
    try apply prefix_nil.
  rewrite !filter_cons. destruct (decide (P x)); [apply prefix_cons|]; apply IH.
Qed.

Lemma elem_of_rows_of h stations fuel p st :
  (p, st) ∈ rows_of h stations fuel <->
  st ∈ stations /\ dict_get (deref h (prices st)) fuel = Some p.
Proof.
  unfold rows_of. rewrite list_elem_of_omap. split.
  - intros (st' & Hin & Hrow).
    destruct (dict_get (deref h (prices st')) fuel) as [p'|] eqn:E; [|discriminate].
    injection Hrow as <- <-. auto.
  - intros [Hin Hp]. exists st. now rewrite Hp.
Qed.

Lemma rows_of_sublist h stations fuel :
  map snd (rows_of h stations fuel) `sublist_of` stations.
Proof.
  unfold rows_of. induction stations as [|st l IH]; simpl; [constructor|].
  destruct (dict_get (deref h (prices st)) fuel); simpl.
  - now apply sublist_skip.
  - now apply sublist_cons.
Qed.

Lemma dict_get_Some (d : dict) k p : dict_get d k = Some p <-> d !! k = Some (Some p).
Proof.
  unfold dict_get. destruct (d !! k) as [[q|]|]; split; congruence.
Qed.

Lemma rows_of_cons h st l fuel :
  rows_of h (st :: l) fuel =
  match dict_get (deref h (prices st)) fuel with
  | Some p => (p, st) :: rows_of h l fuel
  | None => rows_of h l fuel
  end.
Proof.
  unfold rows_of. cbn [omap list_omap].
  now destruct (dict_get (deref h (prices st)) fuel).
Qed.

Lemma rows_of_stations h stations fuel :
  map snd (rows_of h stations fuel) =
  filter (fun st => is_Some (dict_get (deref h (prices st)) fuel)) stations.
Proof.
  induction stations as [|st l IH]; [reflexivity|].
  rewrite rows_of_cons, filter_cons.
  destruct (dict_get (deref h (prices st)) fuel) as [p|] eqn:E.
  - rewrite decide_True by eauto. simpl. now rewrite IH.
  - rewrite decide_False by (intros [? ?]; discriminate). exact IH.
Qed.

(** C2: the top-N rows are the first [n] of the stable ascending sort of the
    priced rows, and the priced rows are the records whose prices mapping
    holds the fuel, in dataset order. So the rows come from such records
    (with that price), are at most [n] and as many as [n] allows, are in
    non-decreasing order of price, keep for every price the order the
    dataset lists its records in, and are none when no record has the fuel
    priced; put before the rows that were cut off they are a sorted, stable
    rearrangement of all the priced rows. *)
Theorem top_rows_ranked (h : heap) (stations : list station) (fuel : string) (n : nat) :
  (forall p st, (p, st) ∈ top_rows h stations fuel n ->
                st ∈ stations /\ deref h (prices st) !! fuel = Some (Some p)) /\
  (length (top_rows h stations fuel n) <= n)%nat /\
  StronglySorted (fun r1 r2 : row => fst r1 <= fst r2) (top_rows h stations fuel n) /\
  (forall p,
      filter (fun r : row => fst r = p) (top_rows h stations fuel n)
        `prefix_of` filter (fun r : row => fst r = p) (rows_of h stations fuel)) /\
  map snd (rows_of h stations fuel) `sublist_of` stations /\
  ((forall st, st ∈ stations -> dict_get (deref h (prices st)) fuel = None) ->
   top_rows h stations fuel n = []) /\
  map snd (rows_of h stations fuel) =
    filter (fun st => is_Some (dict_get (deref h (prices st)) fuel)) stations /\
  (forall p st, (p, st) ∈ rows_of h stations fuel <->
                st ∈ stations /\ dict_get (deref h (prices st)) fuel = Some p) /\
  length (top_rows h stations fuel n) = Nat.min n (length (rows_of h stations fuel)) /\
  exists rest,
    (top_rows h stations fuel n ++ rest)%list ≡ₚ rows_of h stations fuel /\
    StronglySorted (fun r1 r2 : row => fst r1 <= fst r2)
                   (top_rows h stations fuel n ++ rest)%list /\
    forall p, filter (fun r : row => fst r = p) (top_rows h stations fuel n ++ rest)%list =
              filter (fun r : row => fst r = p) (rows_of h stations fuel).
Proof.
  unfold top_rows.
  refine (conj _ (conj _ (conj _ (conj _ (conj _ (conj _ (conj _ (conj _ (conj _ _))))))))).
  - intros p st H. apply subseteq_take in H.
    rewrite sort_rows_perm in H. apply elem_of_rows_of in H as [Hin H].
    split; [exact Hin | now apply dict_get_Some].
  - rewrite length_take. lia.
  - apply firstn_sorted, sort_rows_sorted.
  - intros p. rewrite <- (sort_rows_stable p (rows_of h stations fuel)).
    apply filter_firstn_prefix.
  - apply rows_of_sublist.
  - intros Hnone.
    assert (rows_of h stations fuel = []) as ->; [|now destruct n].
    destruct (rows_of h stations fuel) as [|[p st] l] eqn:E; [reflexivity|].
    assert ((p, st) ∈ rows_of h stations fuel) as Hin by (rewrite E; left).
    apply elem_of_rows_of in Hin as [Hin Hp]. rewrite (Hnone _ Hin) in Hp. discriminate.
  - apply rows_of_stations.
  - intros p st. apply elem_of_rows_of.
  - rewrite length_take. now rewrite (Permutation_length (sort_rows_perm _)).
  - exists (drop n (sort_rows (rows_of h stations fuel))). rewrite take_drop.
    split; [apply sort_rows_perm|]. split; [apply sort_rows_sorted|].
    intros p. apply sort_rows_stable.
Qed.

End Ranking.

(** ** The adapters *)

Section Adapters.

Lemma bind_returned {A B} (m : M A) (f : A -> M B) h a h1 :
  m h = (Returned a, h1) -> bind m f h = f a h1.
Proof. unfold bind. now intros ->. Qed.

Lemma bind_raised {A B} (m : M A) (f : A -> M B) h e h1 :
  m h = (Raised e, h1) -> bind m f h = (Raised e, h1).
Proof. unfold bind. now intros ->. Qed.

(** A loop whose body returns and keeps an invariant of the store returns
    and keeps it. *)
Lemma map_m_returns {A B} (f : A -> M B) (I : heap -> Prop) (Q : B -> Prop) (l : list A) :
  (forall a h, a ∈ l -> I h -> exists b h', f a h = (Returned b, h') /\ I h' /\ Q b) ->
  forall h, I h ->
  exists bs h', map_m f l h = (Returned bs, h') /\ I h' /\ Forall Q bs.
Proof.
  induction l as [|a l IH]; intros Hf h Hh.
  - exists [], h. repeat split; [assumption | constructor].
  - destruct (Hf a h) as (b & h1 & Hb & Hh1 & Qb); [left | assumption |].
    destruct (IH (fun a' h' Ha' => Hf a' h' (list_elem_of_further _ _ _ Ha')) h1 Hh1)
      as (bs & h2 & Hbs & Hh2 & Qbs).
    exists (b :: bs), h2. split; [|split; [assumption | now constructor]].
    cbn [map_m]. rewrite (bind_returned _ _ _ _ _ Hb), (bind_returned _ _ _ _ _ Hbs).
    reflexivity.
Qed.

Lemma chain_stations_run nm src (d : dict) addrs :
  forall h, exists h',
    chain_stations nm src d addrs h = (Returned (stations_from nm src (next h) addrs), h') /\
    next h' = (next h + length addrs)%nat /\
    forall l, objs h' !! l =
              if decide (next h <= l < next h + length addrs)%nat then Some d else objs h !! l.
Proof.
  unfold chain_stations. induction addrs as [|a rest IH]; intros h.
  - exists h. split; [reflexivity|]. split; [simpl; lia|].
    intros l. rewrite decide_False by (simpl; lia). reflexivity.
  - destruct (IH (Heap (<[next h := d]> (objs h)) (S (next h)))) as (h' & Hrun & Hnext & Hobjs).
    simpl next in *. simpl objs in *.
    exists h'. split; [|split].
    + cbn [map_m stations_from].
      rewrite (bind_returned _ _ h (Station nm a (next h) src EmptyString)
                 (Heap (<[next h := d]> (objs h)) (S (next h)))) by reflexivity.
      now rewrite (bind_returned _ _ _ _ _ Hrun).
    + simpl. lia.
    + intros l. rewrite Hobjs. simpl length.
      destruct (decide (next h = l)) as [<- | Hne].
      * rewrite lookup_insert_eq. rewrite (decide_True (P := (next h <= next h < _)%nat)) by lia.
        now destruct (decide _).
      * rewrite lookup_insert_ne by assumption.
        destruct (decide (S (next h) <= l < S (next h) + length rest)%nat),
                 (decide (next h <= l < next h + S (length rest))%nat);
          try reflexivity; lia.
Qed.

Lemma stations_from_fields nm src addrs :
  forall l0 st, st ∈ stations_from nm src l0 addrs ->
  name st = nm /\ source st = src /\ timestamp st = EmptyString /\
  (l0 <= prices st < l0 + length addrs)%nat.
Proof.
  induction addrs as [|a rest IH]; intros l0 st Hin; simpl in *.
  - now apply elem_of_nil in Hin.
  - apply elem_of_cons in Hin as [-> | Hin]; simpl.
    + repeat split; lia.
    + destruct (IH _ _ Hin) as (? & ? & ? & ?). repeat split; auto; lia.
Qed.

Lemma stations_from_prices nm src addrs :
  forall l0, map prices (stations_from nm src l0 addrs) = seq l0 (length addrs).
Proof.
  induction addrs as [|a rest IH]; intros l0; simpl; [reflexivity|]. now rewrite IH.
Qed.

Lemma stations_from_addresses nm src addrs :
  forall l0, map address (stations_from nm src l0 addrs) = addrs.
Proof.
  induction addrs as [|a rest IH]; intros l0; simpl; [reflexivity | now rewrite IH].
Qed.

Lemma chain_stations_addresses nm src (d : dict) addrs h :
  exists sts h',
    chain_stations nm src d addrs h = (Returned sts, h') /\ map address sts = addrs.
Proof.
  destruct (chain_stations_run nm src d addrs h) as (h' & Hrun & _).
  do 2 eexists. split; [exact Hrun | apply stations_from_addresses].
Qed.

Lemma chain_stations_copies nm src (d : dict) addrs h :
  exists sts h',
    chain_stations nm src d addrs h = (Returned sts, h') /\
    chain_copies nm src d h sts h' /\ map address sts = addrs.
Proof.
  destruct (chain_stations_run nm src d addrs h) as (h' & Hrun & Hnext & Hobjs).
  exists (stations_from nm src (next h) addrs), h'. split; [exact Hrun|].
  split; [|apply stations_from_addresses]. split.
  - rewrite stations_from_prices. apply NoDup_seq.
  - intros st Hin. destruct (stations_from_fields _ _ _ _ _ Hin) as (Hn & Hs & Ht & Hl).
    repeat split; try assumption; try lia.
    rewrite Hobjs. now rewrite decide_True.
Qed.

Lemma no_stations_copies nm src d h : chain_copies nm src d h [] h.
Proof.
  split; [constructor|]. intros st Hin. now apply elem_of_nil in Hin.
Qed.

Lemma lookup_grab found key (d : dict) k :
  grab found key d !! k =
  if decide (k = key) then
    match found with
    | Some tok => Some (parse_eur tok)
    | None => d !! k
    end
  else d !! k.
Proof.
  destruct found as [tok|]; simpl.
  - destruct (decide (k = key)) as [-> | Hk];
      [apply lookup_insert_eq | now apply lookup_insert_ne].
  - now destruct (decide (k = key)).
Qed.

Ltac grab_lookups :=
  rewrite ?lookup_grab;
  repeat match goal with
         | |- context [decide (?a = ?b)] =>
             destruct (decide (a = b)) as [? | ?]; try discriminate; try congruence
         end;
  rewrite ?lookup_empty.

Lemma circlek_prices_found sc :
  prices_found [("a95", ck_95 sc); ("a98", ck_98 sc); ("diesel", ck_d sc); ("lpg", ck_lpg sc)]
    (grab (ck_lpg sc) "lpg" (grab (ck_d sc) "diesel"
       (grab (ck_98 sc) "a98" (grab (ck_95 sc) "a95" ∅)))).
Proof.
  split.
  - intros key tok [H | [H | [H | [H | []]]]]; injection H as <- <-; grab_lookups;
      match goal with |- _ = parse_eur <$> ?t => now destruct t end.
  - simpl. intros key Hk. grab_lookups; try reflexivity; exfalso; apply Hk; subst; tauto.
Qed.

Lemma neste_prices_found sc :
  prices_found [("a95", n_95 sc); ("a98", n_98 sc); ("diesel", n_d sc)]
    (grab (n_d sc) "diesel" (grab (n_98 sc) "a98" (grab (n_95 sc) "a95" ∅))).
Proof.
  split.
  - intros key tok [H | [H | [H | []]]]; injection H as <- <-; grab_lookups;
      match goal with |- _ = parse_eur <$> ?t => now destruct t end.
  - simpl. intros key Hk. grab_lookups; try reflexivity; exfalso; apply Hk; subst; tauto.
Qed.

Lemma virsi_prices_found sc :
  prices_found [("a95", v_95 sc); ("a98", v_98 sc); ("diesel", v_d sc); ("lpg", v_lpg sc)]
    (grab (v_lpg sc) "lpg" (grab (v_d sc) "diesel"
       (grab (v_98 sc) "a98" (grab (v_95 sc) "a95" ∅)))).
Proof.
  split.
  - intros key tok [H | [H | [H | [H | []]]]]; injection H as <- <-; grab_lookups;
      match goal with |- _ = parse_eur <$> ?t => now destruct t end.
  - simpl. intros key Hk. grab_lookups; try reflexivity; exfalso; apply Hk; subst; tauto.
Qed.

(** C10: the records of one call of a chain adapter carry one name, one
    source and an empty timestamp, and each has a dict object of its own,
    made by the call, whose content is the chain-wide mapping the adapter
    built from the page: for Circle K, Neste and Virši a fuel is bound, to
    the parsed token, exactly when its token was found; for Viada the
    mapping is what the loop over the price tokens ends with. The records
    differ in the address (and in which copy they hold). A failed transport
    call gives no record. *)
Theorem chain_adapters_copy_prices (h : heap) :
  (forall sc, exists d sts h',
      fetch_circlek (Page sc) h = (Returned sts, h') /\
      chain_copies "Circle K" "circlek" d h sts h' /\
      prices_found [("a95", ck_95 sc); ("a98", ck_98 sc); ("diesel", ck_d sc);
                    ("lpg", ck_lpg sc)] d) /\
  (forall sc, exists d sts h',
      fetch_neste (Page sc) h = (Returned sts, h') /\
      chain_copies "Neste" "neste" d h sts h' /\
      prices_found [("a95", n_95 sc); ("a98", n_98 sc); ("diesel", n_d sc)] d) /\
  (forall sc, exists d sts h',
      fetch_virsi (Page sc) h = (Returned sts, h') /\
      chain_copies "Virši" "virsi" d h sts h' /\
      prices_found [("a95", v_95 sc); ("a98", v_98 sc); ("diesel", v_d sc);
                    ("lpg", v_lpg sc)] d) /\
  (forall sc sts h',
      fetch_viada (Page sc) h = (Returned sts, h') ->
      exists d, viada_prices ∅ (eur_tokens sc) = Returned d /\
                chain_copies "Viada" "viada" d h sts h') /\
  (forall e,
      fetch_circlek (GetFailed e) h = (Returned [], h) /\
      fetch_neste (GetFailed e) h = (Returned [], h) /\
      fetch_virsi (GetFailed e) h = (Returned [], h) /\
      fetch_viada (GetFailed e) h = (Returned [], h)).
Proof.
  refine (conj _ (conj _ (conj _ (conj _ _)))).
  - intros sc. eexists. unfold fetch_circlek.
    destruct (chain_stations_copies "Circle K" "circlek"
                (grab (ck_lpg sc) "lpg" (grab (ck_d sc) "diesel"
                   (grab (ck_98 sc) "a98" (grab (ck_95 sc) "a95" ∅))))
                (firstn 20 match ck_addrs sc with
                           | Some addrs => long_pieces (split_comma addrs)
                           | None => []
                           end) h) as (sts & h' & Hrun & Hcopies & _).
    exists sts, h'. split; [exact Hrun|]. split; [exact Hcopies|].
    apply circlek_prices_found.
  - intros sc. eexists. unfold fetch_neste.
    destruct (chain_stations_copies "Neste" "neste"
                (grab (n_d sc) "diesel" (grab (n_98 sc) "a98" (grab (n_95 sc) "a95" ∅)))
                (firstn 20 match n_addrs sc with
                           | Some addr_text => long_pieces (split_comma_semicolon addr_text)
                           | None => []
                           end) h) as (sts & h' & Hrun & Hcopies & _).
    exists sts, h'. split; [exact Hrun|]. split; [exact Hcopies|].
    apply neste_prices_found.
  - intros sc. eexists. unfold fetch_virsi.
    destruct (chain_stations_copies "Virši" "virsi"
                (grab (v_lpg sc) "lpg" (grab (v_d sc) "diesel"
                   (grab (v_98 sc) "a98" (grab (v_95 sc) "a95" ∅))))
                (firstn 10 (v_addrs sc)) h) as (sts & h' & Hrun & Hcopies & _).
    exists sts, h'. split; [exact Hrun|]. split; [exact Hcopies|].
    apply virsi_prices_found.
  - intros sc sts h' Hrun.
    unfold fetch_viada, bind, lift in Hrun.
    destruct (viada_prices ∅ (eur_tokens sc)) as [d | e]; [|discriminate].
    destruct (chain_stations_copies "Viada" "viada" d (firstn 20 (addr_matches sc)) h)
      as (sts' & h'' & Hrun' & Hcopies & _).
    rewrite Hrun' in Hrun. injection Hrun as <- <-. now exists d.
  - intros e. repeat split.
Qed.

(** *** Well-formed prices *)

Lemma dict_ok_empty : dict_ok ∅.
Proof. intros k v H. now rewrite lookup_empty in H. Qed.

Lemma dict_ok_insert (d : dict) k p :
  dict_ok d -> In k SUPPORTED_FUELS -> 0 <= p -> dict_ok (<[k := Some p]> d).
Proof.
  intros Hd Hk Hp j v. destruct (decide (k = j)) as [<- | Hne].
  - rewrite lookup_insert_eq. intros [= <-]. eauto.
  - rewrite lookup_insert_ne by assumption. apply Hd.
Qed.

Lemma deref_ok h l : heap_ok h -> dict_ok (deref h l).
Proof.
  intros Hh. unfold deref. destruct (objs h !! l) as [d|] eqn:E; simpl.
  - exact (Hh _ _ E).
  - apply dict_ok_empty.
Qed.

Lemma heap_ok_insert h l (d : dict) n :
  heap_ok h -> dict_ok d -> heap_ok (Heap (<[l := d]> (objs h)) n).
Proof.
  intros Hh Hd l' d'. simpl. destruct (decide (l = l')) as [<- | Hne].
  - rewrite lookup_insert_eq. now intros [= <-].
  - rewrite lookup_insert_ne by assumption. apply Hh.
Qed.

Lemma grab_ok found key (d : dict) :
  dict_ok d -> In key SUPPORTED_FUELS -> opt_token_ok found = true -> dict_ok (grab found key d).
Proof.
  intros Hd Hk Hf. destruct found as [tok|]; simpl in *; [|assumption].
  destruct (parse_eur_token _ Hf) as (p & -> & Hp). now apply dict_ok_insert.
Qed.

Lemma dict_ok_merge (existing incoming : dict) :
  dict_ok existing -> dict_ok incoming -> dict_ok (merge_prices existing incoming).
Proof.
  intros He Hi k v. rewrite lookup_merge_prices. unfold merged_value.
  destruct (incoming !! k) as [[p|]|] eqn:Ei; [| apply He | apply He].
  destruct (existing !! k) as [[old|]|] eqn:Ee.
  - destruct (p <? old); intros [= <-]; [exact (Hi _ _ Ei) | exact (He _ _ Ee)].
  - intros [= <-]. exact (Hi _ _ Ei).
  - intros [= <-]. exact (Hi _ _ Ei).
Qed.

Lemma absent_or_lower_ok key val (d : dict) :
  dict_ok d -> exists b, absent_or_lower key val d = Returned b.
Proof.
  intros Hd. unfold absent_or_lower. destruct (d !! key) as [[old|]|] eqn:E; eauto.
  destruct (Hd _ _ E) as (_ & p & Hp & _). discriminate.
Qed.

(** A token of the price pattern never makes the loop of [fetch_viada]
    compare with None. *)
Lemma viada_token_ok (d : dict) tok :
  dict_ok d -> decimal_token tok = true ->
  exists d', viada_token d tok = Returned d' /\ dict_ok d'.
Proof.
  intros Hd Htok. unfold viada_token.
  destruct (parse_eur_token _ Htok) as (val & -> & Hval).
  destruct (val <? 1000).
  - unfold absent_or_lower. destruct (d !! "lpg") as [[old|]|] eqn:E.
    + destruct (Hd _ _ E) as (_ & p & [= <-] & Hold).
      destruct (val <? old); eexists; (split; [reflexivity|]);
        apply dict_ok_insert; simpl; auto.
    + destruct (Hd _ _ E) as (_ & p & Hp & _). discriminate.
    + eexists. split; [reflexivity|]. apply dict_ok_insert; simpl; auto.
  - destruct (absent_or_lower_ok "a95" val d Hd) as (b95 & ->).
    assert (dict_ok (if b95 then <["a95" := Some val]> d else d)) as Hd1.
    { destruct b95; [apply dict_ok_insert; simpl; auto | assumption]. }
    destruct (absent_or_lower_ok "diesel" val _ Hd1) as (bd & ->).
    eexists. split; [reflexivity|].
    destruct bd; [apply dict_ok_insert; simpl; auto | assumption].
Qed.

Lemma viada_prices_ok toks :
  forall d : dict, dict_ok d -> forallb decimal_token toks = true ->
  exists d', viada_prices d toks = Returned d' /\ dict_ok d'.
Proof.
  induction toks as [|tok rest IH]; intros d Hd H; simpl in *; [eauto|].
  apply andb_prop in H as [Ht Hr].
  destruct (viada_token_ok d tok Hd Ht) as (d1 & -> & Hd1). now apply IH.
Qed.

Lemma chain_stations_ok nm src (d : dict) addrs h :
  heap_ok h -> dict_ok d ->
  exists sts h', chain_stations nm src d addrs h = (Returned sts, h') /\ heap_ok h'.
Proof.
  intros Hh Hd. destruct (chain_stations_run nm src d addrs h) as (h' & Hrun & _ & Hobjs).
  do 2 eexists. split; [exact Hrun|].
  intros l d' Hl. rewrite Hobjs in Hl.
  destruct (decide _); [now injection Hl as <- | exact (Hh _ _ Hl)].
Qed.

Lemma waze_station_ok m h :
  decimal_token (m_price m) = true -> heap_ok h ->
  exists st h', waze_station m h = (Returned st, h') /\ heap_ok h'.
Proof.
  intros Htok Hh. destruct (parse_eur_token _ Htok) as (p & Hp & Hpos).
  unfold waze_station. rewrite Hp. do 2 eexists. split; [reflexivity|].
  apply heap_ok_insert; [assumption|].
  repeat apply dict_ok_insert; simpl; auto using dict_ok_empty.
Qed.

Lemma fetch_gas_ok page h :
  match page with
  | Page ms => forallb (fun m => decimal_token (m_price m)) ms
  | GetFailed _ => true
  end = true ->
  heap_ok h ->
  exists sts h', fetch_gas_didnt_work page h = (Returned sts, h') /\ heap_ok h'.
Proof.
  intros Htok Hh. destruct page as [e | ms]; [now exists [], h|].
  destruct (map_m_returns waze_station heap_ok (fun _ => True) ms) with (h := h)
    as (sts & h' & Hrun & Hh' & _); [|assumption|eauto].
  intros m h0 Hm Hh0. rewrite forallb_forall in Htok.
  destruct (waze_station_ok m h0) as (st & h1 & ? & ?); [|assumption|eauto].
  apply Htok. now apply list_elem_of_In.
Qed.

Lemma fetch_circlek_ok page h :
  match page with
  | Page sc => opt_token_ok (ck_95 sc) && opt_token_ok (ck_98 sc) &&
               opt_token_ok (ck_d sc) && opt_token_ok (ck_lpg sc)
  | GetFailed _ => true
  end = true ->
  heap_ok h ->
  exists sts h', fetch_circlek page h = (Returned sts, h') /\ heap_ok h'.
Proof.
  intros Htok Hh. destruct page as [e | sc]; [now exists [], h|].
  apply andb_prop in Htok as [[[H95 H98]%andb_prop Hd]%andb_prop Hlpg].
  apply chain_stations_ok; [assumption|].
  repeat apply grab_ok; simpl; auto 6 using dict_ok_empty.
Qed.

Lemma fetch_neste_ok page h :
  match page with
  | Page sc => opt_token_ok (n_95 sc) && opt_token_ok (n_98 sc) && opt_token_ok (n_d sc)
  | GetFailed _ => true
  end = true ->
  heap_ok h ->
  exists sts h', fetch_neste page h = (Returned sts, h') /\ heap_ok h'.
Proof.
  intros Htok Hh. destruct page as [e | sc]; [now exists [], h|].
  apply andb_prop in Htok as [[H95 H98]%andb_prop Hd].
  apply chain_stations_ok; [assumption|].
  repeat apply grab_ok; simpl; auto 6 using dict_ok_empty.
Qed.

Lemma fetch_virsi_ok page h :
  match page with
  | Page sc => opt_token_ok (v_95 sc) && opt_token_ok (v_98 sc) &&
               opt_token_ok (v_d sc) && opt_token_ok (v_lpg sc)
  | GetFailed _ => true
  end = true ->
  heap_ok h ->
  exists sts h', fetch_virsi page h = (Returned sts, h') /\ heap_ok h'.
Proof.
  intros Htok Hh. destruct page as [e | sc]; [now exists [], h|].
  apply andb_prop in Htok as [[[H95 H98]%andb_prop Hd]%andb_prop Hlpg].
  apply chain_stations_ok; [assumption|].
  repeat apply grab_ok; simpl; auto 6 using dict_ok_empty.
Qed.

Lemma fetch_viada_returns page h :
  viada_tokens_ok page = true ->
  exists sts h', fetch_viada page h = (Returned sts, h') /\ (heap_ok h -> heap_ok h').
Proof.
  intros Htok. destruct page as [e | sc]; [now exists [], h|].
  destruct (viada_prices_ok (eur_tokens sc) ∅ dict_ok_empty Htok) as (d & Hd & Hok).
  unfold fetch_viada, bind, lift. rewrite Hd.
  destruct (chain_stations_run "Viada" "viada" d (firstn 20 (addr_matches sc)) h)
    as (h' & Hrun & _ & Hobjs).
  do 2 eexists. split; [exact Hrun|].
  intros Hh l d' Hl. rewrite Hobjs in Hl.
  destruct (decide _); [now injection Hl as <- | exact (Hh _ _ Hl)].
Qed.




End Adapters.

(** ** fetch_all as a whole *)

Section Aggregator.

Abbreviation keyed := (fun e : (string * string) * station => fst e = canonical_key (snd e)).

Lemma uniq_get_None key (uniq : uniq_map) :
  uniq_get key uniq = None <-> key ∉ map fst uniq.
Proof.
  induction uniq as [|[k st] rest IH]; simpl.
  - split; [intros _ H%elem_of_nil; exact H | reflexivity].
  - rewrite not_elem_of_cons. destruct (bool_decide_reflect (k = key)) as [-> | Hne].
    + split; [discriminate | intros [H _]; now destruct H].
    + rewrite IH. split; [intros H; split; [congruence | exact H] | intros [_ H]; exact H].
Qed.

(** The loop of the merge: it always ends, keeps the store well formed, and
    the keys of [uniq] are, without repetition, the keys met so far. *)
Lemma fold_dedup stations :
  forall (uniq : uniq_map) h,
  exists (uniq' : uniq_map) h',
    fold_m dedup_step uniq stations h = (Returned uniq', h') /\
    (heap_ok h -> heap_ok h') /\
    (NoDup (map fst uniq) -> NoDup (map fst uniq')) /\
    (Forall keyed uniq -> Forall keyed uniq') /\
    (forall k, k ∈ map fst uniq' <-> k ∈ map fst uniq \/ k ∈ map canonical_key stations).
Proof.
  induction stations as [|st rest IH]; intros uniq h.
  - exists uniq, h. do 4 (split; [auto; reflexivity|]).
    intros k. split; [intros Hk; now left|].
    intros [Hk | Hk%elem_of_nil]; [exact Hk | destruct Hk].
  - cbn [fold_m map]. destruct (uniq_get (canonical_key st) uniq) as [first|] eqn:Hget.
    + destruct (IH uniq (Heap (<[prices first :=
                   merge_prices (deref h (prices first)) (deref h (prices st))]> (objs h))
                   (next h))) as (uniq' & h' & Hrun & Hok & Hnd & Hkeyed & Hkeys).
      exists uniq', h'. refine (conj _ (conj _ (conj Hnd (conj Hkeyed _)))).
      * now rewrite (bind_returned _ _ _ _ _ (dedup_step_existing _ _ _ _ Hget)).
      * intros Hh. apply Hok. apply heap_ok_insert; [assumption|].
        apply dict_ok_merge; now apply deref_ok.
      * intros k. split.
        -- intros Hk. apply Hkeys in Hk as [Hk | Hk]; [now left | right; now right].
        -- intros [Hk | Hk]; apply Hkeys; [now left | ].
           apply elem_of_cons in Hk as [-> | Hk]; [left | now right].
           destruct (decide (canonical_key st ∈ map fst uniq)) as [Hin | Hout]; [exact Hin|].
           apply uniq_get_None in Hout. congruence.
    + destruct (IH (uniq ++ [(canonical_key st, st)])%list h)
        as (uniq' & h' & Hrun & Hok & Hnd & Hkeyed & Hkeys).
      exists uniq', h'. refine (conj _ (conj Hok (conj _ (conj _ _)))).
      * now rewrite (bind_returned _ _ _ _ _ (dedup_step_new _ _ _ Hget)).
      * intros Hu. apply Hnd. rewrite map_app. simpl.
        apply NoDup_app. split; [assumption|]. split; [|apply NoDup_singleton].
        intros k Hk Hk'. apply list_elem_of_singleton in Hk' as ->.
        now apply uniq_get_None in Hget.
      * intros Hu. apply Hkeyed. apply Forall_app. split; [assumption|].
        now constructor.
      * intros k. split.
        -- intros Hk. apply Hkeys in Hk as [Hk | Hk]; [|right; now right].
           rewrite map_app in Hk. apply elem_of_app in Hk as [Hk | Hk]; [now left|].
           right. apply list_elem_of_singleton in Hk as ->. now left.
        -- intros [Hk | Hk]; apply Hkeys.
           ++ left. rewrite map_app. apply elem_of_app. now left.
           ++ apply elem_of_cons in Hk as [-> | Hk]; [left | now right].
              rewrite map_app. apply elem_of_app. right. now left.
Qed.

Lemma dedup_run stations h :
  exists out h',
    dedup stations h = (Returned out, h') /\
    (heap_ok h -> heap_ok h') /\
    NoDup (map canonical_key out) /\
    (forall k, k ∈ map canonical_key out <-> k ∈ map canonical_key stations).
Proof.
  destruct (fold_dedup stations [] h) as (uniq & h' & Hrun & Hok & Hnd & Hkeyed & Hkeys).
  exists (map snd uniq), h'.
  assert (map canonical_key (map snd uniq) = map fst uniq) as Heq.
  { assert (Forall keyed uniq) as Hall by (apply Hkeyed; constructor). clear -Hall.
    rename Hall into Hkeyed.
    induction Hkeyed as [|e l He _ IH]; simpl; [reflexivity | now rewrite IH, He]. }
  refine (conj _ (conj Hok (conj _ _))).
  - unfold dedup. now rewrite (bind_returned _ _ _ _ _ Hrun).
  - rewrite Heq. apply Hnd. constructor.
  - rewrite Heq. intros k. split.
    + intros Hk. apply Hkeys in Hk as [Hk%elem_of_nil | Hk]; [destruct Hk | exact Hk].
    + intros Hk. apply Hkeys. now right.
Qed.

Lemma collect_app r1 r2 : collect (r1 ++ r2) = (collect r1 ++ collect r2)%list.
Proof. unfold collect. apply flat_map_app. Qed.

Lemma collect_nothing results :
  Forall (fun r => match r with Returned l => l = [] | Raised _ => True end) results ->
  collect results = [].
Proof.
  induction 1 as [|r rest Hr _ IH]; [reflexivity|].
  change (collect (r :: rest)) with
    ((match r with Returned l => l | Raised _ => [] end) ++ collect rest)%list.
  rewrite IH. destruct r as [l | e]; [now subst | reflexivity].
Qed.

(** C4: [fetch_all] always returns a list, whatever the adapters do; a
    result that is an exception counts as an empty one; with nothing but
    exceptions and empty lists the answer is the empty list; and leaving an
    adapter's result out can only remove station keys from the dataset,
    never add one. *)
Theorem fetch_all_never_raises :
  (forall pg h, exists out h', fetch_all pg h = (Returned out, h')) /\
  (forall results h, exists out h', merge_results results h = (Returned out, h')) /\
  (forall results h,
      Forall (fun r => match r with Returned l => l = [] | Raised _ => True end) results ->
      merge_results results h = (Returned [], h)) /\
  (forall e1 e2 e3 e4 e5 h,
      fetch_all (Pages (GetFailed e1) (GetFailed e2) (GetFailed e3) (GetFailed e4)
                       (GetFailed e5)) h = (Returned [], h)) /\
  (forall before after e h,
      merge_results (before ++ Raised e :: after) h = merge_results (before ++ after) h /\
      merge_results (before ++ Returned [] :: after) h = merge_results (before ++ after) h) /\
  (forall before r after h out h1 out' h2,
      merge_results (before ++ r :: after) h = (Returned out, h1) ->
      merge_results (before ++ after) h = (Returned out', h2) ->
      map canonical_key out' ⊆ map canonical_key out /\
      (length out' <= length out)%nat).
Proof.
  assert (forall results h, exists out h', merge_results results h = (Returned out, h')) as Hm.
  { intros results h. destruct (dedup_run (collect results) h) as (out & h' & Hrun & _).
    eauto. }
  assert (forall before r after k,
            k ∈ map canonical_key (collect (before ++ after)) ->
            k ∈ map canonical_key (collect (before ++ r :: after))) as Hsub.
  { intros before r after k. rewrite !collect_app, !map_app, !elem_of_app.
    intros [Hk | Hk]; [now left | right].
    change (collect (r :: after)) with (collect ([r] ++ after)).
    rewrite collect_app, map_app. apply elem_of_app. now right. }
  refine (conj _ (conj Hm (conj _ (conj _ (conj _ _))))).
  - intros pg h. unfold fetch_all, gather, bind, attempt, ret.
    destruct (fetch_gas_didnt_work (p_gas pg) h) as [r1 h1].
    destruct (fetch_circlek (p_circlek pg) h1) as [r2 h2].
    destruct (fetch_neste (p_neste pg) h2) as [r3 h3].
    destruct (fetch_virsi (p_virsi pg) h3) as [r4 h4].
    destruct (fetch_viada (p_viada pg) h4) as [r5 h5].
    apply Hm.
  - intros results h Hnone. unfold merge_results. now rewrite (collect_nothing _ Hnone).
  - reflexivity.
  - intros before after e h. unfold merge_results. now rewrite !collect_app.
  - intros before r after h out h1 out' h2 Hwith Hwithout.
    destruct (dedup_run (collect (before ++ r :: after)) h) as (o & g & Hrun & _ & _ & Hkeys).
    destruct (dedup_run (collect (before ++ after)) h) as (o' & g' & Hrun' & _ & Hnd & Hkeys').
    unfold merge_results in *. rewrite Hrun in Hwith. rewrite Hrun' in Hwithout.
    injection Hwith as <- <-. injection Hwithout as <- <-.
    assert (forall k, k ∈ map canonical_key o' -> k ∈ map canonical_key o) as Hincl.
    { intros k Hk. apply Hkeys, Hsub, Hkeys', Hk. }
    split; [exact Hincl|].
    rewrite <- (length_map canonical_key o'), <- (length_map canonical_key o).
    now apply submseteq_length, NoDup_submseteq.
Qed.

Lemma heap_ok_records h (sts : list station) :
  heap_ok h -> forall st, st ∈ sts -> dict_ok (deref h (prices st)).
Proof. intros Hh st _. now apply deref_ok. Qed.

(** C7 as stated fails: a page that lists 0.000 EUR yields a record, kept by
    the merge, whose price is zero. *)
Lemma zero_price_is_stored :
  ~ (forall pg h out h',
        fetch_all pg h = (Returned out, h') ->
        forall st, st ∈ out -> dict_positive (deref h' (prices st))).
Proof.
  intros H.
  specialize (H ex_zero_pages empty_heap
                [Station "Viada" "Rīga Krasta 1" 0%nat "viada" EmptyString]
                (snd (fetch_all ex_zero_pages empty_heap))).
  destruct (H ltac:(vm_compute; reflexivity) _ ltac:(left) "lpg" (Some 0))
    as (_ & p & [= <-] & Hp); [vm_compute; reflexivity | lia].
Qed.

(** C7, amended: on the tokens the price patterns capture, every record an
    adapter returns and every record [fetch_all] returns has a prices mapping
    whose keys are among a95, a98, diesel and lpg and whose values are
    numbers that are not negative (zero is possible). *)
Theorem prices_canonical_and_not_negative (pg : pages) (h : heap) :
  pages_tokens_ok pg = true ->
  heap_ok h ->
  (exists sts h', fetch_gas_didnt_work (p_gas pg) h = (Returned sts, h') /\
                  forall st, st ∈ sts -> dict_ok (deref h' (prices st))) /\
  (exists sts h', fetch_circlek (p_circlek pg) h = (Returned sts, h') /\
                  forall st, st ∈ sts -> dict_ok (deref h' (prices st))) /\
  (exists sts h', fetch_neste (p_neste pg) h = (Returned sts, h') /\
                  forall st, st ∈ sts -> dict_ok (deref h' (prices st))) /\
  (exists sts h', fetch_virsi (p_virsi pg) h = (Returned sts, h') /\
                  forall st, st ∈ sts -> dict_ok (deref h' (prices st))) /\
  (exists sts h', fetch_viada (p_viada pg) h = (Returned sts, h') /\
                  forall st, st ∈ sts -> dict_ok (deref h' (prices st))) /\
  (exists out h', fetch_all pg h = (Returned out, h') /\
                  forall st, st ∈ out -> dict_ok (deref h' (prices st))).
Proof.
  intros Htok Hh. unfold pages_tokens_ok in Htok.
  apply andb_prop in Htok as [[[[Hgas Hck]%andb_prop Hn]%andb_prop Hv]%andb_prop Hvi].
  refine (conj _ (conj _ (conj _ (conj _ (conj _ _))))).
  - destruct (fetch_gas_ok _ h Hgas Hh) as (sts & h' & Hrun & Hh').
    exists sts, h'. split; [exact Hrun | now apply heap_ok_records].
  - destruct (fetch_circlek_ok _ h Hck Hh) as (sts & h' & Hrun & Hh').
    exists sts, h'. split; [exact Hrun | now apply heap_ok_records].
  - destruct (fetch_neste_ok _ h Hn Hh) as (sts & h' & Hrun & Hh').
    exists sts, h'. split; [exact Hrun | now apply heap_ok_records].
  - destruct (fetch_virsi_ok _ h Hv Hh) as (sts & h' & Hrun & Hh').
    exists sts, h'. split; [exact Hrun | now apply heap_ok_records].
  - destruct (fetch_viada_returns _ h Hvi) as (sts & h' & Hrun & Hh').
    exists sts, h'. split; [exact Hrun | apply heap_ok_records; auto].
  - destruct (fetch_gas_ok _ h Hgas Hh) as (s1 & h1 & Hrun1 & Hh1).
    destruct (fetch_circlek_ok _ h1 Hck Hh1) as (s2 & h2 & Hrun2 & Hh2).
    destruct (fetch_neste_ok _ h2 Hn Hh2) as (s3 & h3 & Hrun3 & Hh3).
    destruct (fetch_virsi_ok _ h3 Hv Hh3) as (s4 & h4 & Hrun4 & Hh4).
    destruct (fetch_viada_returns _ h4 Hvi) as (s5 & h5 & Hrun5 & Hh5).
    destruct (dedup_run (collect [Returned s1; Returned s2; Returned s3; Returned s4;
                                  Returned s5]) h5) as (out & h' & Hrun & Hh' & _).
    exists out, h'. split; [|apply heap_ok_records; auto].
    unfold fetch_all, gather, bind, attempt, ret.
    rewrite Hrun1, Hrun2, Hrun3, Hrun4, Hrun5. exact Hrun.
Qed.

Lemma prices_canonical_and_not_negative_witness :
  pages_tokens_ok ex_pages = true /\ heap_ok empty_heap /\
  exists out h', fetch_all ex_pages empty_heap = (Returned out, h') /\
                 forall st, st ∈ out -> dict_ok (deref h' (prices st)).
Proof.
  assert (heap_ok empty_heap) as Hempty.
  { intros l d H. simpl in H. rewrite lookup_empty in H. discriminate. }
  split; [reflexivity|]. split; [exact Hempty|].
  exact (proj2 (proj2 (proj2 (proj2 (proj2
           (prices_canonical_and_not_negative ex_pages empty_heap eq_refl Hempty)))))).
Defined.

End Aggregator.

(** * Further properties of the code *)

(** ** Strings, once more *)

Section StringFacts2.

Lemma map_chars_idem (f : ascii -> ascii) s :
  (forall c, f (f c) = f c) -> map_chars f (map_chars f s) = map_chars f s.
Proof.
  intros Hf. induction s as [|c s IH]; simpl; [reflexivity | now rewrite Hf, IH].
Qed.

Lemma replace_comma_idem s : replace_comma (replace_comma s) = replace_comma s.
Proof.
  apply map_chars_idem. intros c.
  destruct c as [[] [] [] [] [] [] [] []]; reflexivity.
Qed.

(** A map on bytes that keeps the continuation bytes as such maps the
    characters one by one. *)
Lemma chars_map_chars (f : ascii -> ascii) s :
  (forall c, is_cont (f c) = is_cont c) ->
  chars (map_chars f s) = map (map_chars f) (chars s).
Proof.
  intros Hf. induction s as [|c r IH]; [reflexivity|].
  simpl. rewrite IH. destruct (chars r) as [|g gs]; [reflexivity|]. simpl.
  assert (starts_cont (map_chars f g) = starts_cont g) as ->
      by (destruct g; simpl; [reflexivity | apply Hf]).
  now destruct (starts_cont g).
Qed.

Lemma lstrip_chars_map (F : string -> string) l :
  (forall g, In g l -> is_space_char (F g) = is_space_char g) ->
  lstrip_chars (map F l) = map F (lstrip_chars l).
Proof.
  induction l as [|g l IH]; intros H; [reflexivity|]. simpl.
  rewrite (H g) by now left. destruct (is_space_char g); [|reflexivity].
  apply IH. intros g' Hg'. apply H. now right.
Qed.

Lemma rstrip_chars_map (F : string -> string) l :
  (forall g, In g l -> is_space_char (F g) = is_space_char g) ->
  rstrip_chars (map F l) = map F (rstrip_chars l).
Proof.
  induction l as [|g l IH]; intros H; [reflexivity|]. simpl.
  rewrite IH by (intros g' Hg'; apply H; now right).
  rewrite (H g) by now left.
  destruct (rstrip_chars l); simpl; [now destruct (is_space_char g) | reflexivity].
Qed.

Lemma In_lstrip_chars g l : In g (lstrip_chars l) -> In g l.
Proof.
  induction l as [|g' l IH]; simpl; [tauto|].
  destruct (is_space_char g'); [auto | tauto].
Qed.

(** Turning commas into dots changes no character into white space and no
    white space into something else. *)
Lemma replace_comma_space g :
  group g = true -> is_space_char (replace_comma g) = is_space_char g.
Proof.
  destruct g as [|a t]; [reflexivity|]. simpl. intros Ht.
  assert (replace_comma t = t) as Htail.
  { apply (map_chars_id _ is_cont); [|exact Ht].
    intros c. destruct c as [[] [] [] [] [] [] [] []]; vm_compute; congruence. }
  unfold replace_comma in *. simpl. rewrite Htail.
  destruct (Ascii.eqb a ",") eqn:Ea; [|reflexivity].
  apply Ascii.eqb_eq in Ea as ->.
  destruct t as [|b [|c [|d [|e t]]]]; reflexivity.
Qed.

Lemma strip_replace_comma s : strip (replace_comma s) = replace_comma (strip s).
Proof.
  assert (forall g, In g (chars s) -> is_space_char (replace_comma g) = is_space_char g) as Hsp.
  { intros g Hg. apply replace_comma_space.
    pose proof (groups_of_chunked _ (chunked_chars s)) as H.
    rewrite forallb_forall in H. now apply H. }
  unfold strip, replace_comma at 1. rewrite chars_map_chars.
  - fold (replace_comma). rewrite lstrip_chars_map by exact Hsp.
    rewrite rstrip_chars_map.
    + apply concat_strings_map_chars.
    + intros g Hg. apply Hsp. now apply In_lstrip_chars.
  - intros c. destruct c as [[] [] [] [] [] [] [] []]; reflexivity.
Qed.

End StringFacts2.

(** ** str.lower *)

Section Lowering.

(** White space has no case and is not skipped by the rule of the sigma. *)
Lemma space_inert g :
  is_space_char g = true ->
  is_capital_sigma g = false /\ lower_char g = [g] /\ lowered g = true /\
  cased g = false /\ case_ignorable g = false.
Proof.
  unfold is_space_char, is_capital_sigma, lower_char, lowered, cased, case_ignorable, has.
  destruct (code_point g) as [n|]; [|discriminate].
  intros H%in_ranges_listed. vm_compute in H.
  repeat (destruct H as [<- | H]; [vm_compute; auto|]). contradiction.
Qed.

Lemma lower_map_domain n l : lower_map n = Some l -> In n lower_domain.
Proof.
  unfold lower_map, lower_domain. destruct (N.eqb_spec n 304) as [-> | _]; [now left|].
  destruct (find _ lower_table) as [[[[lo hi] step] to]|] eqn:E; [|discriminate].
  intros _. right. apply find_some in E as [Hin H].
  apply andb_prop in H as [[H1%N.leb_le H2%N.leb_le]%andb_prop H3%N.eqb_eq].
  apply in_flat_map. exists (lo, hi, step, to). split; [exact Hin|].
  apply in_map_iff. exists (N.to_nat ((n - lo) / step)). split.
  - rewrite N2Nat.id. pose proof (N.div_mod' (n - lo) step) as Hd. rewrite H3 in Hd. lia.
  - assert ((n - lo) / step <= (hi - lo) / step)%N as Hle.
    { apply N.Div0.div_le_mono. lia. }
    set (q := ((n - lo) / step)%N) in *. set (q' := ((hi - lo) / step)%N) in *.
    clearbody q q'. apply in_seq. lia.
Qed.

Lemma lower_domain_forms :
  forallb (fun n => match lower_map n with
                    | Some l => lower_forms l
                    | None => true
                    end) lower_domain = true.
Proof. vm_compute. reflexivity. Qed.

(** The table maps to characters in lower case only, never to white space. *)
Lemma lower_map_forms n l : lower_map n = Some l -> lower_forms l = true.
Proof.
  intros H. pose proof (lower_map_domain _ _ H) as Hin.
  pose proof lower_domain_forms as Hall. rewrite forallb_forall in Hall.
  specialize (Hall _ Hin). now rewrite H in Hall.
Qed.

Lemma forallb_mapped {A B} (p : B -> bool) (f : A -> B) l :
  forallb p (map f l) = forallb (fun x => p (f x)) l.
Proof. induction l as [|x l IH]; simpl; [reflexivity | now rewrite IH]. Qed.

Lemma lower_one_cases b a g :
  lower_one b a g = [g] /\ lowered g = true \/
  lower_one b a g <> [] /\ forallb lower_form (lower_one b a g) = true.
Proof.
  unfold lower_one, is_capital_sigma, lower_char, lowered.
  destruct (code_point g) as [n|]; [|now left].
  destruct (N.eqb_spec n 931) as [-> | Hn].
  - right. split; [discriminate|]. now destruct (b && negb a).
  - destruct (lower_map n) as [l|] eqn:E; [|now left].
    right. apply lower_map_forms in E. unfold lower_forms in E.
    destruct l as [|m l]; [discriminate|]. split; [discriminate|].
    now rewrite forallb_mapped.
Qed.

Lemma lower_one_nonempty b a g : lower_one b a g <> [].
Proof. destruct (lower_one_cases b a g) as [[-> _] | [H _]]; [discriminate | exact H]. Qed.

Lemma lower_one_lowered b a g : forallb lowered (lower_one b a g) = true.
Proof.
  destruct (lower_one_cases b a g) as [[-> H] | [_ H]]; [simpl; now rewrite H|].
  rewrite forallb_forall in *. intros x Hx. specialize (H x Hx).
  unfold lower_form in H. now apply andb_prop in H as [[_ ?]%andb_prop _].
Qed.

Lemma lower_one_space b a g : is_space_char g = true -> lower_one b a g = [g].
Proof.
  intros (Hs & Hl & _)%space_inert. unfold lower_one. now rewrite Hs.
Qed.

Lemma lower_one_no_space b a g :
  is_space_char g = false ->
  forallb (fun x => negb (is_space_char x)) (lower_one b a g) = true.
Proof.
  intros Hg. destruct (lower_one_cases b a g) as [[-> _] | [_ H]]; [simpl; now rewrite Hg|].
  rewrite forallb_forall in *. intros x Hx. specialize (H x Hx).
  unfold lower_form in H. now apply andb_prop in H as [_ ?].
Qed.

Lemma lower_one_opens b a g :
  opens g = true -> forallb opens (lower_one b a g) = true.
Proof.
  intros Hg. destruct (lower_one_cases b a g) as [[-> _] | [_ H]]; [simpl; now rewrite Hg|].
  rewrite forallb_forall in *. intros x Hx. specialize (H x Hx).
  unfold lower_form in H. now apply andb_prop in H as [[? _]%andb_prop _].
Qed.

(** Characters in lower case stay as they are. *)
Lemma lower_chars_lowered l : forallb lowered l = true -> forall b, lower_chars b l = l.
Proof.
  induction l as [|g l IH]; intros H b; [reflexivity|]. simpl in *.
  apply andb_prop in H as [Hg Hl]. rewrite (IH Hl).
  assert (lower_one b (cased_ahead l) g = [g]) as ->; [|reflexivity].
  unfold lower_one, is_capital_sigma, lower_char. unfold lowered in Hg.
  destruct (code_point g) as [n|]; [|reflexivity].
  destruct (lower_map n); [discriminate|]. apply negb_true_iff in Hg. now rewrite Hg.
Qed.

Lemma lower_chars_all_lowered l : forall b, forallb lowered (lower_chars b l) = true.
Proof.
  induction l as [|g l IH]; intros b; [reflexivity|]. simpl.
  now rewrite forallb_app, lower_one_lowered, IH.
Qed.

Lemma opens_lower_chars l :
  forallb opens l = true -> forall b, forallb opens (lower_chars b l) = true.
Proof.
  induction l as [|g l IH]; intros H b; [reflexivity|]. simpl in *.
  apply andb_prop in H as [Hg Hl].
  now rewrite forallb_app, (lower_one_opens _ _ _ Hg), (IH Hl).
Qed.

Lemma chunked_of_opens l : forallb opens l = true -> chunked l = true.
Proof.
  destruct l as [|g l]; [reflexivity|]. simpl. unfold opens at 1.
  now intros [[-> _]%andb_prop ->]%andb_prop.
Qed.

Lemma chunked_lower_chars l b : chunked l = true -> chunked (lower_chars b l) = true.
Proof.
  destruct l as [|g l]; [reflexivity|]. simpl. intros [Hg Hl]%andb_prop.
  pose proof (opens_lower_chars _ Hl (if case_ignorable g then b else cased g)) as Hrest.
  destruct (lower_one_cases b (cased_ahead l) g) as [[-> _] | [_ H]].
  - simpl. now rewrite Hg, Hrest.
  - apply chunked_of_opens. rewrite forallb_app, Hrest, andb_true_r.
    rewrite forallb_forall in *. intros x Hx. specialize (H x Hx).
    unfold lower_form in H. now apply andb_prop in H as [[? _]%andb_prop _].
Qed.

Lemma chars_lower s : chars (lower s) = lower_chars false (chars s).
Proof. unfold lower. apply chars_concat, chunked_lower_chars, chunked_chars. Qed.

Lemma lower_idem s : lower (lower s) = lower s.
Proof.
  unfold lower at 1. rewrite chars_lower.
  now rewrite lower_chars_lowered by apply lower_chars_all_lowered.
Qed.

(** *** Lower-casing and trimming commute *)

Lemma lstrip_lower_chars l :
  lstrip_chars (lower_chars false l) = lower_chars false (lstrip_chars l).
Proof.
  induction l as [|g l IH]; [reflexivity|].
  destruct (is_space_char g) eqn:Hg.
  - destruct (space_inert _ Hg) as (_ & _ & _ & Hc & Hi).
    simpl. rewrite (lower_one_space _ _ _ Hg), Hi, Hc, Hg. simpl. now rewrite Hg.
  - change (lstrip_chars (g :: l)) with (if is_space_char g then lstrip_chars l else g :: l).
    rewrite Hg. simpl.
    pose proof (lower_one_nonempty false (cased_ahead l) g) as Hne.
    pose proof (lower_one_no_space false (cased_ahead l) g Hg) as Hns.
    destruct (lower_one false (cased_ahead l) g) as [|x out]; [now destruct Hne|].
    simpl in *. apply andb_prop in Hns as [Hx _]. apply negb_true_iff in Hx.
    now rewrite Hx.
Qed.

Lemma rstrip_chars_nil l : rstrip_chars l = [] -> forallb is_space_char l = true.
Proof.
  induction l as [|g l IH]; [reflexivity|]. simpl.
  destruct (rstrip_chars l); [|discriminate].
  destruct (is_space_char g); [intros _; now apply IH | discriminate].
Qed.

Lemma lower_chars_spaces l :
  forallb is_space_char l = true -> forall b, lower_chars b l = l.
Proof.
  intros H. apply lower_chars_lowered. rewrite forallb_forall in *.
  intros g Hg. now apply space_inert, H.
Qed.

Lemma cased_ahead_rstrip l : cased_ahead (rstrip_chars l) = cased_ahead l.
Proof.
  induction l as [|g l IH]; [reflexivity|]. simpl.
  destruct (rstrip_chars l) as [|x r].
  - simpl in IH. rewrite <- IH. destruct (is_space_char g) eqn:Hg.
    + destruct (space_inert _ Hg) as (_ & _ & _ & -> & ->). reflexivity.
    + simpl. now destruct (case_ignorable g).
  - simpl in *. now rewrite IH.
Qed.

Lemma rstrip_chars_app_keep (X Y : list string) :
  rstrip_chars Y <> [] -> rstrip_chars (X ++ Y) = (X ++ rstrip_chars Y)%list.
Proof.
  intros HY. induction X as [|x X IH]; [reflexivity|]. simpl. rewrite IH.
  destruct (X ++ rstrip_chars Y)%list eqn:E; [|reflexivity].
  apply app_eq_nil in E as [_ E]. now destruct HY.
Qed.

Lemma rstrip_chars_app_drop (X Y : list string) :
  rstrip_chars Y = [] -> rstrip_chars (X ++ Y) = rstrip_chars X.
Proof.
  intros HY. induction X as [|x X IH]; [exact HY|]. simpl. now rewrite IH.
Qed.

Lemma rstrip_chars_no_space l :
  forallb (fun x => negb (is_space_char x)) l = true -> rstrip_chars l = l.
Proof.
  induction l as [|g l IH]; [reflexivity|]. simpl. intros [Hg Hl]%andb_prop.
  rewrite (IH Hl). apply negb_true_iff in Hg. rewrite Hg. now destruct l.
Qed.

Lemma rstrip_lower_chars l :
  forall b, rstrip_chars (lower_chars b l) = lower_chars b (rstrip_chars l).
Proof.
  induction l as [|g l IH]; intros b; [reflexivity|].
  cbn [lower_chars]. set (b' := if case_ignorable g then b else cased g).
  rewrite <- (cased_ahead_rstrip l).
  cbn [rstrip_chars]. destruct (rstrip_chars l) as [|x r] eqn:E.
  - rewrite (lower_chars_spaces _ (rstrip_chars_nil _ E)).
    rewrite (rstrip_chars_app_drop _ _ E). simpl cased_ahead.
    destruct (is_space_char g) eqn:Hg.
    + now rewrite (lower_one_space _ _ _ Hg); simpl; rewrite Hg.
    + rewrite (rstrip_chars_no_space _ (lower_one_no_space b false g Hg)).
      simpl. now rewrite app_nil_r.
  - specialize (IH b'). rewrite rstrip_chars_app_keep.
    + rewrite IH. reflexivity.
    + rewrite IH. cbn [lower_chars]. intros H%app_eq_nil.
      now apply (lower_one_nonempty _ _ _ (proj1 H)).
Qed.

(** Trimming and lower-casing commute. *)
Lemma lower_strip_comm s : lower (strip s) = strip (lower s).
Proof.
  unfold lower at 1, strip at 2. rewrite strip_chars, chars_lower.
  now rewrite lstrip_lower_chars, rstrip_lower_chars.
Qed.

End Lowering.

(** ** parse_eur and format_price *)

Section Formatting.

(** X1: [parse_eur] does not tell a comma from a dot nor see white space
    around the number. *)
Theorem parse_eur_comma_space_blind (s : string) :
  parse_eur (replace_comma s) = parse_eur s /\
  parse_eur (strip s) = parse_eur s.
Proof.
  unfold parse_eur. split.
  - now rewrite replace_comma_idem.
  - rewrite <- strip_replace_comma. now rewrite strip_idem.
Qed.

Lemma digits_value_app a b : forall acc,
  digits_value acc (a ++ b) = digits_value (digits_value acc a) b.
Proof.
  induction a as [|c a IH]; intros acc; [reflexivity|].
  change (String c a ++ b) with (String c (a ++ b)). simpl. apply IH.
Qed.

Lemma string_of_uint_digits d : forall_chars is_digit (string_of_uint d) = true.
Proof. induction d; simpl; auto. Qed.

Lemma digits_value_uint_acc d : forall acc,
  digits_value (Zpos acc) (string_of_uint d) = Zpos (Pos.of_uint_acc d acc).
Proof.
  induction d; intros acc; simpl; [reflexivity | ..];
    rewrite <- IHd; f_equal; unfold digit_val; simpl; lia.
Qed.

Lemma digits_value_uint d : digits_value 0 (string_of_uint d) = Z.of_N (Pos.of_uint d).
Proof.
  induction d; simpl; [reflexivity | exact IHd | ..];
    rewrite <- digits_value_uint_acc; reflexivity.
Qed.

Lemma digit_char_spec k :
  0 <= k <= 9 -> is_digit (digit_char k) = true /\ digit_val (digit_char k) = k.
Proof.
  intros Hk.
  assert (k = 0 \/ k = 1 \/ k = 2 \/ k = 3 \/ k = 4 \/ k = 5 \/ k = 6 \/ k = 7 \/
          k = 8 \/ k = 9) as Hcases by lia.
  repeat (destruct Hcases as [-> | Hcases]; [split; reflexivity|]).
  subst. split; reflexivity.
Qed.

Lemma thousandths_digits a :
  0 <= a ->
  10 * (10 * (10 * (a / 1000) + (a mod 1000) / 100) + (a mod 1000) / 10 mod 10)
  + (a mod 1000) mod 10 = a.
Proof.
  intros Ha.
  pose proof (Z.div_mod a 1000 ltac:(lia)).
  pose proof (Z.mod_pos_bound a 1000 ltac:(lia)).
  set (f := a mod 1000) in *. set (q := a / 1000) in *.
  pose proof (Z.div_mod f 100 ltac:(lia)).
  pose proof (Z.mod_pos_bound f 100 ltac:(lia)).
  pose proof (Z.div_mod f 10 ltac:(lia)).
  pose proof (Z.mod_pos_bound f 10 ltac:(lia)).
  pose proof (Z.div_mod (f / 10) 10 ltac:(lia)).
  pose proof (Z.mod_pos_bound (f / 10) 10 ltac:(lia)).
  set (q2 := f / 100) in *. set (r2 := f mod 100) in *.
  set (q1 := f / 10) in *. set (r1 := f mod 10) in *.
  set (q3 := q1 / 10) in *. set (r3 := q1 mod 10) in *.
  clearbody q r2 q2 q1 r1 q3 r3 f.
  lia.
Qed.

(** The float read from a sign, digits, a dot and digits. *)
Lemma float_of_signed_digits (neg : bool) ip fp :
  forall_chars is_digit ip = true -> forall_chars is_digit fp = true -> fp <> EmptyString ->
  let s := (if neg then "-" else EmptyString) ++ ip ++ "." ++ fp in
  strip (replace_comma s) = s /\
  float_of_string s =
  Some (Decimal (if neg then - digits_value 0 (ip ++ fp) else digits_value 0 (ip ++ fp))
                (0 - Z.of_nat (String.length fp))).
Proof.
  intros Hip Hfp Hne s.
  assert (forall_chars (fun c => is_digit c || Ascii.eqb c "." || Ascii.eqb c "-") s = true)
    as Hchars.
  { set (p := fun c => is_digit c || Ascii.eqb c "." || Ascii.eqb c "-").
    assert (forall_chars p (if neg then "-" else EmptyString) = true) as H1
        by now destruct neg.
    assert (forall_chars p ip = true) as H2
        by (eapply forall_chars_impl; [|exact Hip]; unfold p; now intros c ->).
    assert (forall_chars p fp = true) as H3
        by (eapply forall_chars_impl; [|exact Hfp]; unfold p; now intros c ->).
    unfold s. now rewrite !forall_chars_app, H1, H2, H3. }
  assert (strip s = s) as Hstrip.
  { apply strip_no_space. eapply forall_chars_impl; [|exact Hchars].
    intros c [[Hc | Hc]%orb_prop | Hc]%orb_prop.
    - now apply is_digit_is_plain in Hc.
    - apply Ascii.eqb_eq in Hc as ->. reflexivity.
    - apply Ascii.eqb_eq in Hc as ->. reflexivity. }
  assert (number_text s = s) as Htext.
  { apply number_text_plain. eapply forall_chars_impl; [|exact Hchars].
    intros c [[Hc | Hc]%orb_prop | Hc]%orb_prop.
    - apply is_digit_is_plain in Hc as [[Ha _]%andb_prop Hs]. now rewrite Ha, Hs.
    - apply Ascii.eqb_eq in Hc as ->. reflexivity.
    - apply Ascii.eqb_eq in Hc as ->. reflexivity. }
  split.
  { unfold replace_comma. erewrite map_chars_id; [exact Hstrip | | exact Hchars].
    intros c [[Hc | Hc]%orb_prop | Hc]%orb_prop.
    - apply is_digit_plain in Hc as (_ & -> & _). reflexivity.
    - apply Ascii.eqb_eq in Hc as ->. reflexivity.
    - apply Ascii.eqb_eq in Hc as ->. reflexivity. }
  unfold float_of_string. rewrite Htext. unfold float_of_text.
  assert (take_sign s = (neg, ip ++ "." ++ fp)) as ->.
  { unfold s. destruct neg; [reflexivity|].
    change (EmptyString ++ ip ++ "." ++ fp) with (ip ++ "." ++ fp).
    destruct ip as [|c ip]; [reflexivity|].
    simpl in Hip. apply andb_prop in Hip as [Hc _].
    exact (take_sign_digit c _ Hc). }
  change (ip ++ "." ++ fp) with (ip ++ String "." fp).
  rewrite (digitpart_digits ip (String "." fp) Hip) by (split; reflexivity).
  pose proof (digitpart_digits fp EmptyString Hfp I) as Hd.
  rewrite string_app_nil_r in Hd. cbv iota beta. rewrite Hd.
  simpl take_exponent. cbv iota beta.
  destruct fp as [|c fp]; [now destruct Hne|]. now destruct ip.
Qed.

(** X2: reading back what [format_price] prints for a number gives the
    number: [parse_eur] inverts the three-digit format, for every price. *)
Theorem parse_eur_format_3f (x : price) : parse_eur (format_3f x) = Some x.
Proof.
  unfold format_3f.
  set (a := Z.abs x). set (f := a mod 1000). set (q := a / 1000).
  assert (0 <= f < 1000) as Hf by (apply Z.mod_pos_bound; lia).
  destruct (digit_char_spec (f / 100)) as [Hd2 Hv2];
    [Z.to_euclidean_division_equations; lia|].
  destruct (digit_char_spec (f / 10 mod 10)) as [Hd1 Hv1];
    [Z.to_euclidean_division_equations; lia|].
  destruct (digit_char_spec (f mod 10)) as [Hd0 Hv0];
    [Z.to_euclidean_division_equations; lia|].
  set (fp := String (digit_char (f / 100))
               (String (digit_char (f / 10 mod 10)) (String (digit_char (f mod 10)) EmptyString))).
  set (ip := string_of_uint (N.to_uint (Z.to_N q))).
  assert (forall_chars is_digit fp = true) as Hfp by (simpl; now rewrite Hd2, Hd1, Hd0).
  destruct (float_of_signed_digits (x <? 0) ip fp (string_of_uint_digits _) Hfp)
    as [Hclean Hfloat]; [discriminate|].
  unfold parse_eur. rewrite Hclean, Hfloat. f_equal.
  unfold round3. simpl mant. simpl expo.
  replace (0 - Z.of_nat (String.length fp) + 3) with 0 by reflexivity.
  simpl (0 <=? 0). cbv iota. rewrite Z.pow_0_r, Z.mul_1_r.
  assert (digits_value 0 (ip ++ fp) = a) as Hval.
  { rewrite digits_value_app. unfold ip. rewrite digits_value_uint.
    change (Pos.of_uint (N.to_uint (Z.to_N q))) with (N.of_uint (N.to_uint (Z.to_N q))).
    rewrite DecimalN.Unsigned.of_to.
    assert (0 <= q) by (apply Z.div_pos; lia). rewrite Z2N.id by assumption.
    unfold fp. simpl. rewrite Hv2, Hv1, Hv0.
    unfold q, f. apply thousandths_digits. unfold a. lia. }
  rewrite Hval. unfold a.
  destruct (Z.ltb_spec x 0); change (0 <=? 0 - Z.of_nat 3 + 3) with true; cbv iota; lia.
Qed.

End Formatting.

(** ** normalize_fuel_type, beyond the alias tables *)

Section Normalizer2.

Lemma first_alias_sound t table k :
  first_alias t table = Some k -> exists aliases, In (k, aliases) table /\ In t aliases.
Proof.
  induction table as [|[key aliases] rest IH]; simpl; [discriminate|].
  destruct (mem t aliases) eqn:E.
  - intros [= <-]. exists aliases. split; [now left | now apply mem_In].
  - intros H. destruct (IH H) as (a & Hin & Ht). exists a. split; [now right | exact Ht].
Qed.

Lemma first_alias_none_inv t table :
  first_alias t table = None ->
  forall key aliases, In (key, aliases) table -> ~ In t aliases.
Proof.
  induction table as [|[key aliases] rest IH]; simpl; [intros _ ? ? []|].
  destruct (mem t aliases) eqn:E; [discriminate|].
  intros H k a [[= <- <-] | Hin].
  - intros Ht%mem_In. congruence.
  - exact (IH H k a Hin).
Qed.

Lemma canonical_keys key aliases :
  In (key, aliases) FUEL_ALIASES -> In key SUPPORTED_FUELS /\ In key aliases.
Proof.
  unfold FUEL_ALIASES. simpl.
  intros [H | [H | [H | [H | []]]]]; injection H as <- <-; simpl; tauto.
Qed.

Lemma normalize_in_supported s k :
  normalize_fuel_type s = Some k -> In k SUPPORTED_FUELS.
Proof.
  intros H. unfold normalize_fuel_type in H.
  destruct (first_alias _ FUEL_ALIASES) as [key|] eqn:E.
  - injection H as <-. destruct (first_alias_sound _ _ _ E) as (a & Hin & _).
    now apply canonical_keys in Hin.
  - destruct (mem _ ["95e"; "95m"; "a95e"]); [injection H as <-; simpl; tauto|].
    destruct (mem _ ["98e"; "98m"; "a98e"]); [injection H as <-; simpl; tauto|].
    destruct (mem _ SUPPORTED_FUELS) eqn:Em; [|discriminate].
    injection H as <-. now apply mem_In.
Qed.

(** X3: whatever the label, the answer is one of a95, a98, diesel and lpg,
    and such an answer is its own normal form: normalizing twice is
    normalizing once. *)
Theorem normalize_closed_idempotent (s : option string) (k : string) :
  normalize_fuel_type s = Some k ->
  In k SUPPORTED_FUELS /\ normalize_fuel_type (Some k) = Some k.
Proof.
  intros H. pose proof (normalize_in_supported _ _ H) as Hk.
  split; [exact Hk|].
  simpl in Hk. destruct Hk as [<- | [<- | [<- | [<- | []]]]]; reflexivity.
Qed.

Lemma normalize_closed_idempotent_witness :
  normalize_fuel_type (Some " DIESEL ") = Some "diesel" /\
  In "diesel" SUPPORTED_FUELS /\ normalize_fuel_type (Some "diesel") = Some "diesel".
Proof.
  split; [reflexivity|].
  exact (normalize_closed_idempotent (Some " DIESEL ") "diesel" eq_refl).
Defined.

(** X4: a label is understood exactly when its trimmed, lower-cased form is
    an alias of the fuel or one of the loose forms 95m, a95e (for a95) and
    98m, a98e (for a98); the closing test against the canonical set never
    adds a label, since each canonical id is among its own aliases. *)
Theorem normalize_fuel_type_exactly (s k : string) :
  normalize_fuel_type (Some s) = Some k <->
  (exists aliases, In (k, aliases) FUEL_ALIASES /\ In (lower (strip s)) aliases) \/
  (k = "a95" /\ In (lower (strip s)) ["95m"; "a95e"]) \/
  (k = "a98" /\ In (lower (strip s)) ["98m"; "a98e"]).
Proof.
  unfold normalize_fuel_type. simpl default. split.
  - destruct (first_alias (lower (strip s)) FUEL_ALIASES) as [key|] eqn:E.
    + intros [= <-]. left. now apply first_alias_sound.
    + pose proof (first_alias_none_inv _ _ E) as Hnone.
      destruct (mem _ ["95e"; "95m"; "a95e"]) eqn:E95.
      { intros [= <-]. right. left. split; [reflexivity|].
        apply mem_In in E95. simpl in E95. destruct E95 as [H | [H | [H | []]]];
          simpl; auto.
        exfalso. apply (Hnone "a95" _ ltac:(left; reflexivity)).
        rewrite <- H. simpl. tauto. }
      destruct (mem _ ["98e"; "98m"; "a98e"]) eqn:E98.
      { intros [= <-]. right. right. split; [reflexivity|].
        apply mem_In in E98. simpl in E98. destruct E98 as [H | [H | [H | []]]];
          simpl; auto.
        exfalso. apply (Hnone "a98" _ ltac:(right; left; reflexivity)).
        rewrite <- H. simpl. tauto. }
      destruct (mem _ SUPPORTED_FUELS) eqn:Es; [|discriminate].
      intros _. exfalso. apply mem_In in Es.
      assert (exists aliases, In (lower (strip s), aliases) FUEL_ALIASES) as (a & Ha).
      { simpl in Es. destruct Es as [<- | [<- | [<- | [<- | []]]]];
          eexists; unfold FUEL_ALIASES; simpl; eauto 6. }
      apply (Hnone _ _ Ha). now apply canonical_keys in Ha.
  - intros [(aliases & Hk & Ht) | [[-> Ht] | [-> Ht]]].
    + now rewrite (first_alias_hit _ _ _ Hk Ht).
    + simpl in Ht. destruct Ht as [<- | [<- | []]]; reflexivity.
    + simpl in Ht. destruct Ht as [<- | [<- | []]]; reflexivity.
Qed.

(** X5: the case of the letters and the white space around a label play no
    part in the answer. *)
Theorem normalize_fuel_type_case_space (s : string) :
  normalize_fuel_type (Some (strip s)) = normalize_fuel_type (Some s) /\
  normalize_fuel_type (Some (lower s)) = normalize_fuel_type (Some s).
Proof.
  unfold normalize_fuel_type. simpl default. split.
  - now rewrite strip_idem.
  - now rewrite (lower_strip_comm (lower s)), lower_idem, <- lower_strip_comm.
Qed.

End Normalizer2.

(** ** chunk_text *)

Section Chunks.

Abbreviation newline := (String "010" EmptyString).

Lemma string_app_assoc (a b c : string) : (a ++ b) ++ c = a ++ (b ++ c).
Proof.
  induction a as [|x a IH]; [reflexivity|].
  change (String x ((a ++ b) ++ c) = String x (a ++ (b ++ c))). now rewrite IH.
Qed.

Lemma len_app a b : len (a ++ b) = (len a + len b)%nat.
Proof.
  induction a as [|x a IH]; [reflexivity|].
  change (String x a ++ b) with (String x (a ++ b)). simpl.
  rewrite IH. now destruct (_ && _).
Qed.

Lemma concat_strings_snoc buf acc :
  concat_strings (buf ++ [acc]) = concat_strings buf ++ acc.
Proof.
  induction buf as [|c buf IH]; simpl.
  - apply string_app_nil_r.
  - now rewrite IH, string_app_assoc.
Qed.

Lemma nonempty_false s : nonempty s = false -> s = EmptyString.
Proof. now destruct s. Qed.

(** What the loop keeps: the text gathered so far is the chunks put aside
    followed by the chunk being filled. *)
Lemma chunk_fold_content limit lines :
  forall buf acc,
    let '(buf', acc') := fold_left (chunk_step limit) lines (buf, acc) in
    concat_strings buf' ++ acc' =
    (concat_strings buf ++ acc) ++ concat_strings (map (fun l => l ++ newline) lines).
Proof.
  induction lines as [|line rest IH]; intros buf acc; simpl.
  - now rewrite string_app_nil_r.
  - destruct (limit <? Z.of_nat (len acc) + Z.of_nat (len line) + 1).
    + specialize (IH (buf ++ [acc])%list (EmptyString ++ line ++ newline)).
      destruct (fold_left _ rest _) as [buf' acc']. rewrite IH.
      rewrite concat_strings_snoc. now rewrite !string_app_assoc.
    + specialize (IH buf (acc ++ line ++ newline)).
      destruct (fold_left _ rest _) as [buf' acc']. rewrite IH.
      now rewrite !string_app_assoc.
Qed.

(** X6: cutting loses nothing and adds nothing: the chunks, put end to end,
    are the lines in their order, each followed by a line feed. *)
Theorem chunk_text_keeps_content (limit : Z) :
  (forall lines,
      concat_strings (chunk_lines lines limit) =
      concat_strings (map (fun l => l ++ String "010" EmptyString) lines)) /\
  (forall text,
      concat_strings (chunk_text text limit) =
      concat_strings (map (fun l => l ++ String "010" EmptyString) (splitlines text))).
Proof.
  assert (forall lines,
      concat_strings (chunk_lines lines limit) =
      concat_strings (map (fun l => l ++ newline) lines)) as H.
  { intros lines. unfold chunk_lines.
    pose proof (chunk_fold_content limit lines [] EmptyString) as Hfold.
    destruct (fold_left _ lines _) as [buf acc]. simpl in Hfold.
    destruct (nonempty acc) eqn:E.
    - now rewrite concat_strings_snoc.
    - apply nonempty_false in E. subst. now rewrite string_app_nil_r in Hfold. }
  split; [exact H | intros text; apply H].
Qed.

(** The chunk being filled is empty or holds a character, and fits; the
    chunks put aside hold a character and fit. *)
Lemma chunk_fold_sizes limit lines :
  (forall line, line ∈ lines -> Z.of_nat (len line) + 1 <= limit) ->
  forall buf acc,
    Forall (fun c => (0 < len c)%nat /\ Z.of_nat (len c) <= limit) buf ->
    (acc = EmptyString \/ (0 < len acc)%nat) -> Z.of_nat (len acc) <= limit ->
    let '(buf', acc') := fold_left (chunk_step limit) lines (buf, acc) in
    Forall (fun c => (0 < len c)%nat /\ Z.of_nat (len c) <= limit) buf' /\
    (acc' = EmptyString \/ (0 < len acc')%nat) /\ Z.of_nat (len acc') <= limit.
Proof.
  induction lines as [|line rest IH]; intros Hfit buf acc Hbuf Hacc Hlen; simpl.
  - auto.
  - assert (Z.of_nat (len line) + 1 <= limit) as Hline by (apply Hfit; left).
    assert (forall l, l ∈ rest -> Z.of_nat (len l) + 1 <= limit) as Hrest
        by (intros l Hl; apply Hfit; now right).
    assert (len newline = 1%nat) as Hnl by reflexivity.
    destruct (Z.ltb_spec limit (Z.of_nat (len acc) + Z.of_nat (len line) + 1)).
    + apply (IH Hrest).
      * apply Forall_app. split; [exact Hbuf|]. constructor; [|constructor].
        split; [|exact Hlen]. destruct Hacc as [-> | Hpos]; [simpl in *; lia | exact Hpos].
      * right. change (EmptyString ++ line ++ newline) with (line ++ newline).
        rewrite len_app, Hnl. lia.
      * change (EmptyString ++ line ++ newline) with (line ++ newline).
        rewrite len_app, Hnl. lia.
    + apply (IH Hrest).
      * exact Hbuf.
      * right. rewrite !len_app, Hnl. lia.
      * rewrite !len_app, Hnl. lia.
Qed.

(** X7: when every line, with its line feed, fits the limit, every chunk
    holds at least one character and at most [limit] of them. *)
Theorem chunk_text_fits (lines : list string) (limit : Z) :
  (forall line, line ∈ lines -> Z.of_nat (len line) + 1 <= limit) ->
  forall c, c ∈ chunk_lines lines limit -> (0 < len c)%nat /\ Z.of_nat (len c) <= limit.
Proof.
  intros Hfit.
  assert (lines = [] \/ 0 <= limit) as [-> | Hlimit].
  { destruct lines as [|l ?]; [now left | right].
    specialize (Hfit l ltac:(left)). lia. }
  { intros c Hc. now apply elem_of_nil in Hc. }
  unfold chunk_lines.
  pose proof (chunk_fold_sizes limit lines Hfit [] EmptyString (Forall_nil_2 _)
                (or_introl eq_refl) Hlimit) as Hfold.
  destruct (fold_left _ lines _) as [buf acc].
  destruct Hfold as (Hbuf & Hacc & Hlen).
  rewrite Forall_forall in Hbuf.
  destruct (nonempty acc) eqn:E; intros c Hc.
  - apply elem_of_app in Hc as [Hc | Hc%list_elem_of_singleton]; [now apply Hbuf|].
    subst c. split; [|exact Hlen]. destruct Hacc as [-> | Hpos]; [discriminate | exact Hpos].
  - now apply Hbuf.
Qed.

Lemma chunk_text_fits_witness :
  Forall (fun line => Z.of_nat (len line) + 1 <= 8) ["aaa"; "bbb"; "cc"] /\
  Forall (fun c => (0 < len c)%nat /\ Z.of_nat (len c) <= 8)
         (chunk_lines ["aaa"; "bbb"; "cc"] 8).
Proof.
  assert (Forall (fun line => Z.of_nat (len line) + 1 <= 8) ["aaa"; "bbb"; "cc"]) as Hfit
      by (repeat constructor; vm_compute; discriminate).
  split; [exact Hfit|].
  apply Forall_forall, chunk_text_fits. now apply Forall_forall.
Defined.

(** Once a line has been taken, the chunk being filled is not empty, and no
    empty chunk is put aside any more. *)
Lemma chunk_fold_no_empty limit lines :
  forall buf acc, acc <> EmptyString ->
    let '(buf', acc') := fold_left (chunk_step limit) lines (buf, acc) in
    acc' <> EmptyString /\ (EmptyString ∈ buf' <-> EmptyString ∈ buf).
Proof.
  assert (forall a line, a ++ line ++ newline <> EmptyString) as Hne.
  { intros [|x a] [|y line]; discriminate. }
  induction lines as [|line rest IH]; intros buf acc Hacc; simpl; [tauto|].
  destruct (limit <? Z.of_nat (len acc) + Z.of_nat (len line) + 1).
  - specialize (IH (buf ++ [acc])%list _ (Hne EmptyString line)).
    destruct (fold_left _ rest _) as [buf' acc']. destruct IH as [IH1 IH2].
    split; [exact IH1|]. rewrite IH2, elem_of_app, list_elem_of_singleton.
    split; [intros [H | H]; [exact H | congruence] | now left].
  - exact (IH buf _ (Hne acc line)).
Qed.

(** X8: an empty chunk is produced exactly when the first line alone, with
    its line feed, is longer than the limit. *)
Theorem chunk_text_empty_chunk (lines : list string) (limit : Z) :
  EmptyString ∈ chunk_lines lines limit <->
  exists line rest, lines = line :: rest /\ limit < Z.of_nat (len line) + 1.
Proof.
  unfold chunk_lines. destruct lines as [|line rest].
  - simpl. split; [intros H%elem_of_nil; destruct H | intros (? & ? & ? & _); discriminate].
  - cbn [fold_left]. unfold chunk_step at 2. simpl (len EmptyString).
    change (Z.of_nat 0 + Z.of_nat (len line) + 1) with (Z.of_nat (len line) + 1).
    assert (EmptyString ++ line ++ newline <> EmptyString) as Hne
        by (destruct line; discriminate).
    destruct (Z.ltb_spec limit (Z.of_nat (len line) + 1)) as [Hlong | Hfits].
    + pose proof (chunk_fold_no_empty limit rest ([] ++ [EmptyString])%list _ Hne) as H.
      destruct (fold_left _ rest _) as [buf acc]. destruct H as [Hacc Hbuf].
      split; [intros _; eauto|]. intros _.
      assert (EmptyString ∈ buf) by (apply Hbuf; left).
      destruct (nonempty acc); [apply elem_of_app; now left | assumption].
    + pose proof (chunk_fold_no_empty limit rest [] _ Hne) as H.
      destruct (fold_left _ rest _) as [buf acc]. destruct H as [Hacc Hbuf].
      split.
      * intros Hin. exfalso.
        destruct (nonempty acc).
        -- apply elem_of_app in Hin as [Hin | Hin%list_elem_of_singleton];
             [apply Hbuf in Hin; now apply elem_of_nil in Hin | congruence].
        -- apply Hbuf in Hin. now apply elem_of_nil in Hin.
      * intros (l & r & [= <- <-] & Hl). lia.
Qed.

End Chunks.

(** ** top_cmd *)

Section Top.










Lemma strongly_sorted_app_cross (l1 l2 : list row) :
  StronglySorted (fun r1 r2 : row => fst r1 <= fst r2) (l1 ++ l2) ->
  forall r r', r ∈ l1 -> r' ∈ l2 -> fst r <= fst r'.
Proof.
  induction l1 as [|x l1 IH]; simpl; intros Hs r r' Hr Hr'.
  - now apply elem_of_nil in Hr.
  - apply StronglySorted_inv in Hs as [Hs Hall].
    apply elem_of_cons in Hr as [-> | Hr]; [|now apply IH].
    rewrite Forall_forall in Hall. apply Hall. apply elem_of_app. now right.
Qed.

(** X10: the rows returned are the cheapest ones: with the rows left out
    they make up the priced rows, and no row left out is cheaper than a row
    returned. *)
Theorem top_rows_cheapest (h : heap) (stations : list station) (fuel : string) (n : nat) :
  exists dropped,
    top_rows h stations fuel n ++ dropped ≡ₚ rows_of h stations fuel /\
    forall r r', r ∈ top_rows h stations fuel n -> r' ∈ dropped -> fst r <= fst r'.
Proof.
  exists (drop n (sort_rows (rows_of h stations fuel))). unfold top_rows. split.
  - rewrite take_drop. apply sort_rows_perm.
  - apply strongly_sorted_app_cross. rewrite take_drop. apply sort_rows_sorted.
Qed.

Lemma length_rows_of h stations fuel :
  length (rows_of h stations fuel) =
  length (filter (fun st => is_Some (dict_get (deref h (prices st)) fuel)) stations).
Proof.
  induction stations as [|st l IH]; [reflexivity|].
  rewrite rows_of_cons, filter_cons. destruct (dict_get (deref h (prices st)) fuel) as [p|] eqn:E.
  - rewrite decide_True by eauto. simpl. now rewrite IH.
  - rewrite decide_False by (intros [? ?]; discriminate). exact IH.
Qed.

(** X11: as many rows are returned as there are records with the fuel
    priced, up to [n]: nothing priced is dropped before the cut. *)
Theorem top_rows_length (h : heap) (stations : list station) (fuel : string) (n : nat) :
  length (top_rows h stations fuel n) =
  Nat.min n (length (filter (fun st => is_Some (dict_get (deref h (prices st)) fuel))
                            stations)).
Proof.
  unfold top_rows. rewrite length_take, <- length_rows_of.
  now rewrite (Permutation_length (sort_rows_perm _)).
Qed.



End Top.

(** ** The merged dataset *)

Section Dataset.

Lemma fold_dedup_distinct stations :
  forall (uniq : uniq_map) h,
    NoDup (map canonical_key stations) ->
    (forall st, st ∈ stations -> canonical_key st ∉ map fst uniq) ->
    fold_m dedup_step uniq stations h =
    (Returned (uniq ++ map (fun st => (canonical_key st, st)) stations)%list, h).
Proof.
  induction stations as [|st rest IH]; intros uniq h Hnd Hnew.
  - simpl. now rewrite app_nil_r.
  - cbn [fold_m map].
    assert (uniq_get (canonical_key st) uniq = None) as Hget
        by (apply uniq_get_None, Hnew; left).
    rewrite (bind_returned _ _ _ _ _ (dedup_step_new _ _ _ Hget)).
    apply NoDup_cons in Hnd as [Hst Hnd].
    rewrite IH; [now rewrite <- app_assoc | exact Hnd |].
    intros st' Hst'. rewrite map_app. simpl. intros [H | H%list_elem_of_singleton]%elem_of_app.
    + apply (Hnew st'); [now right | exact H].
    + apply Hst. rewrite <- H. now apply list_elem_of_fmap_2.
Qed.

(** X13: a list whose canonical keys are pairwise distinct goes through
    the merge as it is, and nothing is written; so merging the merged
    dataset once more changes neither the list nor the store. *)
Theorem dedup_distinct_is_identity :
  (forall stations h,
      NoDup (map canonical_key stations) -> dedup stations h = (Returned stations, h)) /\
  (forall stations h out h',
      dedup stations h = (Returned out, h') -> dedup out h' = (Returned out, h')).
Proof.
  assert (forall stations h,
            NoDup (map canonical_key stations) ->
            dedup stations h = (Returned stations, h)) as Hid.
  { intros stations h Hnd. unfold dedup.
    rewrite (bind_returned _ _ _ _ _ (fold_dedup_distinct stations [] h Hnd
               (fun st _ H => proj1 (elem_of_nil _) H))).
    simpl. unfold ret. f_equal. f_equal.
    rewrite map_map. simpl. apply map_id. }
  split; [exact Hid|].
  intros stations h out h' Hrun. apply Hid.
  destruct (dedup_run stations h) as (o & g & Hrun' & _ & Hnd & _).
  rewrite Hrun' in Hrun. now injection Hrun as <- <-.
Qed.

(** Three records of three stations: the keys differ, the merge returns
    the list as it is. *)
Lemma dedup_distinct_is_identity_witness :
  NoDup (map canonical_key [ex_first; ex_third; ex_first_other_street]) /\
  dedup [ex_first; ex_third; ex_first_other_street] ex_heap =
  (Returned [ex_first; ex_third; ex_first_other_street], ex_heap).
Proof.
  assert (NoDup (map canonical_key [ex_first; ex_third; ex_first_other_street])) as Hnd.
  { apply (bool_decide_unpack _). vm_compute. exact I. }
  split; [exact Hnd|].
  exact (proj1 dedup_distinct_is_identity [ex_first; ex_third; ex_first_other_street]
           ex_heap Hnd).
Defined.

Lemma fold_dedup_first_seen stations :
  forall (uniq : uniq_map) h,
  exists h',
    fold_m dedup_step uniq stations h =
    (Returned (uniq ++ map (fun st => (canonical_key st, st))
                           (first_seen (map fst uniq) stations))%list, h').
Proof.
  induction stations as [|st rest IH]; intros uniq h.
  - exists h. simpl. now rewrite app_nil_r.
  - cbn [fold_m first_seen].
    destruct (uniq_get (canonical_key st) uniq) as [first|] eqn:Hget.
    + rewrite (bind_returned _ _ _ _ _ (dedup_step_existing _ _ _ _ Hget)).
      rewrite bool_decide_eq_true_2.
      * apply IH.
      * destruct (decide (canonical_key st ∈ map fst uniq)) as [Hin | Hout]; [exact Hin|].
        apply uniq_get_None in Hout. congruence.
    + rewrite (bind_returned _ _ _ _ _ (dedup_step_new _ _ _ Hget)).
      rewrite bool_decide_eq_false_2 by now apply uniq_get_None.
      destruct (IH (uniq ++ [(canonical_key st, st)])%list h) as (h' & Hrun).
      exists h'. rewrite Hrun, map_app. simpl. now rewrite <- app_assoc.
Qed.

(** X14: the merged dataset is made of the records that open their
    canonical key, in the order the working list has them; the later records
    of a key change prices only. *)
Theorem dedup_keeps_first_seen (stations : list station) (h : heap) :
  exists h', dedup stations h = (Returned (first_seen [] stations), h').
Proof.
  destruct (fold_dedup_first_seen stations [] h) as (h' & Hrun).
  exists h'. unfold dedup. rewrite (bind_returned _ _ _ _ _ Hrun).
  simpl. unfold ret. f_equal. f_equal. rewrite map_map. simpl. apply map_id.
Qed.

Lemma uniq_get_Some_in key (uniq : uniq_map) st :
  uniq_get key uniq = Some st -> (key, st) ∈ uniq.
Proof.
  induction uniq as [|[k s0] rest IH]; simpl; [discriminate|].
  destruct (bool_decide_reflect (k = key)) as [-> | Hne].
  - intros [= ->]. left.
  - intros H. right. now apply IH.
Qed.

Lemma NoDup_fmap_same {A B} (f : A -> B) (l : list A) x y :
  NoDup (map f l) -> x ∈ l -> y ∈ l -> f x = f y -> x = y.
Proof.
  induction l as [|a l IH]; simpl; intros Hnd Hx Hy Hf.
  - now apply elem_of_nil in Hx.
  - apply NoDup_cons in Hnd as [Ha Hnd].
    apply elem_of_cons in Hx as [-> | Hx]; apply elem_of_cons in Hy as [-> | Hy].
    + reflexivity.
    + exfalso. apply Ha. rewrite Hf. now apply list_elem_of_fmap_2.
    + exfalso. apply Ha. rewrite <- Hf. now apply list_elem_of_fmap_2.
    + now apply IH.
Qed.

Lemma merge_over_snoc h fuel key P st acc :
  merge_over h fuel key (P ++ [st]) acc =
  if bool_decide (canonical_key st = key)
  then merged_price (merge_over h fuel key P acc) (dict_get (deref h (prices st)) fuel)
  else merge_over h fuel key P acc.
Proof. unfold merge_over. now rewrite fold_left_app. Qed.

Lemma merge_over_other h fuel key P :
  forall acc, (forall st, st ∈ P -> canonical_key st <> key) ->
              merge_over h fuel key P acc = acc.
Proof.
  induction P as [|st P IH]; intros acc Hne; [reflexivity|].
  unfold merge_over. simpl. rewrite bool_decide_eq_false_2 by (apply Hne; left).
  apply IH. intros st' Hst'. apply Hne. now right.
Qed.

Lemma merge_over_priced h fuel key sts :
  forall acc,
    merge_over h fuel key sts acc =
    fold_left (fun a v => merged_price a (Some v)) (priced h fuel key sts) acc.
Proof.
  unfold merge_over, priced. induction sts as [|st sts IH]; intros acc; [reflexivity|].
  cbn [fold_left omap list_omap].
  destruct (bool_decide (canonical_key st = key)); [|apply IH].
  destruct (dict_get (deref h (prices st)) fuel) as [v|]; simpl; apply IH.
Qed.

Lemma min_fold_spec (l : list Z) :
  forall acc,
    match fold_left (fun a v => merged_price a (Some v)) l acc with
    | None => acc = None /\ l = []
    | Some m =>
        (acc = Some m \/ m ∈ l) /\
        (forall a, acc = Some a -> m <= a) /\ (forall v, v ∈ l -> m <= v)
    end.
Proof.
  induction l as [|x l IH]; intros acc; simpl.
  - destruct acc as [a|]; [|auto]. split; [now left|]. split.
    + intros ? [= <-]. lia.
    + intros v Hv. now apply elem_of_nil in Hv.
  - specialize (IH (merged_price acc (Some x))).
    destruct (fold_left _ l _) as [m|].
    + destruct IH as (Hin & Hacc & Hl).
      assert (m <= x) as Hx.
      { destruct acc as [a|]; simpl in Hacc.
        - specialize (Hacc _ eq_refl). lia.
        - specialize (Hacc _ eq_refl). lia. }
      split; [|split].
      * destruct Hin as [Hin | Hin]; [|right; now right].
        destruct acc as [a|]; simpl in Hin; injection Hin as <-.
        -- destruct (Z.min_spec a x) as [[_ ->] | [_ ->]]; [now left | right; left].
        -- right. left.
      * intros a ->. simpl in Hacc. specialize (Hacc _ eq_refl). lia.
      * intros v [-> | Hv]%elem_of_cons; [exact Hx | now apply Hl].
    + destruct IH as [Hacc _]. destruct acc; discriminate.
Qed.

Lemma merge_over_is_min h fuel key sts :
  is_min (priced h fuel key sts) (merge_over h fuel key sts None).
Proof.
  rewrite merge_over_priced. pose proof (min_fold_spec (priced h fuel key sts) None) as H.
  unfold is_min. destruct (fold_left _ _ None) as [m|].
  - destruct H as ([H | H] & _ & Hl); [discriminate | auto].
  - now destruct H.
Qed.

(** The loop, on a working list whose records own their dicts: each key of
    the dataset holds the prices merged over the records met so far. *)
Lemma fold_dedup_min h R :
  forall P (uniq : uniq_map) hc,
    NoDup (map prices (P ++ R)) ->
    NoDup (map fst uniq) ->
    (forall k f, (k, f) ∈ uniq -> k = canonical_key f /\ f ∈ P) ->
    (forall k f fuel, (k, f) ∈ uniq ->
                      dict_get (deref hc (prices f)) fuel = merge_over h fuel k P None) ->
    (forall l, l ∉ map prices P -> deref hc l = deref h l) ->
    (forall st, st ∈ P -> canonical_key st ∈ map fst uniq) ->
    exists (uniq' : uniq_map) h',
      fold_m dedup_step uniq R hc = (Returned uniq', h') /\
      forall k f fuel, (k, f) ∈ uniq' ->
        k = canonical_key f /\
        dict_get (deref h' (prices f)) fuel = merge_over h fuel k (P ++ R) None.
Proof.
  induction R as [|st rest IH]; intros P uniq hc Hlocs Hkeys Hmem Hval Hframe Hcov.
  - exists uniq, hc. split; [reflexivity|]. intros k f fuel Hin.
    rewrite app_nil_r. split; [apply (Hmem k f Hin) | now apply Hval].
  - assert (P ++ st :: rest = (P ++ [st]) ++ rest)%list as Hsplit
        by now rewrite <- app_assoc.
    rewrite Hsplit in *.
    assert (prices st ∉ map prices P) as Hfresh.
    { rewrite !map_app in Hlocs. apply NoDup_app in Hlocs as [Hlocs _].
      apply NoDup_app in Hlocs as (_ & Hdisj & _).
      intros Hin. apply (Hdisj _ Hin). simpl. left. }
    assert (NoDup (map prices P)) as HlocsP.
    { rewrite !map_app in Hlocs. apply NoDup_app in Hlocs as [Hlocs _].
      now apply NoDup_app in Hlocs as [Hlocs _]. }
    cbn [fold_m].
    destruct (uniq_get (canonical_key st) uniq) as [first|] eqn:Hget.
    + rewrite (bind_returned _ _ _ _ _ (dedup_step_existing _ _ _ _ Hget)).
      pose proof (uniq_get_Some_in _ _ _ Hget) as Hfirst.
      destruct (Hmem _ _ Hfirst) as [Hkf HfP].
      apply IH; try assumption.
      * intros k f Hin. destruct (Hmem k f Hin) as [? ?]. split; [assumption|].
        apply elem_of_app. now left.
      * intros k f fuel Hin. destruct (Hmem k f Hin) as [Hk HfP'].
        rewrite deref_write, merge_over_snoc.
        destruct (decide (prices first = prices f)) as [Heq | Hne].
        -- assert (first = f) as <- by (eapply NoDup_fmap_same; eauto).
           assert (k = canonical_key st) as -> by congruence.
           rewrite bool_decide_eq_true_2 by reflexivity.
           rewrite dict_get_merge_prices, (Hval _ _ fuel Hfirst).
           now rewrite (Hframe _ Hfresh).
        -- rewrite bool_decide_eq_false_2; [now apply Hval|].
           intros Hk'. apply Hne. f_equal.
           assert ((canonical_key st, first) = (k, f)) as Hpair; [|congruence].
           eapply (NoDup_fmap_same fst); eauto; simpl; congruence.
      * intros l Hl. rewrite map_app in Hl. rewrite deref_write.
        rewrite decide_False.
        -- apply Hframe. intros Hin. apply Hl, elem_of_app. now left.
        -- intros <-. apply Hl, elem_of_app. left. now apply list_elem_of_fmap_2.
      * intros st' [Hst' | Hst'%list_elem_of_singleton]%elem_of_app; [now apply Hcov|].
        subst st'. exact (list_elem_of_fmap_2 fst _ _ Hfirst).
    + rewrite (bind_returned _ _ _ _ _ (dedup_step_new _ _ _ Hget)).
      apply uniq_get_None in Hget.
      apply IH; try assumption.
      * rewrite map_app. simpl. apply NoDup_app. split; [assumption|].
        split; [|apply NoDup_singleton].
        intros k Hk Hk'%list_elem_of_singleton. now subst.
      * intros k f [Hin | Hin%list_elem_of_singleton]%elem_of_app.
        -- destruct (Hmem k f Hin). split; [assumption | apply elem_of_app; now left].
        -- injection Hin as -> ->. split; [reflexivity|].
           apply elem_of_app. right. left.
      * intros k f fuel [Hin | Hin%list_elem_of_singleton]%elem_of_app.
        -- rewrite merge_over_snoc, bool_decide_eq_false_2; [now apply Hval|].
           intros Hk. apply Hget. rewrite Hk. apply (list_elem_of_fmap_2 fst _ _ Hin).
        -- injection Hin as -> ->.
           rewrite merge_over_snoc, bool_decide_eq_true_2 by reflexivity.
           rewrite (Hframe _ Hfresh).
           rewrite merge_over_other.
           ++ now destruct (dict_get (deref h (prices st)) fuel).
           ++ intros st' Hst' Hk. apply Hget. rewrite <- Hk. now apply Hcov.
      * intros l Hl. apply Hframe. intros Hin. apply Hl. rewrite map_app.
        apply elem_of_app. now left.
      * intros st' [Hst' | Hst'%list_elem_of_singleton]%elem_of_app;
          rewrite map_app; apply elem_of_app; [left; now apply Hcov | right].
        subst st'. left.
Qed.

(** X15: when the records of the working list own their prices mappings
    (no two share one), the merged record of a key ends, for every fuel,
    with the lowest of the prices the records of that key gave for it, and
    with none when none of them priced it. *)
Theorem dedup_keeps_lowest_price (stations : list station) (h : heap) :
  NoDup (map prices stations) ->
  exists out h',
    dedup stations h = (Returned out, h') /\
    forall st fuel, st ∈ out ->
      is_min (priced h fuel (canonical_key st) stations)
             (dict_get (deref h' (prices st)) fuel).
Proof.
  intros Hlocs.
  destruct (fold_dedup_min h stations [] [] h) as (uniq & h' & Hrun & Hspec).
  - exact Hlocs.
  - constructor.
  - intros k f Hin. now apply elem_of_nil in Hin.
  - intros k f fuel Hin. now apply elem_of_nil in Hin.
  - reflexivity.
  - intros st Hin. now apply elem_of_nil in Hin.
  - exists (map snd uniq), h'. split.
    + unfold dedup. now rewrite (bind_returned _ _ _ _ _ Hrun).
    + intros st fuel Hin. apply list_elem_of_fmap in Hin as ([k f] & -> & Hin).
      destruct (Hspec k f fuel Hin) as [-> Hp]. simpl. rewrite Hp.
      apply merge_over_is_min.
Qed.

Lemma dedup_keeps_lowest_price_witness :
  NoDup (map prices [ex_first; ex_second]) /\
  exists out h',
    dedup [ex_first; ex_second] ex_heap = (Returned out, h') /\
    forall st fuel, st ∈ out ->
      is_min (priced ex_heap fuel (canonical_key st) [ex_first; ex_second])
             (dict_get (deref h' (prices st)) fuel).
Proof.
  assert (NoDup (map prices [ex_first; ex_second])) as Hnd.
  { apply NoDup_cons. split; [|apply NoDup_singleton].
    intros H%list_elem_of_singleton. discriminate. }
  split; [exact Hnd | exact (dedup_keeps_lowest_price _ ex_heap Hnd)].
Defined.

End Dataset.

(** ** The adapters, once more *)

Section Adapters2.

Lemma split_on_pieces sep s :
  Forall (fun piece => forall_chars (fun c => negb (sep c)) piece = true) (split_on sep s).
Proof.
  induction s as [|c s IH]; simpl; [repeat constructor|].
  destruct (sep c) eqn:E; [now constructor|].
  destruct (split_on sep s) as [|p ps]; [repeat constructor; simpl; now rewrite E|].
  apply Forall_cons in IH as [Hp Hps]. constructor; [|exact Hps].
  simpl. now rewrite E, Hp.
Qed.

Lemma waze_name_no_comma full :
  forall_chars (fun c => negb (Ascii.eqb c ","))
               (hd EmptyString (map strip (split_comma (strip full)))) = true.
Proof.
  unfold split_comma.
  pose proof (split_on_pieces (fun c => Ascii.eqb c ",") (strip full)) as H.
  destruct (split_on _ (strip full)) as [|p ps]; [reflexivity|].
  apply Forall_cons in H as [Hp _]. simpl. now apply forall_chars_strip.
Qed.

(** The loop of [fetch_gas_didnt_work]: one record per match, each with a
    dict of its own, made by the call. *)
Lemma waze_stations_run ms :
  forall h, exists sts h',
    map_m waze_station ms h = (Returned sts, h') /\
    next h' = (next h + length ms)%nat /\
    map prices sts = seq (next h) (length ms) /\
    (forall l, (l < next h)%nat -> objs h' !! l = objs h !! l) /\
    Forall2 (fun m st =>
               source st = "gas.didnt.work" /\
               timestamp st = default EmptyString (m_date m) /\
               forall_chars (fun c => negb (Ascii.eqb c ",")) (name st) = true /\
               objs h' !! prices st =
               Some (<["diesel" := parse_eur (m_price m)]>
                       (<["a95" := parse_eur (m_price m)]> ∅))) ms sts.
Proof.
  induction ms as [|m ms IH]; intros h.
  - exists [], h. repeat split; auto.
  - set (d := <["diesel" := parse_eur (m_price m)]> (<["a95" := parse_eur (m_price m)]> ∅)
             : dict).
    destruct (IH (Heap (<[next h := d]> (objs h)) (S (next h))))
      as (sts & h' & Hrun & Hnext & Hlocs & Hframe & Hall).
    simpl next in *. simpl objs in *.
    eexists (_ :: sts), h'. split; [|split; [|split; [|split]]].
    + cbn [map_m]. unfold waze_station at 1.
      rewrite (bind_returned _ _ h _ (Heap (<[next h := d]> (objs h)) (S (next h))))
        by reflexivity.
      now rewrite (bind_returned _ _ _ _ _ Hrun).
    + simpl. lia.
    + simpl. now rewrite Hlocs.
    + intros l Hl. rewrite Hframe by lia. apply lookup_insert_ne. lia.
    + constructor; [|exact Hall]. simpl. repeat split.
      * apply waze_name_no_comma.
      * rewrite Hframe by lia. apply lookup_insert_eq.
Qed.

(** X16: for every match of the listing pattern [fetch_gas_didnt_work]
    returns one record, in order, from the source gas.didnt.work, dated as
    the match is (or not at all), with a name free of commas; its price is
    filed under both a95 and diesel and under no other fuel; each record has
    a prices mapping of its own, created by the call. *)
Theorem gas_records (matches : list waze_match) (h : heap) :
  exists sts h',
    fetch_gas_didnt_work (Page matches) h = (Returned sts, h') /\
    NoDup (map prices sts) /\
    (forall st, st ∈ sts -> (next h <= prices st < next h')%nat) /\
    Forall2 (fun m st =>
               source st = "gas.didnt.work" /\
               timestamp st = default EmptyString (m_date m) /\
               forall_chars (fun c => negb (Ascii.eqb c ",")) (name st) = true /\
               dict_get (deref h' (prices st)) "a95" = parse_eur (m_price m) /\
               dict_get (deref h' (prices st)) "diesel" = parse_eur (m_price m) /\
               forall k, k <> "a95" -> k <> "diesel" -> deref h' (prices st) !! k = None)
            matches sts.
Proof.
  destruct (waze_stations_run matches h) as (sts & h' & Hrun & Hnext & Hlocs & _ & Hall).
  exists sts, h'. split; [exact Hrun|]. split; [|split].
  - rewrite Hlocs. apply NoDup_seq.
  - intros st Hin.
    assert (prices st ∈ seq (next h) (length matches)) as Hseq
        by (rewrite <- Hlocs; now apply (list_elem_of_fmap_2 prices)).
    apply elem_of_seq in Hseq. lia.
  - eapply Forall2_impl; [exact Hall|]. simpl.
    intros m st (Hs & Ht & Hn & Hd).
    assert (deref h' (prices st) =
            <["diesel" := parse_eur (m_price m)]> (<["a95" := parse_eur (m_price m)]> ∅))
      as -> by (unfold deref; now rewrite Hd).
    split; [exact Hs|]. split; [exact Ht|]. split; [exact Hn|]. split; [|split].
    + unfold dict_get. rewrite lookup_insert_ne by discriminate.
      now rewrite lookup_insert_eq.
    + unfold dict_get. now rewrite lookup_insert_eq.
    + intros k Hk1 Hk2. rewrite !lookup_insert_ne by congruence. apply lookup_empty.
Qed.

Lemma elem_of_long_pieces sep s a :
  a ∈ firstn 20 (long_pieces (split_on sep s)) ->
  strip a = a /\ (3 < len a)%nat /\ forall_chars (fun c => negb (sep c)) a = true.
Proof.
  intros Hin%subseteq_take. unfold long_pieces in Hin.
  apply list_elem_of_fmap in Hin as (piece & -> & Hin).
  apply list_elem_of_filter in Hin as [Hlen Hin].
  split; [apply strip_idem|]. split; [exact Hlen|].
  apply forall_chars_strip.
  pose proof (split_on_pieces sep s) as Hall. rewrite Forall_forall in Hall.
  now apply Hall.
Qed.

(** X17: Circle K and Neste give at most 20 stations a call, and every
    address they give is trimmed, longer than three characters and free of
    the separators the address text was cut at. *)
Theorem circlek_neste_addresses (h : heap) :
  (forall sc, exists sts h',
      fetch_circlek (Page sc) h = (Returned sts, h') /\
      (length sts <= 20)%nat /\
      forall st, st ∈ sts ->
        strip (address st) = address st /\ (3 < len (address st))%nat /\
        forall_chars (fun c => negb (Ascii.eqb c ",")) (address st) = true) /\
  (forall sc, exists sts h',
      fetch_neste (Page sc) h = (Returned sts, h') /\
      (length sts <= 20)%nat /\
      forall st, st ∈ sts ->
        strip (address st) = address st /\ (3 < len (address st))%nat /\
        forall_chars (fun c => negb (Ascii.eqb c "," || Ascii.eqb c ";")) (address st) = true).
Proof.
  split; intros sc.
  - unfold fetch_circlek.
    destruct (chain_stations_addresses "Circle K" "circlek"
                (grab (ck_lpg sc) "lpg" (grab (ck_d sc) "diesel"
                   (grab (ck_98 sc) "a98" (grab (ck_95 sc) "a95" ∅))))
                (firstn 20 match ck_addrs sc with
                           | Some addrs => long_pieces (split_comma addrs)
                           | None => []
                           end) h) as (sts & h' & Hrun & Haddr).
    exists sts, h'. split; [exact Hrun|]. split.
    + rewrite <- (length_map address), Haddr, length_take. lia.
    + intros st Hin. apply (list_elem_of_fmap_2 address) in Hin.
      change (address <$> sts) with (map address sts) in Hin. rewrite Haddr in Hin.
      destruct (ck_addrs sc) as [addrs|]; [|now rewrite take_nil in Hin; apply elem_of_nil in Hin].
      now apply elem_of_long_pieces in Hin.
  - unfold fetch_neste.
    destruct (chain_stations_addresses "Neste" "neste"
                (grab (n_d sc) "diesel" (grab (n_98 sc) "a98" (grab (n_95 sc) "a95" ∅)))
                (firstn 20 match n_addrs sc with
                           | Some addr_text => long_pieces (split_comma_semicolon addr_text)
                           | None => []
                           end) h) as (sts & h' & Hrun & Haddr).
    exists sts, h'. split; [exact Hrun|]. split.
    + rewrite <- (length_map address), Haddr, length_take. lia.
    + intros st Hin. apply (list_elem_of_fmap_2 address) in Hin.
      change (address <$> sts) with (map address sts) in Hin. rewrite Haddr in Hin.
      destruct (n_addrs sc) as [addrs|]; [|now rewrite take_nil in Hin; apply elem_of_nil in Hin].
      now apply elem_of_long_pieces in Hin.
Qed.

(** X18: Virši gives one station for each of the first 10 address matches
    and Viada, when it returns, one for each of the first 20, in the order
    of the matches and with the matched text as the address. *)
Theorem virsi_viada_addresses (h : heap) :
  (forall sc, exists sts h',
      fetch_virsi (Page sc) h = (Returned sts, h') /\
      map address sts = firstn 10 (v_addrs sc) /\ (length sts <= 10)%nat) /\
  (forall sc sts h',
      fetch_viada (Page sc) h = (Returned sts, h') ->
      map address sts = firstn 20 (addr_matches sc) /\ (length sts <= 20)%nat).
Proof.
  split.
  - intros sc. unfold fetch_virsi.
    destruct (chain_stations_addresses "Virši" "virsi"
                (grab (v_lpg sc) "lpg" (grab (v_d sc) "diesel"
                   (grab (v_98 sc) "a98" (grab (v_95 sc) "a95" ∅))))
                (firstn 10 (v_addrs sc)) h) as (sts & h' & Hrun & Haddr).
    exists sts, h'. split; [exact Hrun|]. split; [exact Haddr|].
    rewrite <- (length_map address), Haddr, length_take. lia.
  - intros sc sts h' Hrun. unfold fetch_viada, bind, lift in Hrun.
    destruct (viada_prices ∅ (eur_tokens sc)) as [d | e]; [|discriminate].
    destruct (chain_stations_addresses "Viada" "viada" d (firstn 20 (addr_matches sc)) h)
      as (sts' & h'' & Hrun' & Haddr).
    rewrite Hrun' in Hrun. injection Hrun as <- <-. split; [exact Haddr|].
    rewrite <- (length_map address), Haddr, length_take. lia.
Qed.

Lemma virsi_viada_addresses_witness :
  exists sts h',
    fetch_viada (Page (ViadaScan ["1.522"; "0.735"] ["Rīga Krasta iela 1"; "Jelgava"])) empty_heap
    = (Returned sts, h') /\
    map address sts = ["Rīga Krasta iela 1"; "Jelgava"].
Proof.
  do 2 eexists. split; [vm_compute; reflexivity|].
  refine (proj1 (proj2 (virsi_viada_addresses empty_heap)
                   (ViadaScan ["1.522"; "0.735"] ["Rīga Krasta iela 1"; "Jelgava"]) _ _ _)).
  vm_compute. reflexivity.
Defined.

Abbreviation lowest l := (fold_left (fun a v => merged_price a (Some v)) l None).

Lemma lowest_snoc l v : lowest (l ++ [v])%list = merged_price (lowest l) (Some v).
Proof. now rewrite fold_left_app. Qed.

(** What the dict of [fetch_viada] holds once the values [vs] were seen. *)
Abbreviation viada_state vs d :=
  ((d : dict) !! "lpg" = Some <$> lowest (filter (fun v : Z => v < 1000) vs) /\
   (d : dict) !! "a95" = Some <$> lowest (filter (fun v : Z => 1000 <= v) vs) /\
   (d : dict) !! "diesel" = Some <$> lowest (filter (fun v : Z => 1000 <= v) vs) /\
   forall k, k <> "lpg" -> k <> "a95" -> k <> "diesel" -> (d : dict) !! k = None).

Lemma viada_token_state (d : dict) tok v vs :
  parse_eur tok = Some v -> viada_state vs d ->
  exists d', viada_token d tok = Returned d' /\ viada_state (vs ++ [v])%list d'.
Proof.
  intros Hparse (Hlpg & H95 & Hd & Hother).
  set (lo := lowest (filter (fun v : Z => v < 1000) vs)) in *.
  set (hi := lowest (filter (fun v : Z => 1000 <= v) vs)) in *.
  assert (lowest (filter (fun v : Z => v < 1000) (vs ++ [v])%list) =
          if decide (v < 1000) then merged_price lo (Some v) else lo) as Elo.
  { rewrite filter_app, filter_cons, filter_nil.
    destruct (decide (v < 1000)); [apply lowest_snoc | now rewrite app_nil_r]. }
  assert (lowest (filter (fun v : Z => 1000 <= v) (vs ++ [v])%list) =
          if decide (1000 <= v) then merged_price hi (Some v) else hi) as Ehi.
  { rewrite filter_app, filter_cons, filter_nil.
    destruct (decide (1000 <= v)); [apply lowest_snoc | now rewrite app_nil_r]. }
  rewrite Elo, Ehi. clear Elo Ehi. clearbody lo hi.
  unfold viada_token. rewrite Hparse. unfold absent_or_lower, price in *.
  destruct (Z.ltb_spec v 1000) as [Hlo | Hhi].
  - rewrite (decide_True (P := v < 1000)) by assumption.
    rewrite (decide_False (P := 1000 <= v)) by lia.
    rewrite !Hlpg. destruct lo as [old|]; simpl.
    + destruct (Z.ltb_spec v old).
      * eexists. split; [reflexivity|]. repeat split.
        -- rewrite lookup_insert_eq. now rewrite Z.min_r by lia.
        -- now rewrite lookup_insert_ne.
        -- now rewrite lookup_insert_ne.
        -- intros k ? ? ?. rewrite lookup_insert_ne by congruence. now apply Hother.
      * eexists. split; [reflexivity|]. repeat split.
        -- rewrite lookup_insert_eq. now rewrite Z.min_l by lia.
        -- now rewrite lookup_insert_ne.
        -- now rewrite lookup_insert_ne.
        -- intros k ? ? ?. rewrite lookup_insert_ne by congruence. now apply Hother.
    + eexists. split; [reflexivity|]. repeat split.
      * now rewrite lookup_insert_eq.
      * now rewrite lookup_insert_ne.
      * now rewrite lookup_insert_ne.
      * intros k ? ? ?. rewrite lookup_insert_ne by congruence. now apply Hother.
  - rewrite (decide_False (P := v < 1000)) by lia.
    rewrite (decide_True (P := 1000 <= v)) by assumption.
    rewrite !H95. destruct hi as [old|]; simpl.
    + destruct (Z.ltb_spec v old).
      * rewrite lookup_insert_ne by discriminate. rewrite Hd. simpl.
        rewrite (proj2 (Z.ltb_lt v old)) by assumption.
        eexists. split; [reflexivity|]. repeat split.
        -- rewrite !lookup_insert_ne by discriminate. exact Hlpg.
        -- rewrite lookup_insert_ne by discriminate. rewrite lookup_insert_eq.
           now rewrite Z.min_r by lia.
        -- rewrite lookup_insert_eq. now rewrite Z.min_r by lia.
        -- intros k ? ? ?. rewrite !lookup_insert_ne by congruence. now apply Hother.
      * rewrite Hd. simpl. rewrite (proj2 (Z.ltb_ge v old)) by assumption.
        eexists. split; [reflexivity|]. repeat split; try assumption.
        -- rewrite H95. simpl. now rewrite Z.min_l by lia.
        -- rewrite Hd. simpl. now rewrite Z.min_l by lia.
    + rewrite lookup_insert_ne by discriminate. rewrite Hd. simpl.
      eexists. split; [reflexivity|]. repeat split.
      * rewrite !lookup_insert_ne by discriminate. exact Hlpg.
      * rewrite lookup_insert_ne by discriminate. now rewrite lookup_insert_eq.
      * now rewrite lookup_insert_eq.
      * intros k ? ? ?. rewrite !lookup_insert_ne by congruence. now apply Hother.
Qed.

Lemma viada_prices_state toks :
  forall vals pre (d : dict),
    Forall2 (fun t v => parse_eur t = Some v) toks vals -> viada_state pre d ->
    exists d', viada_prices d toks = Returned d' /\ viada_state (pre ++ vals)%list d'.
Proof.
  induction toks as [|tok rest IH]; intros vals pre d Hall Hst.
  - apply Forall2_nil_inv_l in Hall as ->. exists d. rewrite app_nil_r. now split.
  - apply Forall2_cons_inv_l in Hall as (v & vals' & Hv & Hall & ->).
    destruct (viada_token_state d tok v pre Hv Hst) as (d1 & Hd1 & Hst1).
    destruct (IH vals' (pre ++ [v])%list d1 Hall Hst1) as (d' & Hd' & Hst').
    exists d'. simpl. rewrite Hd1. split; [exact Hd'|].
    now rewrite <- app_assoc in Hst'.
Qed.

Lemma lowest_is_min l : is_min l (lowest l).
Proof.
  pose proof (min_fold_spec l None) as H. unfold is_min.
  destruct (lowest l) as [m|].
  - destruct H as ([H | H] & _ & Hl); [discriminate | auto].
  - now destruct H.
Qed.

(** X19: from the values of the price tokens of a Viada page, the lpg price
    is the lowest value under 1.000 and the a95 and diesel prices are both
    the lowest of the other values; a fuel without such a value is left
    out, and a98 is never set. *)
Theorem viada_prices_lowest (toks : list string) (vals : list Z) :
  Forall2 (fun t v => parse_eur t = Some v) toks vals ->
  exists d : dict,
    viada_prices ∅ toks = Returned d /\
    is_min (filter (fun v => v < 1000) vals) (dict_get d "lpg") /\
    is_min (filter (fun v => 1000 <= v) vals) (dict_get d "a95") /\
    dict_get d "diesel" = dict_get d "a95" /\
    forall k, k <> "lpg" -> k <> "a95" -> k <> "diesel" -> d !! k = None.
Proof.
  intros Hall.
  destruct (viada_prices_state toks vals [] ∅ Hall) as (d & Hd & Hlpg & H95 & Hdi & Hother).
  { repeat split; try apply lookup_empty. }
  simpl in *. exists d. split; [exact Hd|].
  assert (forall o : option Z, match Some <$> o with Some v => v | None => None end = o)
    as Hget by now intros [?|].
  unfold dict_get. rewrite Hlpg, H95, Hdi, !Hget.
  repeat split; try apply lowest_is_min; try reflexivity; exact Hother.
Qed.

Lemma viada_prices_lowest_witness :
  Forall2 (fun t v => parse_eur t = Some v) ["1.522"; "0.735"; "1.499"] [1522; 735; 1499] /\
  exists d : dict,
    viada_prices ∅ ["1.522"; "0.735"; "1.499"] = Returned d /\
    dict_get d "lpg" = Some 735 /\ dict_get d "a95" = Some 1499.
Proof.
  assert (Forall2 (fun t v => parse_eur t = Some v)
                  ["1.522"; "0.735"; "1.499"] [1522; 735; 1499]) as Hall
      by (repeat constructor).
  split; [exact Hall|].
  destruct (viada_prices_lowest _ _ Hall) as (d & Hd & _).
  exists d. split; [exact Hd|].
  vm_compute in Hd. injection Hd as <-. split; reflexivity.
Defined.

End Adapters2.

(** ** The store during one call of fetch_all *)

Section Isolation.

Lemma allocates_nothing h : allocates h (Returned []) h.
Proof.
  split; [lia|]. split; [auto|]. now rewrite Nat.sub_diag.
Qed.

Lemma chain_stations_allocates nm src (d : dict) addrs h :
  exists sts h',
    chain_stations nm src d addrs h = (Returned sts, h') /\ allocates h (Returned sts) h'.
Proof.
  destruct (chain_stations_run nm src d addrs h) as (h' & Hrun & Hnext & Hobjs).
  do 2 eexists. split; [exact Hrun|]. split; [lia|]. split.
  - intros l Hl. rewrite Hobjs. now rewrite decide_False by lia.
  - rewrite stations_from_prices. f_equal. lia.
Qed.

Lemma adapters_allocate pg h :
  (let '(r, h') := fetch_gas_didnt_work (p_gas pg) h in allocates h r h') /\
  (let '(r, h') := fetch_circlek (p_circlek pg) h in allocates h r h') /\
  (let '(r, h') := fetch_neste (p_neste pg) h in allocates h r h') /\
  (let '(r, h') := fetch_virsi (p_virsi pg) h in allocates h r h') /\
  (let '(r, h') := fetch_viada (p_viada pg) h in allocates h r h').
Proof.
  repeat split.
  - destruct (p_gas pg) as [e | ms]; [apply allocates_nothing|].
    destruct (waze_stations_run ms h) as (sts & h' & Hrun & Hnext & Hlocs & Hframe & _).
    unfold fetch_gas_didnt_work. rewrite Hrun. split; [lia|]. split; [exact Hframe|].
    rewrite Hlocs. f_equal. lia.
  - destruct (p_circlek pg) as [e | sc]; [apply allocates_nothing|].
    unfold fetch_circlek.
    destruct (chain_stations_allocates "Circle K" "circlek"
                (grab (ck_lpg sc) "lpg" (grab (ck_d sc) "diesel"
                   (grab (ck_98 sc) "a98" (grab (ck_95 sc) "a95" ∅))))
                (firstn 20 match ck_addrs sc with
                           | Some addrs => long_pieces (split_comma addrs)
                           | None => []
                           end) h) as (sts & h' & -> & Halloc).
    exact Halloc.
  - destruct (p_neste pg) as [e | sc]; [apply allocates_nothing|].
    unfold fetch_neste.
    destruct (chain_stations_allocates "Neste" "neste"
                (grab (n_d sc) "diesel" (grab (n_98 sc) "a98" (grab (n_95 sc) "a95" ∅)))
                (firstn 20 match n_addrs sc with
                           | Some addr_text => long_pieces (split_comma_semicolon addr_text)
                           | None => []
                           end) h) as (sts & h' & -> & Halloc).
    exact Halloc.
  - destruct (p_virsi pg) as [e | sc]; [apply allocates_nothing|].
    unfold fetch_virsi.
    destruct (chain_stations_allocates "Virši" "virsi"
                (grab (v_lpg sc) "lpg" (grab (v_d sc) "diesel"
                   (grab (v_98 sc) "a98" (grab (v_95 sc) "a95" ∅))))
                (firstn 10 (v_addrs sc)) h) as (sts & h' & -> & Halloc).
    exact Halloc.
  - destruct (p_viada pg) as [e | sc]; [apply allocates_nothing|].
    unfold fetch_viada, bind, lift.
    destruct (viada_prices ∅ (eur_tokens sc)) as [d | e].
    + destruct (chain_stations_allocates "Viada" "viada" d (firstn 20 (addr_matches sc)) h)
        as (sts & h' & -> & Halloc).
      exact Halloc.
    + split; [lia|]. split; [auto | reflexivity].
Qed.

(** Running one more adapter after some others: the working list still
    holds, in order, the dicts made since the start. *)
Lemma allocates_then h0 (sts0 : list station) h r h' :
  (next h0 <= next h)%nat ->
  map prices sts0 = seq (next h0) (next h - next h0) ->
  allocates h r h' ->
  (next h0 <= next h')%nat /\
  map prices (sts0 ++ match r with Returned l => l | Raised _ => [] end)
  = seq (next h0) (next h' - next h0).
Proof.
  intros Hle H0 (Hle' & _ & Hr). split; [lia|]. rewrite map_app, H0.
  destruct r as [sts | e].
  - rewrite Hr.
    replace (next h' - next h0)%nat with ((next h - next h0) + (next h' - next h))%nat by lia.
    rewrite seq_app. do 2 f_equal. lia.
  - simpl. rewrite app_nil_r. f_equal. lia.
Qed.

Lemma gather_allocates pg h :
  exists results hg,
    gather pg h = (Returned results, hg) /\
    (next h <= next hg)%nat /\
    (forall l, (l < next h)%nat -> objs hg !! l = objs h !! l) /\
    map prices (collect results) = seq (next h) (next hg - next h).
Proof.
  unfold gather, bind, attempt, ret.
  pose proof (adapters_allocate pg h) as (H1 & _).
  destruct (fetch_gas_didnt_work (p_gas pg) h) as [r1 h1].
  pose proof (adapters_allocate pg h1) as (_ & H2 & _).
  destruct (fetch_circlek (p_circlek pg) h1) as [r2 h2].
  pose proof (adapters_allocate pg h2) as (_ & _ & H3 & _).
  destruct (fetch_neste (p_neste pg) h2) as [r3 h3].
  pose proof (adapters_allocate pg h3) as (_ & _ & _ & H4 & _).
  destruct (fetch_virsi (p_virsi pg) h3) as [r4 h4].
  pose proof (adapters_allocate pg h4) as (_ & _ & _ & _ & H5).
  destruct (fetch_viada (p_viada pg) h4) as [r5 h5].
  exists [r1; r2; r3; r4; r5], h5. split; [reflexivity|].
  assert (next h <= next h)%nat as L0 by lia.
  assert (map prices ([] : list station) = seq (next h) (next h - next h)) as M0
      by now rewrite Nat.sub_diag.
  destruct (allocates_then h _ h r1 h1 L0 M0 H1) as [L1 M1].
  destruct (allocates_then h _ h1 r2 h2 L1 M1 H2) as [L2 M2].
  destruct (allocates_then h _ h2 r3 h3 L2 M2 H3) as [L3 M3].
  destruct (allocates_then h _ h3 r4 h4 L3 M3 H4) as [L4 M4].
  destruct (allocates_then h _ h4 r5 h5 L4 M4 H5) as [L5 M5].
  split; [exact L5|]. split.
  - intros l Hl.
    destruct H1 as (? & F1 & _), H2 as (? & F2 & _), H3 as (? & F3 & _),
             H4 as (? & F4 & _), H5 as (? & F5 & _).
    rewrite F5, F4, F3, F2, F1 by lia. reflexivity.
  - unfold collect. simpl flat_map. rewrite app_nil_r.
    simpl app in M5. rewrite <- !app_assoc in M5. exact M5.
Qed.

(** The merge writes to the dicts of the records of the working list only. *)
Lemma fold_dedup_frame stations :
  forall (uniq : uniq_map) h (locs : list loc),
    (forall k f, (k, f) ∈ uniq -> prices f ∈ locs) ->
    (forall st, st ∈ stations -> prices st ∈ locs) ->
    exists (uniq' : uniq_map) h',
      fold_m dedup_step uniq stations h = (Returned uniq', h') /\
      next h' = next h /\
      forall l, l ∉ locs -> objs h' !! l = objs h !! l.
Proof.
  induction stations as [|st rest IH]; intros uniq h locs Hu Hs.
  - exists uniq, h. repeat split; auto.
  - cbn [fold_m]. destruct (uniq_get (canonical_key st) uniq) as [first|] eqn:Hget.
    + rewrite (bind_returned _ _ _ _ _ (dedup_step_existing _ _ _ _ Hget)).
      destruct (IH uniq (Heap (<[prices first :=
                   merge_prices (deref h (prices first)) (deref h (prices st))]> (objs h))
                   (next h)) locs Hu) as (uniq' & h' & Hrun & Hnext & Hframe).
      { intros st' Hst'. apply Hs. now right. }
      exists uniq', h'. split; [exact Hrun|]. split; [exact Hnext|].
      intros l Hl. rewrite (Hframe l Hl). simpl. apply lookup_insert_ne.
      intros <-. apply Hl. apply (Hu _ _ (uniq_get_Some_in _ _ _ Hget)).
    + rewrite (bind_returned _ _ _ _ _ (dedup_step_new _ _ _ Hget)).
      apply IH.
      * intros k f [Hin | Hin%list_elem_of_singleton]%elem_of_app; [now apply (Hu k f)|].
        injection Hin as -> ->. apply Hs. left.
      * intros st' Hst'. apply Hs. now right.
Qed.

Lemma first_seen_sublist stations :
  forall seen, first_seen seen stations `sublist_of` stations.
Proof.
  induction stations as [|st rest IH]; intros seen; simpl; [constructor|].
  destruct (bool_decide _); [apply sublist_cons | apply sublist_skip]; apply IH.
Qed.

(** X20: one call of [fetch_all] keeps to itself: the records it returns
    hold prices mappings made during the call, no two records share one,
    and no object that was in the store before the call is changed. *)
Theorem fetch_all_isolated (pg : pages) (h : heap) :
  exists out h',
    fetch_all pg h = (Returned out, h') /\
    NoDup (map prices out) /\
    (forall st, st ∈ out -> (next h <= prices st < next h')%nat) /\
    (forall l, (l < next h)%nat -> objs h' !! l = objs h !! l).
Proof.
  destruct (gather_allocates pg h) as (results & hg & Hg & Hle & Hframe & Hlocs).
  destruct (fold_dedup_first_seen (collect results) [] hg) as (h' & Hrun).
  destruct (fold_dedup_frame (collect results) [] hg (seq (next h) (next hg - next h)))
    as (uniq' & h'' & Hrun' & Hnext & Hframe').
  { intros k f Hin. now apply elem_of_nil in Hin. }
  { intros st Hst. rewrite <- Hlocs. now apply (list_elem_of_fmap_2 prices). }
  rewrite Hrun in Hrun'. injection Hrun' as <- <-.
  exists (first_seen [] (collect results)), h'.
  assert (map prices (first_seen [] (collect results)) `sublist_of`
          seq (next h) (next hg - next h)) as Hsub.
  { rewrite <- Hlocs. apply (fmap_sublist prices), first_seen_sublist. }
  split; [|split; [|split]].
  - unfold fetch_all. rewrite (bind_returned _ _ _ _ _ Hg).
    unfold merge_results, dedup. rewrite (bind_returned _ _ _ _ _ Hrun).
    simpl. unfold ret. f_equal. f_equal. rewrite map_map. simpl. apply map_id.
  - exact (sublist_NoDup _ _ (NoDup_seq _ _) Hsub).
  - intros st Hin.
    assert (prices st ∈ seq (next h) (next hg - next h)) as Hseq.
    { eapply elem_of_sublist; [|exact Hsub]. now apply (list_elem_of_fmap_2 prices). }
    apply elem_of_seq in Hseq. lia.
  - intros l Hl. rewrite Hframe'; [now apply Hframe|].
    intros Hin%elem_of_seq. lia.
Qed.

(** X21: whatever the pages, the price [fetch_all] ends with for a station
    and a fuel is the lowest of the prices the adapters' records of that
    station gave for it, and none when no record priced it: the minimum is
    taken over all sources at once. *)
Theorem fetch_all_lowest_of_all_sources (pg : pages) (h : heap) :
  exists results hg out h',
    gather pg h = (Returned results, hg) /\
    fetch_all pg h = (Returned out, h') /\
    forall st fuel, st ∈ out ->
      is_min (priced hg fuel (canonical_key st) (collect results))
             (dict_get (deref h' (prices st)) fuel).
Proof.
  destruct (gather_allocates pg h) as (results & hg & Hg & _ & _ & Hlocs).
  destruct (fold_dedup_min hg (collect results) [] [] hg) as (uniq & h' & Hrun & Hspec).
  - simpl. rewrite Hlocs. apply NoDup_seq.
  - constructor.
  - intros k f Hin. now apply elem_of_nil in Hin.
  - intros k f fuel Hin. now apply elem_of_nil in Hin.
  - reflexivity.
  - intros st Hin. now apply elem_of_nil in Hin.
  - exists results, hg, (map snd uniq), h'. split; [exact Hg|]. split.
    + unfold fetch_all. rewrite (bind_returned _ _ _ _ _ Hg).
      unfold merge_results, dedup. now rewrite (bind_returned _ _ _ _ _ Hrun).
    + intros st fuel Hin. apply list_elem_of_fmap in Hin as ([k f] & -> & Hin).
      destruct (Hspec k f fuel Hin) as [-> Hp]. simpl. rewrite Hp.
      apply merge_over_is_min.
Qed.

End Isolation.
